(** * Stitcher geometry core (xcore/interface/stitcher.cpp)

    A shallow embedding of the stitcher base class of libxcam: the four
    layout stages ([estimate_coarse_crops], [mark_centers],
    [estimate_overlap], [update_copy_areas]), the configuration setters
    and the two rectangle helpers [merge_neighbor_area] and
    [split_area_by_out], followed by the properties of the stitcher
    specification that they decide.

    Conventions.
    - Every C++ integer is a [Z]; the conversions [(uint32_t) e] and
      [(int32_t) e] are the functions [uint32_t] and [int32_t] below
      (reduction modulo 2^32 into the unsigned, resp. two's complement
      range).  Addition and subtraction commute with both reductions, so an
      expression is reduced once, at the type in which the source stores or
      compares it.
    - [float] is IEEE 754 binary32, computed with the executable
      specification [SpecFloat] of the standard library.
    - The per-camera C arrays are lists indexed by [Z.to_nat]; an
      assignment [a[i] = v] is the list update [<[i:=v]>].
    - A C++ function with reference out-parameters takes their old values
      and returns the new ones next to its result.
    - [XCAM_ASSERT] is compiled out of release builds: the stage functions
      do not test the asserted conditions, which are collected in separate
      boolean functions ([split_area_by_out_asserts],
      [mark_centers_asserts], [estimate_overlap_asserts],
      [update_copy_areas_asserts]). *)

From Stdlib Require Import ZArith Lia Bool.
From Stdlib Require Import Floats.SpecFloat.
From stdpp Require Import base list.

Local Open Scope Z_scope.

(** ** Machine integers *)

Definition uint32_t (z : Z) : Z := z mod 4294967296.

Definition int32_t (z : Z) : Z := (z + 2147483648) mod 4294967296 - 2147483648.

Definition INT32_MAX : Z := 2147483647.

(** The sum [a + b] of two [int32_t] values is representable, so that the
    C++ addition is defined and equal to it. *)
Definition no_overflow (a b : Z) : Prop :=
  -2147483648 <= a + b <= INT32_MAX.

(** ** Geometry records

    stitcher.h is not part of the sources; the field types are the ones
    that the casts of stitcher.cpp imply.  Fields that share a name in C++
    ([left], [right], [width], [out_area]) carry the name of their struct
    as a prefix. *)

(** [Rect]: four [int32_t] fields. *)
Record Rect := mkRect {
  pos_x : Z;
  pos_y : Z;
  width : Z;
  height : Z
}.

(** [ImageCropInfo]: four [uint32_t] margins. *)
Record ImageCropInfo := mkCrop {
  crop_left : Z;
  crop_right : Z;
  crop_top : Z;
  crop_bottom : Z
}.

(** [RoundViewSlice]: pixel size ([uint32_t]) and horizontal field of view
    ([float], degrees). *)
Record RoundViewSlice := mkSlice {
  slice_width : Z;
  slice_height : Z;
  hori_angle_start : spec_float;
  hori_angle_range : spec_float
}.

(** [CameraInfo]: only [slice_view] is read by stitcher.cpp. *)
Record CameraInfo := mkCameraInfo {
  slice_view : RoundViewSlice
}.

(** [CenterMark]: two [uint32_t] columns. *)
Record CenterMark := mkCenterMark {
  slice_center_x : Z;
  out_center_x : Z
}.

(** [ImageOverlapInfo]: the overlap band in the left source, the right
    source and the output. *)
Record ImageOverlapInfo := mkOverlap {
  ov_left : Rect;
  ov_right : Rect;
  ov_out_area : Rect
}.

(** [Stitcher::CopyArea]. *)
Record CopyArea := mkCopyArea {
  in_idx : Z;
  in_area : Rect;
  out_area : Rect
}.

Definition CopyAreaArray := list CopyArea.

Inductive XCamReturn :=
| XCAM_RETURN_NO_ERROR
| XCAM_RETURN_ERROR_PARAM
| XCAM_RETURN_ERROR_ORDER
| XCAM_RETURN_ERROR_UNKNOWN.

#[global] Instance XCamReturn_eq_dec : EqDecision XCamReturn.
Proof. solve_decision. Defined.

#[global] Instance Rect_inhabited : Inhabited Rect := populate (mkRect 0 0 0 0).
#[global] Instance ImageCropInfo_inhabited : Inhabited ImageCropInfo :=
  populate (mkCrop 0 0 0 0).
#[global] Instance RoundViewSlice_inhabited : Inhabited RoundViewSlice :=
  populate (mkSlice 0 0 S754_nan S754_nan).
#[global] Instance CameraInfo_inhabited : Inhabited CameraInfo :=
  populate (mkCameraInfo inhabitant).
#[global] Instance CenterMark_inhabited : Inhabited CenterMark :=
  populate (mkCenterMark 0 0).
#[global] Instance ImageOverlapInfo_inhabited : Inhabited ImageOverlapInfo :=
  populate (mkOverlap inhabitant inhabitant inhabitant).
#[global] Instance CopyArea_inhabited : Inhabited CopyArea :=
  populate (mkCopyArea 0 inhabitant inhabitant).

(** Field assignments [r.pos_x = v], [r.width = v], [a.in_area = r], ... *)
Definition set_pos_x (r : Rect) (v : Z) : Rect :=
  mkRect v (pos_y r) (width r) (height r).
Definition set_width (r : Rect) (v : Z) : Rect :=
  mkRect (pos_x r) (pos_y r) v (height r).
Definition set_in_area (a : CopyArea) (r : Rect) : CopyArea :=
  mkCopyArea (in_idx a) r (out_area a).
Definition set_out_area (a : CopyArea) (r : Rect) : CopyArea :=
  mkCopyArea (in_idx a) (in_area a) r.

(** ** The rectangle helpers *)

(** [merge_neighbor_area (current, next, merged)]: the result and the new
    value of [merged]. *)
Definition merge_neighbor_area (current next merged : CopyArea)
  : bool * CopyArea :=
  if (in_idx current =? in_idx next)
     && (int32_t (pos_x (in_area current) + width (in_area current))
         =? pos_x (in_area next))
     && (int32_t (pos_x (out_area current) + width (out_area current))
         =? pos_x (out_area next))
  then
    let merged := current in
    let merged :=
      set_in_area merged (set_pos_x (in_area merged) (pos_x (in_area current))) in
    let merged :=
      set_in_area merged
        (set_width (in_area merged)
           (int32_t (width (in_area current) + width (in_area next)))) in
    let merged :=
      set_out_area merged (set_pos_x (out_area merged) (pos_x (out_area current))) in
    let merged :=
      set_out_area merged
        (set_width (out_area merged)
           (int32_t (width (out_area current) + width (out_area next)))) in
    (true, merged)
  else (false, merged).

(** The two assertions at the head of [split_area_by_out]. *)
Definition split_area_by_out_asserts (area : CopyArea) (round_width : Z) : bool :=
  (0 <=? pos_x (out_area area))
  && (pos_x (out_area area) <? int32_t round_width)
  && (0 <? width (out_area area))
  && (width (out_area area) <? int32_t round_width).

(** [split_area_by_out (area, round_width, split_a, split_b)]: the result
    and the new values of [split_a] and [split_b]. *)
Definition split_area_by_out (area : CopyArea) (round_width : Z)
    (split_a split_b : CopyArea) : bool * CopyArea * CopyArea :=
  if int32_t (pos_x (out_area area) + width (out_area area))
     >? int32_t round_width
  then
    let split_a := area in
    let split_a :=
      set_out_area split_a
        (set_width (out_area split_a)
           (int32_t (round_width - pos_x (out_area area)))) in
    let split_a :=
      set_in_area split_a
        (set_width (in_area split_a) (width (out_area split_a))) in
    let split_b := area in
    let split_b :=
      set_in_area split_b
        (set_pos_x (in_area split_b)
           (int32_t (pos_x (in_area area) + width (in_area split_a)))) in
    let split_b :=
      set_in_area split_b
        (set_width (in_area split_b)
           (int32_t (width (in_area area) - width (in_area split_a)))) in
    let split_b := set_out_area split_b (set_pos_x (out_area split_b) 0) in
    let split_b :=
      set_out_area split_b
        (set_width (out_area split_b) (width (in_area split_b))) in
    (true, split_a, split_b)
  else (false, split_a, split_b).

(** The assertion inside the splitting branch: the second piece is what
    sticks out beyond [round_width]. *)
Definition split_area_by_out_post (area : CopyArea) (round_width : Z)
    (split_b : CopyArea) : bool :=
  width (out_area split_b)
  =? int32_t (pos_x (out_area area) + width (out_area area)
              - int32_t round_width).

(** ** IEEE 754 binary32 *)

Definition f32_sub : spec_float -> spec_float -> spec_float := SFsub 24 128.
Definition f32_mul : spec_float -> spec_float -> spec_float := SFmul 24 128.
Definition f32_div : spec_float -> spec_float -> spec_float := SFdiv 24 128.
Definition f32_lt : spec_float -> spec_float -> bool := SFltb.

(** Conversion of an integer to [float] (round to nearest, ties to even). *)
Definition f32_of_int (z : Z) : spec_float := binary_normalize 24 128 z 0 false.

(** Conversion of a [float] to [uint32_t]: truncation towards zero.  A
    value outside the range of [uint32_t] has no defined result in C++;
    it is reduced modulo 2^32 here, NaN and the infinities give 0. *)
Definition uint32_of_f32 (x : spec_float) : Z :=
  match x with
  | S754_finite sign m e =>
      let a := if 0 <=? e then Z.pos m * 2 ^ e else Z.pos m / 2 ^ (- e) in
      uint32_t (if sign then - a else a)
  | _ => 0
  end.

Definition f32_360 : spec_float := f32_of_int 360.

(** [OUT_WINDOWS_START], -180.0f. *)
Definition OUT_WINDOWS_START : spec_float := SFopp (f32_of_int 180).

(** ** The stitcher state *)

(** The data members of [Stitcher] that stitcher.cpp reads or writes
    ([_bowl_config] is only stored by [set_bowl_config] and left out). *)
Record Stitcher := mkStitcher {
  _is_crop_set : bool;
  _alignment_x : Z;
  _alignment_y : Z;
  _output_width : Z;
  _output_height : Z;
  _out_start_angle : spec_float;
  _camera_num : Z;
  _camera_info : list CameraInfo;
  _crop_info : list ImageCropInfo;
  _is_overlap_set : bool;
  _overlap_info : list ImageOverlapInfo;
  _is_center_marked : bool;
  _center_marks : list CenterMark;
  _copy_areas : CopyAreaArray
}.

Definition set_is_crop_set (s : Stitcher) (b : bool) : Stitcher :=
  mkStitcher b (_alignment_x s) (_alignment_y s) (_output_width s)
    (_output_height s) (_out_start_angle s) (_camera_num s) (_camera_info s)
    (_crop_info s) (_is_overlap_set s) (_overlap_info s) (_is_center_marked s)
    (_center_marks s) (_copy_areas s).

Definition set_camera_num_field (s : Stitcher) (n : Z) : Stitcher :=
  mkStitcher (_is_crop_set s) (_alignment_x s) (_alignment_y s)
    (_output_width s) (_output_height s) (_out_start_angle s) n
    (_camera_info s) (_crop_info s) (_is_overlap_set s) (_overlap_info s)
    (_is_center_marked s) (_center_marks s) (_copy_areas s).

Definition set_camera_info_field (s : Stitcher) (l : list CameraInfo) : Stitcher :=
  mkStitcher (_is_crop_set s) (_alignment_x s) (_alignment_y s)
    (_output_width s) (_output_height s) (_out_start_angle s) (_camera_num s)
    l (_crop_info s) (_is_overlap_set s) (_overlap_info s)
    (_is_center_marked s) (_center_marks s) (_copy_areas s).

Definition set_crop_info_field (s : Stitcher) (l : list ImageCropInfo) : Stitcher :=
  mkStitcher (_is_crop_set s) (_alignment_x s) (_alignment_y s)
    (_output_width s) (_output_height s) (_out_start_angle s) (_camera_num s)
    (_camera_info s) l (_is_overlap_set s) (_overlap_info s)
    (_is_center_marked s) (_center_marks s) (_copy_areas s).

Definition set_is_overlap_set (s : Stitcher) (b : bool) : Stitcher :=
  mkStitcher (_is_crop_set s) (_alignment_x s) (_alignment_y s)
    (_output_width s) (_output_height s) (_out_start_angle s) (_camera_num s)
    (_camera_info s) (_crop_info s) b (_overlap_info s)
    (_is_center_marked s) (_center_marks s) (_copy_areas s).

Definition set_overlap_info_field (s : Stitcher) (l : list ImageOverlapInfo)
  : Stitcher :=
  mkStitcher (_is_crop_set s) (_alignment_x s) (_alignment_y s)
    (_output_width s) (_output_height s) (_out_start_angle s) (_camera_num s)
    (_camera_info s) (_crop_info s) (_is_overlap_set s) l
    (_is_center_marked s) (_center_marks s) (_copy_areas s).

Definition set_is_center_marked (s : Stitcher) (b : bool) : Stitcher :=
  mkStitcher (_is_crop_set s) (_alignment_x s) (_alignment_y s)
    (_output_width s) (_output_height s) (_out_start_angle s) (_camera_num s)
    (_camera_info s) (_crop_info s) (_is_overlap_set s) (_overlap_info s)
    b (_center_marks s) (_copy_areas s).

Definition set_center_marks (s : Stitcher) (l : list CenterMark) : Stitcher :=
  mkStitcher (_is_crop_set s) (_alignment_x s) (_alignment_y s)
    (_output_width s) (_output_height s) (_out_start_angle s) (_camera_num s)
    (_camera_info s) (_crop_info s) (_is_overlap_set s) (_overlap_info s)
    (_is_center_marked s) l (_copy_areas s).

Definition set_copy_areas (s : Stitcher) (l : CopyAreaArray) : Stitcher :=
  mkStitcher (_is_crop_set s) (_alignment_x s) (_alignment_y s)
    (_output_width s) (_output_height s) (_out_start_angle s) (_camera_num s)
    (_camera_info s) (_crop_info s) (_is_overlap_set s) (_overlap_info s)
    (_is_center_marked s) (_center_marks s) l.

(** [Stitcher::Stitcher (align_x, align_y)].  The per-camera arrays are not
    initialised by the constructor; their first contents are arguments. *)
Definition Stitcher_new (align_x align_y : Z)
    (camera_info : list CameraInfo) (crop_info : list ImageCropInfo)
    (overlap_info : list ImageOverlapInfo) (center_marks : list CenterMark)
  : Stitcher :=
  mkStitcher false align_x align_y 0 0 OUT_WINDOWS_START 0 camera_info
    crop_info false overlap_info false center_marks [].

(** A counted loop [for (i = first; ...; ++i) body] over the cameras that
    leaves at the first result other than [XCAM_RETURN_NO_ERROR]; [n] is
    the number of iterations still to run. *)
Fixpoint for_cameras {St : Type} (body : Z -> St -> XCamReturn * St)
    (n : nat) (i : Z) (st : St) : XCamReturn * St :=
  match n with
  | O => (XCAM_RETURN_NO_ERROR, st)
  | S n' =>
      match body i st with
      | (XCAM_RETURN_NO_ERROR, st') => for_cameras body n' (i + 1) st'
      | failed => failed
      end
  end.

(** ** The member functions *)

Section StitcherOps.

(** What stitcher.cpp takes from headers that are not part of the sources:
    the capacity of the per-camera arrays, the angle normalisation and the
    rounding of a column to the alignment grid. *)
Variable XCAM_STITCH_MAX_CAMERAS : Z.
Variable format_angle : spec_float -> spec_float.
Variable XCAM_ALIGN_AROUND : Z -> Z -> Z.

(** *** Configuration *)

Definition set_camera_num (s : Stitcher) (num : Z) : bool * Stitcher :=
  if negb (num <=? XCAM_STITCH_MAX_CAMERAS) then (false, s)
  else (true, set_camera_num_field s num).

Definition set_camera_info (s : Stitcher) (index : Z) (info : CameraInfo)
  : bool * Stitcher :=
  if negb (index <? _camera_num s) then (false, s)
  else (true, set_camera_info_field s (<[Z.to_nat index := info]> (_camera_info s))).

Definition set_crop_info (s : Stitcher) (index : Z) (info : ImageCropInfo)
  : bool * Stitcher :=
  if negb (index <? _camera_num s) then (false, s)
  else
    let s := set_crop_info_field s (<[Z.to_nat index := info]> (_crop_info s)) in
    let s := set_is_crop_set s true in
    (true, s).

(** [get_crop_info (index, info)]: the result and the new value of [info]. *)
Definition get_crop_info (s : Stitcher) (index : Z) (info : ImageCropInfo)
  : bool * ImageCropInfo :=
  if negb (index <? _camera_num s) then (false, info)
  else (true, _crop_info s !!! Z.to_nat index).

Definition get_camera_info (s : Stitcher) (index : Z) (info : CameraInfo)
  : bool * CameraInfo :=
  if negb (index <? XCAM_STITCH_MAX_CAMERAS) then (false, info)
  else (true, _camera_info s !!! Z.to_nat index).

(** *** Stage 1: crop resolution *)

Definition estimate_coarse_crops_camera (i : Z) (s : Stitcher)
  : XCamReturn * Stitcher :=
  (XCAM_RETURN_NO_ERROR,
   set_crop_info_field s (<[Z.to_nat i := mkCrop 0 0 0 0]> (_crop_info s))).

Definition estimate_coarse_crops (s : Stitcher) : XCamReturn * Stitcher :=
  if _is_crop_set s then (XCAM_RETURN_NO_ERROR, s)
  else
    match for_cameras estimate_coarse_crops_camera
            (Z.to_nat (_camera_num s)) 0 s with
    | (XCAM_RETURN_NO_ERROR, s') =>
        (XCAM_RETURN_NO_ERROR, set_is_crop_set s' true)
    | failed => failed
    end.

(** *** Stage 2: center marking *)

(** The locals of the loop of [mark_centers] for camera [i]: [out_pos] as
    first computed, [out_pos] after the snap to the seam, the normalised
    [center_in_slice], and [slice_pos] after alignment. *)
Definition mark_out_pos (s : Stitcher) (i : Z) : Z :=
  let center_angle :=
    f32_div (f32_mul (f32_of_int i) f32_360) (f32_of_int (_camera_num s)) in
  uint32_of_f32
    (f32_mul
       (f32_div (format_angle (f32_sub center_angle (_out_start_angle s)))
          f32_360)
       (f32_of_int (_output_width s))).

Definition mark_out_pos_snapped (s : Stitcher) (i : Z) : Z :=
  let constraint_margin := uint32_t (2 * _alignment_x s) in
  let out_pos := mark_out_pos s i in
  if (uint32_t (_output_width s - out_pos) <? constraint_margin)
     || (out_pos <? constraint_margin)
  then 0 else out_pos.

Definition mark_center_in_slice (s : Stitcher) (i : Z) : spec_float :=
  let slice := slice_view (_camera_info s !!! Z.to_nat i) in
  let out_pos := mark_out_pos_snapped s i in
  let center_angle :=
    f32_sub
      (f32_mul
         (f32_div (f32_of_int (XCAM_ALIGN_AROUND out_pos (_alignment_x s)))
            (f32_of_int (_output_width s)))
         f32_360)
      (_out_start_angle s) in
  let center_angle := format_angle center_angle in
  let center_in_slice := f32_sub center_angle (hori_angle_start slice) in
  format_angle center_in_slice.

Definition mark_slice_pos (s : Stitcher) (i : Z) : Z :=
  let slice := slice_view (_camera_info s !!! Z.to_nat i) in
  let slice_pos :=
    uint32_of_f32
      (f32_mul (f32_div (mark_center_in_slice s i) (hori_angle_range slice))
         (f32_of_int (slice_width slice))) in
  XCAM_ALIGN_AROUND slice_pos (_alignment_x s).

(** The body of the loop of [mark_centers] for camera [i], without its two
    [XCAM_ASSERT]s: these, one of which compares [slice_pos] with the crop
    margins [_crop_info[i].left] and [_crop_info[i].right], are
    [mark_centers_asserts] below. *)
Definition mark_centers_camera (i : Z) (s : Stitcher) : XCamReturn * Stitcher :=
  let slice := slice_view (_camera_info s !!! Z.to_nat i) in
  if negb (f32_lt (mark_center_in_slice s i) (hori_angle_range slice))
  then (XCAM_RETURN_ERROR_PARAM, s)
  else
    (XCAM_RETURN_NO_ERROR,
     set_center_marks s
       (<[Z.to_nat i := mkCenterMark (mark_slice_pos s i)
                          (mark_out_pos_snapped s i)]> (_center_marks s))).

(** The two assertions of that loop body. *)
Definition mark_centers_asserts (s : Stitcher) (i : Z) : bool :=
  let slice := slice_view (_camera_info s !!! Z.to_nat i) in
  let crop := _crop_info s !!! Z.to_nat i in
  (mark_out_pos s i <? _output_width s)
  && (crop_left crop <? mark_slice_pos s i)
  && (mark_slice_pos s i <? uint32_t (slice_width slice - crop_right crop)).

Definition mark_centers (s : Stitcher) : XCamReturn * Stitcher :=
  if _is_center_marked s then (XCAM_RETURN_NO_ERROR, s)
  else if negb (0 <? _camera_num s) then (XCAM_RETURN_ERROR_ORDER, s)
  else
    match for_cameras mark_centers_camera (Z.to_nat (_camera_num s)) 0 s with
    | (XCAM_RETURN_NO_ERROR, s') =>
        (XCAM_RETURN_NO_ERROR, set_is_center_marked s' true)
    | failed => failed
    end.

(** *** Stage 3: overlap estimation *)

(** [(idx + 1) % _camera_num]. *)
Definition next_index (s : Stitcher) (idx : Z) : Z :=
  uint32_t (idx + 1) mod _camera_num s.

(** The output center of a right neighbour, with column 0 read as
    [_output_width]. *)
Definition out_right_center_x (s : Stitcher) (next_idx : Z) : Z :=
  let right_center := _center_marks s !!! Z.to_nat next_idx in
  if out_center_x right_center =? 0 then _output_width s
  else out_center_x right_center.

Definition valid_left_img (s : Stitcher) (idx : Z) : Rect :=
  let left := slice_view (_camera_info s !!! Z.to_nat idx) in
  let left_center := _center_marks s !!! Z.to_nat idx in
  let left_img_crop := _crop_info s !!! Z.to_nat idx in
  let vpos_x := int32_t (slice_center_x left_center) in
  mkRect vpos_x
    (int32_t (crop_top left_img_crop))
    (int32_t (slice_width left - crop_right left_img_crop - vpos_x))
    (int32_t (slice_height left - crop_top left_img_crop
              - crop_bottom left_img_crop)).

Definition valid_right_img (s : Stitcher) (next_idx : Z) : Rect :=
  let right := slice_view (_camera_info s !!! Z.to_nat next_idx) in
  let right_center := _center_marks s !!! Z.to_nat next_idx in
  let right_img_crop := _crop_info s !!! Z.to_nat next_idx in
  let vwidth :=
    int32_t (slice_center_x right_center - crop_left right_img_crop) in
  mkRect (int32_t (slice_center_x right_center - vwidth))
    (int32_t (crop_top right_img_crop))
    vwidth
    (int32_t (slice_height right - crop_top right_img_crop
              - crop_bottom right_img_crop)).

Definition merge_width (s : Stitcher) (idx : Z) : Z :=
  let left_center := _center_marks s !!! Z.to_nat idx in
  uint32_t (out_right_center_x s (next_index s idx) - out_center_x left_center).

(** The condition of the [XCAM_FAIL_RETURN] of [estimate_overlap]. *)
Definition has_overlap (s : Stitcher) (idx : Z) : bool :=
  int32_t (width (valid_left_img s idx)
           + width (valid_right_img s (next_index s idx)))
  >? int32_t (merge_width s idx).

Definition overlap_width (s : Stitcher) (idx : Z) : Z :=
  uint32_t (width (valid_left_img s idx)
            + width (valid_right_img s (next_index s idx))
            - merge_width s idx).

(** The three rectangles stored for the pair [(idx, next_idx)]. *)
Definition overlap_of_pair (s : Stitcher) (idx : Z) : ImageOverlapInfo :=
  let left_center := _center_marks s !!! Z.to_nat idx in
  let vl := valid_left_img s idx in
  let vr := valid_right_img s (next_index s idx) in
  let ow := overlap_width s idx in
  let left_img_overlap :=
    mkRect (int32_t (pos_x vl + width vl - ow)) (pos_y vl) (int32_t ow)
      (height vl) in
  let right_img_overlap :=
    mkRect (pos_x vr) (pos_y vr) (int32_t ow) (height vr) in
  let out_overlap :=
    mkRect (int32_t (out_center_x left_center + width vl - ow)) (pos_y vl)
      (int32_t ow) (height vl) in
  mkOverlap left_img_overlap right_img_overlap out_overlap.

(** The body of the loop of [estimate_overlap] for the pair that starts at
    camera [idx]. *)
Definition estimate_overlap_pair (idx : Z) (s : Stitcher)
  : XCamReturn * Stitcher :=
  if negb (has_overlap s idx) then (XCAM_RETURN_ERROR_UNKNOWN, s)
  else
    (XCAM_RETURN_NO_ERROR,
     set_overlap_info_field s
       (<[Z.to_nat idx := overlap_of_pair s idx]> (_overlap_info s))).

Definition estimate_overlap (s : Stitcher) : XCamReturn * Stitcher :=
  if _is_overlap_set s then (XCAM_RETURN_NO_ERROR, s)
  else if negb (_is_crop_set s && _is_center_marked s)
  then (XCAM_RETURN_ERROR_ORDER, s)
  else
    match for_cameras estimate_overlap_pair (Z.to_nat (_camera_num s)) 0 s with
    | (XCAM_RETURN_NO_ERROR, s') =>
        (XCAM_RETURN_NO_ERROR, set_is_overlap_set s' true)
    | failed => failed
    end.

(** The two assertions of that loop body. *)
Definition estimate_overlap_asserts (s : Stitcher) (idx : Z) : bool :=
  let next_idx := next_index s idx in
  let left := slice_view (_camera_info s !!! Z.to_nat idx) in
  let left_center := _center_marks s !!! Z.to_nat idx in
  let right_center := _center_marks s !!! Z.to_nat next_idx in
  let right_img_crop := _crop_info s !!! Z.to_nat next_idx in
  let ov := overlap_of_pair s idx in
  (int32_t (slice_center_x left_center) <=? pos_x (ov_left ov))
  && (pos_x (ov_left ov) <? int32_t (slice_width left))
  && (int32_t (crop_left right_img_crop) <=? pos_x (ov_right ov))
  && (pos_x (ov_right ov) <? int32_t (slice_center_x right_center)).

(** *** Stage 4: copy-area synthesis *)

(** The candidate [left] of iteration [i]: from the center of camera [i]
    to the start of its overlap with the next camera. *)
Definition left_copy_area (s : Stitcher) (i : Z) : CopyArea :=
  let mark_left := _center_marks s !!! Z.to_nat i in
  let overlap := _overlap_info s !!! Z.to_nat i in
  let crop := _crop_info s !!! Z.to_nat i in
  let in_pos_x := int32_t (slice_center_x mark_left) in
  let in_width := int32_t (pos_x (ov_left overlap) - in_pos_x) in
  let in_height :=
    int32_t (slice_height (slice_view (_camera_info s !!! Z.to_nat i))
             - crop_top crop - crop_bottom crop) in
  mkCopyArea i
    (mkRect in_pos_x (int32_t (crop_top crop)) in_width in_height)
    (mkRect (int32_t (out_center_x mark_left)) 0 in_width in_height).

(** The candidate [right] of iteration [i]: from the end of that overlap to
    the center of camera [next_i]. *)
Definition right_copy_area (s : Stitcher) (i : Z) : CopyArea :=
  let next_i := next_index s i in
  let mark_right := _center_marks s !!! Z.to_nat next_i in
  let overlap := _overlap_info s !!! Z.to_nat i in
  let crop := _crop_info s !!! Z.to_nat next_i in
  let in_pos_x := int32_t (pos_x (ov_right overlap) + width (ov_right overlap)) in
  let in_width := int32_t (int32_t (slice_center_x mark_right) - in_pos_x) in
  let in_height :=
    int32_t (slice_height (slice_view (_camera_info s !!! Z.to_nat next_i))
             - crop_top crop - crop_bottom crop) in
  mkCopyArea next_i
    (mkRect in_pos_x (int32_t (crop_top crop)) in_width in_height)
    (mkRect (int32_t (out_right_center_x s next_i - in_width)) 0 in_width
       in_height).

(** [if (split_area_by_out (area, ...)) { push a; push b } else push area]:
    the new [tmp_areas], [split_a] and [split_b]. *)
Definition push_split (area : CopyArea) (round_width : Z)
    (st : CopyAreaArray * CopyArea * CopyArea)
  : CopyAreaArray * CopyArea * CopyArea :=
  let '(tmp_areas, split_a, split_b) := st in
  match split_area_by_out area round_width split_a split_b with
  | (true, split_a, split_b) => (tmp_areas ++ [split_a; split_b], split_a, split_b)
  | (false, split_a, split_b) => (tmp_areas ++ [area], split_a, split_b)
  end.

(** The body of the first loop of [update_copy_areas], on [tmp_areas]. *)
Definition update_copy_areas_camera (s : Stitcher) (i : Z)
    (tmp_areas : CopyAreaArray) : XCamReturn * CopyAreaArray :=
  let st := (tmp_areas, inhabitant, inhabitant) in
  let st := push_split (left_copy_area s i) (_output_width s) st in
  let st := push_split (right_copy_area s i) (_output_width s) st in
  (XCAM_RETURN_NO_ERROR, st.1.1).

(** The second loop of [update_copy_areas]: [i], [merged] and
    [_copy_areas] are the loop state, [fuel] bounds the number of
    iterations. *)
Fixpoint merge_areas (fuel : nat) (tmp_areas : CopyAreaArray) (end_ : Z)
    (i : Z) (merged : CopyArea) (copy_areas : CopyAreaArray) : CopyAreaArray :=
  match fuel with
  | O => copy_areas
  | S fuel' =>
      if int32_t i <=? end_ then
        let current := tmp_areas !!! Z.to_nat i in
        if i =? uint32_t end_ then copy_areas ++ [current]
        else
          let next := tmp_areas !!! Z.to_nat (uint32_t (i + 1)) in
          match merge_neighbor_area current next merged with
          | (true, merged) =>
              merge_areas fuel' tmp_areas end_ (uint32_t (i + 2)) merged
                (copy_areas ++ [merged])
          | (false, merged) =>
              merge_areas fuel' tmp_areas end_ (uint32_t (i + 1)) merged
                (copy_areas ++ [current])
          end
      else copy_areas
  end.

(** The merging part of [update_copy_areas]: last against first, then the
    greedy pass.  Every iteration of the pass advances [i], so the length
    of [tmp_areas] is enough fuel. *)
Definition merge_tmp_areas (tmp_areas : CopyAreaArray)
    (copy_areas : CopyAreaArray) : CopyAreaArray :=
  let merged : CopyArea := inhabitant in
  let start := 0 in
  let end_ := int32_t (Z.of_nat (length tmp_areas) - 1) in
  let '(start, end_, merged, copy_areas) :=
    if 2 <? Z.of_nat (length tmp_areas) then
      let first := tmp_areas !!! 0%nat in
      let last := tmp_areas !!! Z.to_nat end_ in
      match merge_neighbor_area last first merged with
      | (true, merged) =>
          (int32_t (start + 1), int32_t (end_ - 1), merged,
           copy_areas ++ [merged])
      | (false, merged) => (start, end_, merged, copy_areas)
      end
    else (start, end_, merged, copy_areas) in
  merge_areas (length tmp_areas) tmp_areas end_ (uint32_t start) merged
    copy_areas.

Definition update_copy_areas (s : Stitcher) : XCamReturn * Stitcher :=
  if negb ((1 <? _camera_num s) && _is_crop_set s && _is_overlap_set s)
  then (XCAM_RETURN_ERROR_ORDER, s)
  else
    match for_cameras (update_copy_areas_camera s)
            (Z.to_nat (_camera_num s)) 0 [] with
    | (XCAM_RETURN_NO_ERROR, tmp_areas) =>
        (XCAM_RETURN_NO_ERROR,
         set_copy_areas s (merge_tmp_areas tmp_areas (_copy_areas s)))
    | (failed, _) => (failed, s)
    end.

(** The assertions that iteration [i] of the first loop passes through:
    positive widths and heights, and the assertions of
    [split_area_by_out] on both candidates. *)
Definition split_area_by_out_all_asserts (area : CopyArea) (round_width : Z)
  : bool :=
  split_area_by_out_asserts area round_width
  && match split_area_by_out area round_width inhabitant inhabitant with
     | (true, _, split_b) => split_area_by_out_post area round_width split_b
     | (false, _, _) => width (out_area area) =? width (in_area area)
     end.

Definition update_copy_areas_asserts (s : Stitcher) (i : Z) : bool :=
  let l := left_copy_area s i in
  let r := right_copy_area s i in
  (0 <? width (in_area l)) && (0 <? height (in_area l))
  && split_area_by_out_all_asserts l (_output_width s)
  && (0 <? width (in_area r)) && (0 <? height (in_area r))
  && split_area_by_out_all_asserts r (_output_width s).

End StitcherOps.

(** ** The header definitions, from the specification *)

(** Modelled from the spec: the array capacity [XCAM_STITCH_MAX_CAMERAS]
    of stitcher.h is not part of the sources; the specification gives 8 as
    its example of the fixed maximum. *)
Definition MAX_CAMERAS_spec : Z := 8.

(** Modelled from the spec: [format_angle] of stitcher.h is not part of the
    sources; the specification (section 4.1) has it reduce any angle
    modulo 360 into [[0, 360)].  The reduction is exact on the value of
    the float and rounded once. *)
Definition format_angle_spec (x : spec_float) : spec_float :=
  match x with
  | S754_finite sign m e =>
      let k := Z.max 0 (- e) in
      let n := (if sign then - Z.pos m else Z.pos m) * 2 ^ Z.max 0 e in
      binary_normalize 24 128 (n mod (360 * 2 ^ k)) (- k) false
  | S754_zero _ => S754_zero false
  | other => other
  end.

(** Modelled from the spec: the macro [XCAM_ALIGN_AROUND] is not part of
    the sources; the specification (section 4.2) has it round a column to
    the nearest multiple of the alignment. *)
Definition ALIGN_AROUND_spec (value align : Z) : Z :=
  uint32_t ((value + align / 2) / align * align).

(** ** The protocol of the stages *)

(** The four stages, in the order in which a caller runs them. *)
Inductive Stage := CropResolution | CenterMarking | OverlapEstimation
                 | CopyAreaSynthesis.

Definition run_stage (format_angle : spec_float -> spec_float)
    (XCAM_ALIGN_AROUND : Z -> Z -> Z) (st : Stage) (s : Stitcher)
  : XCamReturn * Stitcher :=
  match st with
  | CropResolution => estimate_coarse_crops s
  | CenterMarking => mark_centers format_angle XCAM_ALIGN_AROUND s
  | OverlapEstimation => estimate_overlap s
  | CopyAreaSynthesis => update_copy_areas s
  end.

(** One call of a member function that changes the state. *)
Inductive stitcher_call (MAX : Z) (format_angle : spec_float -> spec_float)
    (XCAM_ALIGN_AROUND : Z -> Z -> Z) : Stitcher -> Stitcher -> Prop :=
| call_set_camera_num s num :
    stitcher_call MAX format_angle XCAM_ALIGN_AROUND s
      (set_camera_num MAX s num).2
| call_set_camera_info s index info :
    stitcher_call MAX format_angle XCAM_ALIGN_AROUND s
      (set_camera_info s index info).2
| call_set_crop_info s index info :
    stitcher_call MAX format_angle XCAM_ALIGN_AROUND s
      (set_crop_info s index info).2
| call_stage s st :
    stitcher_call MAX format_angle XCAM_ALIGN_AROUND s
      (run_stage format_angle XCAM_ALIGN_AROUND st s).2.

(** The overlap flag is only ever set by [estimate_overlap], after it has
    seen the crop and the center flags: in every state that the member
    functions can reach it implies them. *)
Definition stage_flags_ordered (s : Stitcher) : Prop :=
  _is_overlap_set s = true ->
  _is_crop_set s = true /\ _is_center_marked s = true.

(** The per-camera arrays hold at least [_camera_num] elements (they have
    [XCAM_STITCH_MAX_CAMERAS] elements in C++, and [set_camera_num] keeps
    [_camera_num] below that). *)
Definition arrays_fit (s : Stitcher) : Prop :=
  0 <= _camera_num s
  /\ _camera_num s <= Z.of_nat (length (_camera_info s))
  /\ _camera_num s <= Z.of_nat (length (_crop_info s))
  /\ _camera_num s <= Z.of_nat (length (_center_marks s))
  /\ _camera_num s <= Z.of_nat (length (_overlap_info s)).

(** The distance in the output from the center of camera [idx] to the
    center of its right neighbour, column 0 read as [_output_width], as an
    integer. *)
Definition center_distance (s : Stitcher) (idx : Z) : Z :=
  out_right_center_x s (next_index s idx)
  - out_center_x (_center_marks s !!! Z.to_nat idx).

(** What the loop of [estimate_overlap] has stored when it reaches pair
    [i] from the state [s]: the pairs below [i] have passed the test and
    hold their rectangles, the entries from [i] on are untouched. *)
Definition overlap_loop_inv (s : Stitcher) (i : Z) (st : Stitcher) : Prop :=
  exists l,
    st = set_overlap_info_field s l
    /\ length l = length (_overlap_info s)
    /\ (forall k, 0 <= k < i -> has_overlap s k = true)
    /\ (forall k, 0 <= k < i ->
          (Z.to_nat k < length (_overlap_info s))%nat ->
          l !! Z.to_nat k = Some (overlap_of_pair s k))
    /\ (forall j : nat, i <= Z.of_nat j -> l !! j = _overlap_info s !! j).

(** ** Overlap estimation in the words of the specification

    The quantities of the overlap stage as the specification describes
    them: integers, without the conversions of the code and without its
    helper for the right center.  [estimate_overlap_correct] compares them
    with what [estimate_overlap] computes. *)

(** The right neighbour of camera [idx] on the ring. *)
Definition ring_next_spec (s : Stitcher) (idx : Z) : Z :=
  (idx + 1) mod _camera_num s.

(** The output center column of the right neighbour, a center of 0 treated
    as [_output_width]. *)
Definition right_center_spec (s : Stitcher) (idx : Z) : Z :=
  let c := out_center_x (_center_marks s !!! Z.to_nat (ring_next_spec s idx)) in
  if c =? 0 then _output_width s else c.

(** The distance in the output from the center column of camera [idx] to
    the center column of its right neighbour. *)
Definition merge_width_spec (s : Stitcher) (idx : Z) : Z :=
  right_center_spec s idx - out_center_x (_center_marks s !!! Z.to_nat idx).

(** The valid width of the left camera: from its center column to its
    right edge minus the right crop. *)
Definition valid_left_width_spec (s : Stitcher) (idx : Z) : Z :=
  slice_width (slice_view (_camera_info s !!! Z.to_nat idx))
  - crop_right (_crop_info s !!! Z.to_nat idx)
  - slice_center_x (_center_marks s !!! Z.to_nat idx).

(** The valid width of the right camera: from its left edge plus the left
    crop to its center column. *)
Definition valid_right_width_spec (s : Stitcher) (idx : Z) : Z :=
  let next_idx := ring_next_spec s idx in
  slice_center_x (_center_marks s !!! Z.to_nat next_idx)
  - crop_left (_crop_info s !!! Z.to_nat next_idx).

Definition overlap_width_spec (s : Stitcher) (idx : Z) : Z :=
  valid_left_width_spec s idx + valid_right_width_spec s idx
  - merge_width_spec s idx.

(** The two valid widths, their sum and the distance of the centers are
    values of the [int32_t] in which the code compares them. *)
Definition overlap_representable (s : Stitcher) (idx : Z) : Prop :=
  -2147483648 <= valid_left_width_spec s idx <= INT32_MAX
  /\ -2147483648 <= valid_right_width_spec s idx <= INT32_MAX
  /\ no_overflow (valid_left_width_spec s idx) (valid_right_width_spec s idx)
  /\ -2147483648 <= merge_width_spec s idx <= INT32_MAX.

(** ** The merge pass as a recursion on the candidates *)

(** The greedy pass of [update_copy_areas] over the candidates [l] that are
    still to be visited, without indices: what the loop appends to
    [_copy_areas]. *)
Fixpoint merge_list (l : CopyAreaArray) (merged : CopyArea) : CopyAreaArray :=
  match l with
  | [] => []
  | current :: tl =>
      match tl with
      | [] => [current]
      | next :: rest =>
          match merge_neighbor_area current next merged with
          | (true, merged) => merged :: merge_list rest merged
          | (false, merged) => current :: merge_list tl merged
          end
      end
  end.

(** The candidates between the first and the last one. *)
Definition middle_areas (tmp_areas : CopyAreaArray) : CopyAreaArray :=
  drop 1 (take (length tmp_areas - 1) tmp_areas).

(** The candidates that the first loop of [update_copy_areas] collects,
    and the copy areas that one successful call appends to [_copy_areas]. *)
Definition tmp_areas_of (s : Stitcher) : CopyAreaArray :=
  (for_cameras (update_copy_areas_camera s) (Z.to_nat (_camera_num s)) 0 []).2.

Definition fresh_copy_areas (s : Stitcher) : CopyAreaArray :=
  merge_tmp_areas (tmp_areas_of s) [].

(** What the loop of [mark_centers] has stored when it reaches camera [i]
    from the state [s]: the cameras below [i] hold their marks, the
    entries from [i] on are untouched. *)
Definition center_loop_inv (format_angle : spec_float -> spec_float)
    (XCAM_ALIGN_AROUND : Z -> Z -> Z) (s : Stitcher) (i : Z) (st : Stitcher)
  : Prop :=
  exists l,
    st = set_center_marks s l
    /\ length l = length (_center_marks s)
    /\ (forall k, 0 <= k < i ->
          (Z.to_nat k < length (_center_marks s))%nat ->
          l !! Z.to_nat k
          = Some (mkCenterMark
                    (mark_slice_pos format_angle XCAM_ALIGN_AROUND s k)
                    (mark_out_pos_snapped format_angle s k)))
    /\ (forall j : nat, i <= Z.of_nat j -> l !! j = _center_marks s !! j).

(** ** Coverage of the output columns *)

(** Column [x] lies in the x-range [[pos_x, pos_x + width)] of [r]. *)
Definition covers (r : Rect) (x : Z) : bool :=
  (pos_x r <=? x) && (x <? pos_x r + width r).

(** The count of a column as a number, for one rectangle. *)
Definition covered (r : Rect) (x : Z) : Z := if covers r x then 1 else 0.

(** The number of rectangles of [l] whose x-range holds column [x]. *)
Fixpoint cover_count (x : Z) (l : list Rect) : Z :=
  match l with
  | [] => 0
  | r :: l' => covered r x + cover_count x l'
  end.

(** The rectangles that the stitcher hands on for the output frame: the
    destination rectangles of the copy areas, and the output rectangles of
    the overlaps of the [_camera_num] pairs. *)
Definition copy_dest_rects (s : Stitcher) : list Rect :=
  map out_area (_copy_areas s).

Definition overlap_out_rects (s : Stitcher) : list Rect :=
  map ov_out_area (take (Z.to_nat (_camera_num s)) (_overlap_info s)).

(** The sum of [f i] over the cameras [0 <= i < n]. *)
Fixpoint sum_cameras (f : Z -> Z) (n : nat) : Z :=
  match n with
  | O => 0
  | S n' => sum_cameras f n' + f (Z.of_nat n')
  end.

(** The number of cameras whose output center is column 0, the seam. *)
Definition seam_centers (s : Stitcher) : Z :=
  sum_cameras
    (fun i => if out_center_x (_center_marks s !!! Z.to_nat i) =? 0
              then 1 else 0)
    (Z.to_nat (_camera_num s)).

(** A rectangle with a positive width that lies inside the output frame. *)
Definition in_frame (output_width : Z) (r : Rect) : Prop :=
  0 <= pos_x r /\ 0 < width r /\ pos_x r + width r <= output_width.

(** The sizes stay clear of the 32-bit range: no computation of the stages
    on columns of the output wraps around, and the candidates fit the
    [int32_t] indices of the merge loop. *)
Definition overflow_free (s : Stitcher) : Prop :=
  0 <= _output_width s <= 536870912 /\ 4 * _camera_num s <= INT32_MAX.

(** The run of the four stages, each on the state that the stage before
    it left, from a state in which no center and no overlap has been
    computed and no copy area stored. *)
Definition stages_run (format_angle : spec_float -> spec_float)
    (XCAM_ALIGN_AROUND : Z -> Z -> Z) (s0 s1 s2 s3 s4 : Stitcher) : Prop :=
  _is_center_marked s0 = false
  /\ _is_overlap_set s0 = false
  /\ _copy_areas s0 = []
  /\ estimate_coarse_crops s0 = (XCAM_RETURN_NO_ERROR, s1)
  /\ mark_centers format_angle XCAM_ALIGN_AROUND s1 = (XCAM_RETURN_NO_ERROR, s2)
  /\ estimate_overlap s2 = (XCAM_RETURN_NO_ERROR, s3)
  /\ update_copy_areas s3 = (XCAM_RETURN_NO_ERROR, s4).

(** All the assertions of [update_copy_areas] hold in the state that it is
    called on. *)
Definition copy_areas_asserted (s : Stitcher) : Prop :=
  forall i, 0 <= i < _camera_num s -> update_copy_areas_asserts s i = true.

(** ** Sequences of calls *)

(** Any number of calls of member functions, one after the other. *)
Inductive stitcher_calls (MAX : Z) (format_angle : spec_float -> spec_float)
    (XCAM_ALIGN_AROUND : Z -> Z -> Z) : Stitcher -> Stitcher -> Prop :=
| calls_none s : stitcher_calls MAX format_angle XCAM_ALIGN_AROUND s s
| calls_more s s' s'' :
    stitcher_calls MAX format_angle XCAM_ALIGN_AROUND s s' ->
    stitcher_call MAX format_angle XCAM_ALIGN_AROUND s' s'' ->
    stitcher_calls MAX format_angle XCAM_ALIGN_AROUND s s''.

(** The per-camera arrays have their declared size, and the camera count
    is within it. *)
Definition within_capacity (MAX : Z) (s : Stitcher) : Prop :=
  _camera_num s <= MAX
  /\ Z.of_nat (length (_camera_info s)) = MAX
  /\ Z.of_nat (length (_crop_info s)) = MAX
  /\ Z.of_nat (length (_center_marks s)) = MAX
  /\ Z.of_nat (length (_overlap_info s)) = MAX.

(** The test of [mark_centers] on camera [i]: the center lies within the
    horizontal range of the slice. *)
Definition center_in_slice_range (format_angle : spec_float -> spec_float)
    (XCAM_ALIGN_AROUND : Z -> Z -> Z) (s : Stitcher) (i : Z) : bool :=
  f32_lt (mark_center_in_slice format_angle XCAM_ALIGN_AROUND s i)
    (hori_angle_range (slice_view (_camera_info s !!! Z.to_nat i))).

(** The geometry that [update_copy_areas] expects of a copy area: source
    and destination have the same size, and the destination starts at
    row 0. *)
Definition same_size (a : CopyArea) : Prop :=
  width (in_area a) = width (out_area a)
  /\ height (in_area a) = height (out_area a)
  /\ pos_y (out_area a) = 0.

(** ** Example configurations *)

Definition example_slice (start range w h : Z) : CameraInfo :=
  mkCameraInfo
    (mkSlice w h (f32_of_int start) (f32_of_int range)).

(** The scenario of the specification: four cameras of 100 degrees and
    1200 by 1000 pixels at 0, 90, 180 and 270 degrees, an output of 3600
    columns, alignment 16; nothing computed yet. *)
Definition four_cameras : Stitcher :=
  mkStitcher false 16 16 3600 1000 OUT_WINDOWS_START 4
    [example_slice (-50) 100 1200 1000; example_slice 40 100 1200 1000;
     example_slice 130 100 1200 1000; example_slice 220 100 1200 1000;
     inhabitant; inhabitant; inhabitant; inhabitant]
    (replicate 8 inhabitant) false (replicate 8 inhabitant) false
    (replicate 8 inhabitant) [].

(** [four_cameras] after the first stage. *)
Definition four_cameras_cropped : Stitcher :=
  Eval vm_compute in (estimate_coarse_crops four_cameras).2.

(** [four_cameras] after the first two stages. *)
Definition four_cameras_marked : Stitcher :=
  Eval vm_compute in
    (mark_centers format_angle_spec ALIGN_AROUND_spec
       (estimate_coarse_crops four_cameras).2).2.

(** [four_cameras] after the first three stages. *)
Definition four_cameras_overlapped : Stitcher :=
  Eval vm_compute in
    (estimate_overlap
       (mark_centers format_angle_spec ALIGN_AROUND_spec
          (estimate_coarse_crops four_cameras).2).2).2.

(** [four_cameras] after all four stages. *)
Definition four_cameras_done : Stitcher :=
  Eval vm_compute in (update_copy_areas four_cameras_overlapped).2.

(** Two cameras, the second of which looks away from the center that
    [mark_centers] computes for it (180 degrees, outside its field of view
    from 0 to 100 degrees). *)
Definition second_camera_astray : Stitcher :=
  mkStitcher true 16 16 3600 1000 OUT_WINDOWS_START 2
    [example_slice (-50) 100 1200 1000; example_slice 0 100 1200 1000;
     inhabitant; inhabitant; inhabitant; inhabitant; inhabitant; inhabitant]
    (replicate 8 inhabitant) false (replicate 8 inhabitant) false
    (replicate 8 inhabitant) [].

(** Two cameras and an output of 32 columns with alignment 16: both output
    centers are within [2 * 16] columns of an edge and snap to the seam. *)
Definition seam_twice : Stitcher :=
  mkStitcher false 16 16 32 20 OUT_WINDOWS_START 2
    [example_slice (-10) 350 40 20; example_slice 90 225 40 20;
     inhabitant; inhabitant; inhabitant; inhabitant; inhabitant; inhabitant]
    (replicate 8 inhabitant) false (replicate 8 inhabitant) false
    (replicate 8 inhabitant) [].

Definition seam_twice_cropped : Stitcher :=
  Eval vm_compute in (estimate_coarse_crops seam_twice).2.

Definition seam_twice_marked : Stitcher :=
  Eval vm_compute in
    (mark_centers format_angle_spec ALIGN_AROUND_spec seam_twice_cropped).2.

Definition seam_twice_overlapped : Stitcher :=
  Eval vm_compute in (estimate_overlap seam_twice_marked).2.

Definition seam_twice_done : Stitcher :=
  Eval vm_compute in (update_copy_areas seam_twice_overlapped).2.

(** * Properties *)

(** ** Machine integers *)

Lemma uint32_t_spec (z : Z) :
  exists k, uint32_t z = z + 4294967296 * k /\ 0 <= uint32_t z < 4294967296.
Proof.
  unfold uint32_t. exists (- (z / 4294967296)).
  pose proof (Z.div_mod z 4294967296 ltac:(lia)).
  pose proof (Z.mod_pos_bound z 4294967296 ltac:(lia)). lia.
Qed.

Lemma int32_t_spec (z : Z) :
  exists k, int32_t z = z + 4294967296 * k
            /\ -2147483648 <= int32_t z < 2147483648.
Proof.
  unfold int32_t. exists (- ((z + 2147483648) / 4294967296)).
  pose proof (Z.div_mod (z + 2147483648) 4294967296 ltac:(lia)).
  pose proof (Z.mod_pos_bound (z + 2147483648) 4294967296 ltac:(lia)). lia.
Qed.

Lemma uint32_t_id (z : Z) : 0 <= z < 4294967296 -> uint32_t z = z.
Proof. intros H. unfold uint32_t. apply Z.mod_small. lia. Qed.

Lemma int32_t_id (z : Z) : -2147483648 <= z <= INT32_MAX -> int32_t z = z.
Proof.
  unfold INT32_MAX. intros H. destruct (int32_t_spec z) as (k & E & B). lia.
Qed.

(** Replace every conversion in the goal and the context by a fresh
    variable with its defining congruence and its range. *)
Ltac unwrap32 :=
  repeat match goal with
    | |- context [int32_t ?e] =>
        let k := fresh "k" in let E := fresh "E" in let B := fresh "B" in
        let v := fresh "v" in
        destruct (int32_t_spec e) as (k & E & B);
        set (v := int32_t e) in *; clearbody v
    | H : context [int32_t ?e] |- _ =>
        let k := fresh "k" in let E := fresh "E" in let B := fresh "B" in
        let v := fresh "v" in
        destruct (int32_t_spec e) as (k & E & B);
        set (v := int32_t e) in *; clearbody v
    | |- context [uint32_t ?e] =>
        let k := fresh "k" in let E := fresh "E" in let B := fresh "B" in
        let v := fresh "v" in
        destruct (uint32_t_spec e) as (k & E & B);
        set (v := uint32_t e) in *; clearbody v
    | H : context [uint32_t ?e] |- _ =>
        let k := fresh "k" in let E := fresh "E" in let B := fresh "B" in
        let v := fresh "v" in
        destruct (uint32_t_spec e) as (k & E & B);
        set (v := uint32_t e) in *; clearbody v
    end.

(** ** The rectangle helpers *)

(** C4.  [merge_neighbor_area] returns true exactly when both areas read
    the same camera and are contiguous in the source and in the
    destination x-range; the merged widths are then the sums of the two
    widths.  The sums are the [int32_t] sums of the code; where a sum is
    representable the statement holds for the integer sum, so that merging
    leaves the covered destination width unchanged.  Without a merge the
    out-parameter keeps its value. *)
Theorem merge_neighbor_area_correct (current next merged : CopyArea) :
  let r := merge_neighbor_area current next merged in
  (r.1 = true <->
     in_idx current = in_idx next
     /\ int32_t (pos_x (in_area current) + width (in_area current))
        = pos_x (in_area next)
     /\ int32_t (pos_x (out_area current) + width (out_area current))
        = pos_x (out_area next))
  /\ (no_overflow (pos_x (in_area current)) (width (in_area current)) ->
      no_overflow (pos_x (out_area current)) (width (out_area current)) ->
      (r.1 = true <->
         in_idx current = in_idx next
         /\ pos_x (in_area current) + width (in_area current)
            = pos_x (in_area next)
         /\ pos_x (out_area current) + width (out_area current)
            = pos_x (out_area next)))
  /\ (r.1 = true ->
      in_idx r.2 = in_idx current
      /\ pos_x (in_area r.2) = pos_x (in_area current)
      /\ pos_x (out_area r.2) = pos_x (out_area current)
      /\ width (out_area r.2)
         = int32_t (width (out_area current) + width (out_area next))
      /\ width (in_area r.2)
         = int32_t (width (in_area current) + width (in_area next))
      /\ (no_overflow (width (out_area current)) (width (out_area next)) ->
          width (out_area r.2)
          = width (out_area current) + width (out_area next))
      /\ (no_overflow (width (in_area current)) (width (in_area next)) ->
          width (in_area r.2)
          = width (in_area current) + width (in_area next)))
  /\ (r.1 = false -> r.2 = merged).
Proof.
  unfold merge_neighbor_area.
  destruct (in_idx current =? in_idx next) eqn:Hi;
    destruct (int32_t (pos_x (in_area current) + width (in_area current))
              =? pos_x (in_area next)) eqn:Hs;
    destruct (int32_t (pos_x (out_area current) + width (out_area current))
              =? pos_x (out_area next)) eqn:Hd;
    cbn [andb fst snd set_in_area set_out_area set_width set_pos_x
         in_idx in_area out_area pos_x width];
    repeat match goal with
      | H : (_ =? _) = true |- _ => apply Z.eqb_eq in H
      | H : (_ =? _) = false |- _ => apply Z.eqb_neq in H
      end;
    (repeat split;
     try (intros; unfold no_overflow in *;
          rewrite ?int32_t_id in * by assumption);
     intros; try tauto; try congruence; try discriminate;
     try (unfold no_overflow in *; rewrite ?int32_t_id in * by assumption;
          intuition congruence)).
Qed.

(** C3.  For an area that satisfies the two range assertions of
    [split_area_by_out] and has equal source and destination widths:
    when the destination span goes beyond [round_width] the function
    returns true, the widths of the two pieces add up to the original
    widths in both spaces, the second piece starts at destination column
    0 and at the source column where the first piece ends; otherwise it
    returns false and writes nothing.  [round_width] is a [uint32_t]; the
    sum [pos_x + width] of the test is assumed representable, as the C++
    addition requires. *)
Theorem split_area_by_out_correct (area : CopyArea) (round_width : Z)
    (a0 b0 : CopyArea) :
  0 <= round_width < 4294967296 ->
  0 <= pos_x (out_area area) < int32_t round_width ->
  0 < width (out_area area) < int32_t round_width ->
  width (in_area area) = width (out_area area) ->
  no_overflow (pos_x (out_area area)) (width (out_area area)) ->
  let r := split_area_by_out area round_width a0 b0 in
  let split_a := r.1.2 in
  let split_b := r.2 in
  if round_width <? pos_x (out_area area) + width (out_area area) then
    r.1.1 = true
    /\ width (out_area split_a) + width (out_area split_b)
       = width (out_area area)
    /\ width (in_area split_a) + width (in_area split_b)
       = width (in_area area)
    /\ pos_x (out_area split_b) = 0
    /\ pos_x (in_area split_b)
       = int32_t (pos_x (in_area area) + width (in_area split_a))
    /\ (no_overflow (pos_x (in_area area)) (width (in_area split_a)) ->
        pos_x (in_area split_b)
        = pos_x (in_area area) + width (in_area split_a))
    /\ width (out_area split_a) = round_width - pos_x (out_area area)
    /\ pos_x (out_area split_a) = pos_x (out_area area)
    /\ pos_x (in_area split_a) = pos_x (in_area area)
    /\ in_idx split_a = in_idx area /\ in_idx split_b = in_idx area
  else r.1.1 = false /\ split_a = a0 /\ split_b = b0.
Proof.
  intros Hrw Hp Hw Heq Hno. unfold split_area_by_out, no_overflow, INT32_MAX in *.
  assert (Hr : int32_t round_width = round_width).
  { destruct (int32_t_spec round_width) as (k & E & B). lia. }
  rewrite Hr in *.
  rewrite (int32_t_id (pos_x (out_area area) + width (out_area area)))
    by (unfold INT32_MAX; lia).
  rewrite Z.gtb_ltb.
  destruct (round_width <? pos_x (out_area area) + width (out_area area)) eqn:Hc.
  - apply Z.ltb_lt in Hc.
    cbn [fst snd set_in_area set_out_area set_width set_pos_x
         in_idx in_area out_area pos_x width].
    rewrite (int32_t_id (round_width - pos_x (out_area area)))
      by (unfold INT32_MAX; lia).
    rewrite (int32_t_id (width (in_area area)
                         - (round_width - pos_x (out_area area))))
      by (unfold INT32_MAX; lia).
    repeat split; try lia.
    intros Hin. apply int32_t_id. exact Hin.
  - cbn [fst snd]. auto.
Qed.

(** ** Loops over the cameras *)

(** A property that every iteration preserves holds after the loop,
    whether it ran to its end or left early. *)
Lemma for_cameras_inv {St : Type} (P : St -> Prop)
    (body : Z -> St -> XCamReturn * St) :
  (forall i st r st', P st -> body i st = (r, st') -> P st') ->
  forall n i st r st',
    P st -> for_cameras body n i st = (r, st') -> P st'.
Proof.
  intros Hbody n. induction n as [|n IH]; intros i st r st' HP Hrun; cbn in Hrun.
  - inversion Hrun; subst; exact HP.
  - destruct (body i st) as [r1 st1] eqn:Hb.
    pose proof (Hbody _ _ _ _ HP Hb) as HP1.
    destruct r1; try (inversion Hrun; subst; exact HP1).
    eapply IH; eauto.
Qed.

(** The same for an invariant that follows the loop counter, below the
    bound [hi] of the loop; an early exit at iteration [k] is reported
    with the state it left behind. *)
Lemma for_cameras_inv_upto {St : Type} (P : Z -> St -> Prop)
    (Q : Z -> XCamReturn -> St -> Prop) (body : Z -> St -> XCamReturn * St)
    (hi : Z) :
  (forall i st st',
     i < hi -> P i st -> body i st = (XCAM_RETURN_NO_ERROR, st') ->
     P (i + 1) st') ->
  (forall i st r st',
     i < hi -> P i st -> body i st = (r, st') ->
     r <> XCAM_RETURN_NO_ERROR -> Q i r st') ->
  forall n i st r st',
    i + Z.of_nat n <= hi ->
    P i st -> for_cameras body n i st = (r, st') ->
    (r = XCAM_RETURN_NO_ERROR /\ P (i + Z.of_nat n) st')
    \/ (r <> XCAM_RETURN_NO_ERROR
        /\ exists k, i <= k < i + Z.of_nat n /\ Q k r st').
Proof.
  intros Hok Hfail n. induction n as [|n IH]; intros i st r st' Hhi HP Hrun.
  - cbn in Hrun. inversion Hrun; subst. left. split; [reflexivity|].
    replace (i + Z.of_nat 0) with i by lia. exact HP.
  - cbn [for_cameras] in Hrun. destruct (body i st) as [r1 st1] eqn:Hb.
    destruct (decide (r1 = XCAM_RETURN_NO_ERROR)) as [->|Hne].
    + assert (Hi : i < hi) by lia.
      assert (Hhi' : i + 1 + Z.of_nat n <= hi) by lia.
      pose proof (Hok _ _ _ Hi HP Hb) as HP1.
      destruct (IH _ _ _ _ Hhi' HP1 Hrun)
        as [[-> HP']|[Hr (k & Hk & HQ)]].
      * left. split; [reflexivity|].
        replace (i + Z.of_nat (S n)) with (i + 1 + Z.of_nat n) by lia. exact HP'.
      * right. split; [exact Hr|]. exists k. split; [lia|exact HQ].
    + assert (r = r1 /\ st' = st1) as [-> ->]
        by (destruct r1; try congruence; inversion Hrun; auto).
      right. split; [exact Hne|]. exists i. split; [lia|].
      eapply Hfail; eauto. lia.
Qed.

Lemma for_cameras_inv_idx {St : Type} (P : Z -> St -> Prop)
    (Q : Z -> XCamReturn -> St -> Prop) (body : Z -> St -> XCamReturn * St) :
  (forall i st st',
     P i st -> body i st = (XCAM_RETURN_NO_ERROR, st') -> P (i + 1) st') ->
  (forall i st r st',
     P i st -> body i st = (r, st') -> r <> XCAM_RETURN_NO_ERROR ->
     Q i r st') ->
  forall n i st r st',
    P i st -> for_cameras body n i st = (r, st') ->
    (r = XCAM_RETURN_NO_ERROR /\ P (i + Z.of_nat n) st')
    \/ (r <> XCAM_RETURN_NO_ERROR
        /\ exists k, i <= k < i + Z.of_nat n /\ Q k r st').
Proof.
  intros Hok Hfail n i st r st' HP Hrun.
  eapply (for_cameras_inv_upto P Q body (i + Z.of_nat n)); eauto. lia.
Qed.

(** A loop whose body never fails runs to its end. *)
Lemma for_cameras_no_error {St : Type} (body : Z -> St -> XCamReturn * St) :
  (forall i st, (body i st).1 = XCAM_RETURN_NO_ERROR) ->
  forall n i st, (for_cameras body n i st).1 = XCAM_RETURN_NO_ERROR.
Proof.
  intros Hbody n. induction n as [|n IH]; intros i st; cbn; [reflexivity|].
  specialize (Hbody i st). destruct (body i st) as [r1 st1]. cbn in Hbody.
  subst r1. apply IH.
Qed.

(** ** What each member function may write *)

Lemma set_crop_info_field_same (s : Stitcher) :
  set_crop_info_field s (_crop_info s) = s.
Proof. destruct s; reflexivity. Qed.

Lemma set_center_marks_same (s : Stitcher) :
  set_center_marks s (_center_marks s) = s.
Proof. destruct s; reflexivity. Qed.

Lemma set_overlap_info_field_same (s : Stitcher) :
  set_overlap_info_field s (_overlap_info s) = s.
Proof. destruct s; reflexivity. Qed.

Lemma set_is_crop_set_same (s : Stitcher) :
  set_is_crop_set s (_is_crop_set s) = s.
Proof. destruct s; reflexivity. Qed.

Lemma set_is_center_marked_same (s : Stitcher) :
  set_is_center_marked s (_is_center_marked s) = s.
Proof. destruct s; reflexivity. Qed.

Lemma set_is_overlap_set_same (s : Stitcher) :
  set_is_overlap_set s (_is_overlap_set s) = s.
Proof. destruct s; reflexivity. Qed.

(** [estimate_coarse_crops] always succeeds; it writes the crop array and
    the crop flag only. *)
Lemma estimate_coarse_crops_frame (s : Stitcher) :
  exists l,
    estimate_coarse_crops s
    = (XCAM_RETURN_NO_ERROR, set_is_crop_set (set_crop_info_field s l) true)
    /\ length l = length (_crop_info s).
Proof.
  unfold estimate_coarse_crops. destruct (_is_crop_set s) eqn:Hflag.
  - exists (_crop_info s). split; [|reflexivity].
    rewrite set_crop_info_field_same, <- Hflag, set_is_crop_set_same. reflexivity.
  - pose proof (for_cameras_no_error estimate_coarse_crops_camera
                  (fun _ _ => eq_refl) (Z.to_nat (_camera_num s)) 0 s) as Hok.
    destruct (for_cameras _ _ _ _) as [r s1] eqn:Hrun. cbn in Hok. subst r.
    assert (exists l, s1 = set_crop_info_field s l
                      /\ length l = length (_crop_info s)) as (l & -> & Hl).
    { eapply (for_cameras_inv
                (fun st => exists l, st = set_crop_info_field s l
                                     /\ length l = length (_crop_info s)));
        [| |exact Hrun].
      - intros i st r st' (l & -> & Hl) Hb. unfold estimate_coarse_crops_camera in Hb.
        inversion Hb; subst. eexists. split; [reflexivity|].
        cbn. rewrite length_insert. exact Hl.
      - exists (_crop_info s). rewrite set_crop_info_field_same. auto. }
    exists l. auto.
Qed.

(** [mark_centers] writes the center marks and, on success only, the
    center flag. *)
Lemma mark_centers_frame (format_angle : spec_float -> spec_float)
    (XCAM_ALIGN_AROUND : Z -> Z -> Z) (s : Stitcher) (r : XCamReturn)
    (s' : Stitcher) :
  mark_centers format_angle XCAM_ALIGN_AROUND s = (r, s') ->
  exists l,
    length l = length (_center_marks s)
    /\ ((r = XCAM_RETURN_NO_ERROR
         /\ s' = set_is_center_marked (set_center_marks s l) true)
        \/ (r <> XCAM_RETURN_NO_ERROR /\ _is_center_marked s = false
            /\ s' = set_center_marks s l)).
Proof.
  unfold mark_centers. destruct (_is_center_marked s) eqn:Hflag.
  - intros H; inversion H; subst. exists (_center_marks s'). split; [reflexivity|].
    left. split; [reflexivity|].
    rewrite set_center_marks_same, <- Hflag, set_is_center_marked_same. reflexivity.
  - destruct (0 <? _camera_num s).
    + cbn [negb]. destruct (for_cameras _ _ _ _) as [r1 s1] eqn:Hrun.
      assert (exists l, s1 = set_center_marks s l
                        /\ length l = length (_center_marks s)) as (l & -> & Hl).
      { eapply (for_cameras_inv
                  (fun st => exists l, st = set_center_marks s l
                                       /\ length l = length (_center_marks s)));
          [| |exact Hrun].
        - intros i st r0 st' (l & -> & Hl) Hb. unfold mark_centers_camera in Hb.
          destruct (negb _) in Hb; inversion Hb; subst.
          + exists l. auto.
          + eexists. split; [reflexivity|]. cbn. rewrite length_insert. exact Hl.
        - exists (_center_marks s). rewrite set_center_marks_same. auto. }
      intros H. exists l. split; [exact Hl|].
      destruct r1; inversion H; subst; first [left; split; [reflexivity|reflexivity] | right; repeat split; congruence].
    + cbn [negb]. intros H; inversion H; subst. exists (_center_marks s').
      split; [reflexivity|]. right. rewrite set_center_marks_same.
      repeat split; congruence.
Qed.

(** [estimate_overlap] writes the overlap array and, on success only, the
    overlap flag. *)
Lemma estimate_overlap_frame (s : Stitcher) (r : XCamReturn) (s' : Stitcher) :
  estimate_overlap s = (r, s') ->
  exists l,
    length l = length (_overlap_info s)
    /\ ((r = XCAM_RETURN_NO_ERROR
         /\ s' = set_is_overlap_set (set_overlap_info_field s l) true)
        \/ (r <> XCAM_RETURN_NO_ERROR /\ _is_overlap_set s = false
            /\ s' = set_overlap_info_field s l)).
Proof.
  unfold estimate_overlap. destruct (_is_overlap_set s) eqn:Hflag.
  - intros H; inversion H; subst. exists (_overlap_info s'). split; [reflexivity|].
    left. split; [reflexivity|].
    rewrite set_overlap_info_field_same, <- Hflag, set_is_overlap_set_same.
    reflexivity.
  - destruct (_is_crop_set s && _is_center_marked s).
    + cbn [negb]. destruct (for_cameras _ _ _ _) as [r1 s1] eqn:Hrun.
      assert (exists l, s1 = set_overlap_info_field s l
                        /\ length l = length (_overlap_info s)) as (l & -> & Hl).
      { eapply (for_cameras_inv
                  (fun st => exists l, st = set_overlap_info_field s l
                                       /\ length l = length (_overlap_info s)));
          [| |exact Hrun].
        - intros i st r0 st' (l & -> & Hl) Hb. unfold estimate_overlap_pair in Hb.
          destruct (negb _) in Hb; inversion Hb; subst.
          + exists l. auto.
          + eexists. split; [reflexivity|]. cbn. rewrite length_insert. exact Hl.
        - exists (_overlap_info s). rewrite set_overlap_info_field_same. auto. }
      intros H. exists l. split; [exact Hl|].
      destruct r1; inversion H; subst; first [left; split; [reflexivity|reflexivity] | right; repeat split; congruence].
    + cbn [negb]. intros H; inversion H; subst. exists (_overlap_info s').
      split; [reflexivity|]. right. rewrite set_overlap_info_field_same.
      repeat split; congruence.
Qed.

(** The merge pass only appends to [_copy_areas]. *)
Lemma merge_areas_app (fuel : nat) (tmp_areas : CopyAreaArray) (end_ i : Z)
    (merged : CopyArea) (copy_areas : CopyAreaArray) :
  merge_areas fuel tmp_areas end_ i merged copy_areas
  = copy_areas ++ merge_areas fuel tmp_areas end_ i merged [].
Proof.
  revert i merged copy_areas.
  induction fuel as [|fuel IH]; intros i merged copy_areas; cbn [merge_areas].
  - rewrite app_nil_r. reflexivity.
  - destruct (int32_t i <=? end_); [|rewrite app_nil_r; reflexivity].
    destruct (i =? uint32_t end_); [reflexivity|].
    destruct (merge_neighbor_area _ _ merged) as [[|] m].
    + rewrite IH. rewrite (IH _ _ ([] ++ [m])). rewrite <- app_assoc. reflexivity.
    + rewrite IH. rewrite (IH _ _ ([] ++ [_])). rewrite <- app_assoc. reflexivity.
Qed.

Lemma merge_tmp_areas_app (tmp_areas copy_areas : CopyAreaArray) :
  merge_tmp_areas tmp_areas copy_areas
  = copy_areas ++ merge_tmp_areas tmp_areas [].
Proof.
  unfold merge_tmp_areas. destruct (2 <? Z.of_nat (length tmp_areas)).
  - destruct (merge_neighbor_area _ _ _) as [[|] m].
    + rewrite merge_areas_app. rewrite (merge_areas_app _ _ _ _ _ ([] ++ [m])).
      rewrite <- app_assoc. reflexivity.
    + apply merge_areas_app.
  - apply merge_areas_app.
Qed.

(** The candidate rectangles of [update_copy_areas], before merging. *)
Lemma update_copy_areas_unfold (s : Stitcher) :
  update_copy_areas s
  = if negb ((1 <? _camera_num s) && _is_crop_set s && _is_overlap_set s)
    then (XCAM_RETURN_ERROR_ORDER, s)
    else (XCAM_RETURN_NO_ERROR,
          set_copy_areas s (_copy_areas s ++ fresh_copy_areas s)).
Proof.
  unfold update_copy_areas, fresh_copy_areas, tmp_areas_of.
  destruct (negb _); [reflexivity|].
  pose proof (for_cameras_no_error (update_copy_areas_camera s)
                (fun _ _ => eq_refl) (Z.to_nat (_camera_num s)) 0 []) as Hok.
  destruct (for_cameras _ _ _ _) as [r tmp]. cbn in Hok. subst r. cbn [snd].
  rewrite merge_tmp_areas_app. reflexivity.
Qed.

(** ** Configuration *)

(** C8, as the code has it.  [set_camera_num] succeeds exactly when the
    count is at most [XCAM_STITCH_MAX_CAMERAS]: a larger count fails and
    leaves the state, and so the stored count, unchanged; every smaller
    count, 0 and 1 included, is stored.  (A count below 2 is turned down
    later, by [mark_centers] and [update_copy_areas].) *)
Theorem set_camera_num_correct (XCAM_STITCH_MAX_CAMERAS : Z) (s : Stitcher)
    (num : Z) :
  let r := set_camera_num XCAM_STITCH_MAX_CAMERAS s num in
  (r.1 = true <-> num <= XCAM_STITCH_MAX_CAMERAS)
  /\ (XCAM_STITCH_MAX_CAMERAS < num -> r = (false, s))
  /\ (num <= XCAM_STITCH_MAX_CAMERAS -> r = (true, set_camera_num_field s num))
  /\ (r.1 = true -> _camera_num r.2 = num).
Proof.
  unfold set_camera_num. destruct (num <=? XCAM_STITCH_MAX_CAMERAS) eqn:Hle;
    cbn [negb fst snd].
  - apply Z.leb_le in Hle. repeat split; intros; try lia; reflexivity.
  - apply Z.leb_gt in Hle. repeat split; intros; try lia; try discriminate.
Qed.

(** C8, as the specification states it, fails: a count of 1 is accepted although it is
    below 2. *)
Lemma set_camera_num_accepts_one :
  (set_camera_num MAX_CAMERAS_spec four_cameras 1).1 = true
  /\ _camera_num (set_camera_num MAX_CAMERAS_spec four_cameras 1).2 = 1
  /\ ~ (2 <= 1 <= MAX_CAMERAS_spec).
Proof. repeat split. intros [H _]. lia. Qed.

(** C10.  A successful [set_crop_info] for one valid index sets the crop
    flag; [estimate_coarse_crops] is then a no-op, and the margins of
    every other camera are what they were before the call. *)
Theorem set_crop_info_completes_stage (s : Stitcher) (index : Z)
    (info : ImageCropInfo) :
  index < _camera_num s ->
  let r := set_crop_info s index info in
  r.1 = true
  /\ _is_crop_set r.2 = true
  /\ estimate_coarse_crops r.2 = (XCAM_RETURN_NO_ERROR, r.2)
  /\ (forall j : nat, j <> Z.to_nat index ->
        _crop_info (estimate_coarse_crops r.2).2 !! j = _crop_info s !! j)
  /\ ((Z.to_nat index < length (_crop_info s))%nat ->
        _crop_info (estimate_coarse_crops r.2).2 !! Z.to_nat index = Some info).
Proof.
  intros Hidx. unfold set_crop_info.
  apply Z.ltb_lt in Hidx. rewrite Hidx. cbn [negb fst snd].
  unfold estimate_coarse_crops. cbn [_is_crop_set set_is_crop_set snd].
  repeat split.
  - intros j Hj. cbn. apply list_lookup_insert_ne. congruence.
  - intros Hlen. cbn. apply list_lookup_insert_eq. exact Hlen.
Qed.

(** ** The order of the stages *)

Lemma estimate_overlap_success_flags (s s' : Stitcher) :
  estimate_overlap s = (XCAM_RETURN_NO_ERROR, s') ->
  _is_overlap_set s = true
  \/ (_is_crop_set s = true /\ _is_center_marked s = true).
Proof.
  unfold estimate_overlap. destruct (_is_overlap_set s); [auto|].
  destruct (_is_crop_set s); destruct (_is_center_marked s); cbn; auto;
    discriminate.
Qed.

Lemma stage_flags_ordered_new (align_x align_y : Z) ci cr ov cm :
  stage_flags_ordered (Stitcher_new align_x align_y ci cr ov cm).
Proof. intros H. discriminate H. Qed.

(** No member function breaks the order of the flags. *)
Lemma stage_flags_ordered_call (MAX : Z) (format_angle : spec_float -> spec_float)
    (XCAM_ALIGN_AROUND : Z -> Z -> Z) (s s' : Stitcher) :
  stitcher_call MAX format_angle XCAM_ALIGN_AROUND s s' ->
  stage_flags_ordered s -> stage_flags_ordered s'.
Proof.
  unfold stage_flags_ordered.
  intros Hcall Hinv. inversion Hcall as [s0 num|s0 index info|s0 index info|s0 st];
    subst; clear Hcall.
  - unfold set_camera_num. destruct (negb _); cbn; exact Hinv.
  - unfold set_camera_info. destruct (negb _); cbn; exact Hinv.
  - unfold set_crop_info. destruct (negb _); cbn; [exact Hinv|]. tauto.
  - destruct st; cbn [run_stage].
    + destruct (estimate_coarse_crops_frame s) as (l & -> & _). cbn. tauto.
    + destruct (mark_centers format_angle XCAM_ALIGN_AROUND s) as [r s1] eqn:Hrun.
      destruct (mark_centers_frame _ _ _ _ _ Hrun)
        as (l & _ & [[_ ->]|(_ & _ & ->)]); cbn; tauto.
    + destruct (estimate_overlap s) as [r s1] eqn:Hrun.
      destruct (estimate_overlap_frame _ _ _ Hrun)
        as (l & _ & [[-> ->]|(_ & Hoff & ->)]); cbn.
      * intros _. destruct (estimate_overlap_success_flags _ _ Hrun); auto.
      * rewrite Hoff. discriminate.
    + rewrite update_copy_areas_unfold. destruct (negb _); cbn; exact Hinv.
Qed.

(** C9.  In a state with the flags in order, [estimate_overlap] called
    before the crop stage and the center marking are both complete returns
    the ordering error and the state it was given; so does
    [update_copy_areas] with at most one camera, or without the crop or
    the overlap information. *)
Theorem stage_order_errors (s : Stitcher) :
  stage_flags_ordered s ->
  (~ (_is_crop_set s = true /\ _is_center_marked s = true) ->
   estimate_overlap s = (XCAM_RETURN_ERROR_ORDER, s))
  /\ (_camera_num s <= 1 \/ _is_crop_set s = false \/ _is_overlap_set s = false ->
      update_copy_areas s = (XCAM_RETURN_ERROR_ORDER, s)).
Proof.
  intros Hinv. split.
  - intros Hnot. unfold estimate_overlap.
    destruct (_is_overlap_set s) eqn:Hov; [exfalso; apply Hnot, Hinv, Hov|].
    destruct (_is_crop_set s); destruct (_is_center_marked s); cbn;
      try reflexivity. exfalso. apply Hnot. auto.
  - intros Hpre. unfold update_copy_areas.
    destruct (1 <? _camera_num s) eqn:Hnum; [|reflexivity].
    apply Z.ltb_lt in Hnum.
    destruct Hpre as [Hle|[-> | ->]]; [lia|reflexivity|].
    rewrite andb_false_r. reflexivity.
Qed.

Lemma stage_order_errors_witness :
  stage_flags_ordered four_cameras
  /\ estimate_overlap four_cameras = (XCAM_RETURN_ERROR_ORDER, four_cameras)
  /\ update_copy_areas four_cameras = (XCAM_RETURN_ERROR_ORDER, four_cameras).
Proof.
  assert (Hinv : stage_flags_ordered four_cameras)
    by (intros H; discriminate H).
  destruct (stage_order_errors four_cameras Hinv) as [H1 H2].
  split; [exact Hinv|]. split.
  - apply H1. intros [H _]. discriminate H.
  - apply H2. right. left. reflexivity.
Defined.

Lemma set_crop_info_completes_stage_witness :
  let r := set_crop_info four_cameras 2 (mkCrop 4 4 2 2) in
  r.1 = true /\ _is_crop_set r.2 = true
  /\ estimate_coarse_crops r.2 = (XCAM_RETURN_NO_ERROR, r.2).
Proof.
  pose proof (set_crop_info_completes_stage four_cameras 2 (mkCrop 4 4 2 2)
                ltac:(reflexivity)) as (H1 & H2 & H3 & _).
  cbv zeta. auto.
Defined.

Lemma split_area_by_out_correct_witness :
  let area := mkCopyArea 2 (mkRect 300 0 616 1000) (mkRect 3292 0 616 1000) in
  let r := split_area_by_out area 3600 inhabitant inhabitant in
  r.1.1 = true
  /\ width (out_area r.1.2) + width (out_area r.2) = 616
  /\ pos_x (out_area r.2) = 0
  /\ pos_x (in_area r.2) = 300 + width (in_area r.1.2).
Proof.
  pose proof (split_area_by_out_correct
                (mkCopyArea 2 (mkRect 300 0 616 1000) (mkRect 3292 0 616 1000))
                3600 inhabitant inhabitant
                ltac:(lia) ltac:(vm_compute; split; [discriminate|reflexivity])
                ltac:(vm_compute; split; reflexivity) ltac:(reflexivity)
                ltac:(vm_compute; split; discriminate)) as H.
  cbv zeta in H. change (3600 <? _) with true in H. cbv iota in H.
  destruct H as (H1 & H2 & _ & H4 & _ & H6 & _).
  cbv zeta. split; [exact H1|]. split; [exact H2|]. split; [exact H4|].
  apply H6. vm_compute. split; discriminate.
Defined.

(** ** Overlap estimation *)

Lemma estimate_overlap_loop (s : Stitcher) (r : XCamReturn) (s' : Stitcher) :
  for_cameras estimate_overlap_pair (Z.to_nat (_camera_num s)) 0 s = (r, s') ->
  (r = XCAM_RETURN_NO_ERROR
   /\ overlap_loop_inv s (Z.of_nat (Z.to_nat (_camera_num s))) s')
  \/ (r = XCAM_RETURN_ERROR_UNKNOWN
      /\ exists k, 0 <= k < Z.of_nat (Z.to_nat (_camera_num s))
                   /\ has_overlap s k = false /\ overlap_loop_inv s k s').
Proof.
  intros Hrun.
  assert (Hstep : forall i st st',
    0 <= i /\ overlap_loop_inv s i st ->
    estimate_overlap_pair i st = (XCAM_RETURN_NO_ERROR, st') ->
    0 <= i + 1 /\ overlap_loop_inv s (i + 1) st').
  { intros i st st' [Hi (l & -> & Hl & Hchk & Hset & Hrest)] Hb.
    unfold estimate_overlap_pair in Hb.
    change (has_overlap (set_overlap_info_field s l) i) with (has_overlap s i) in Hb.
    change (overlap_of_pair (set_overlap_info_field s l) i)
      with (overlap_of_pair s i) in Hb.
    destruct (has_overlap s i) eqn:Hc; cbn [negb] in Hb; inversion Hb; subst.
    split; [lia|]. eexists. split; [reflexivity|].
    cbn [_overlap_info set_overlap_info_field]. rewrite length_insert.
    split; [exact Hl|]. split; [|split].
    + intros k Hk. destruct (decide (k = i)) as [->|]; [exact Hc|].
      apply Hchk. lia.
    + intros k Hk Hlen. destruct (decide (k = i)) as [->|Hne].
      * apply list_lookup_insert_eq. lia.
      * rewrite list_lookup_insert_ne by lia. apply Hset; [lia|exact Hlen].
    + intros j Hj. rewrite list_lookup_insert_ne by lia. apply Hrest. lia. }
  assert (Hexit : forall i st r0 st',
    0 <= i /\ overlap_loop_inv s i st ->
    estimate_overlap_pair i st = (r0, st') -> r0 <> XCAM_RETURN_NO_ERROR ->
    r0 = XCAM_RETURN_ERROR_UNKNOWN /\ has_overlap s i = false
    /\ overlap_loop_inv s i st').
  { intros i st r0 st' [Hi (l & -> & Hl & Hchk & Hset & Hrest)] Hb Hne.
    unfold estimate_overlap_pair in Hb.
    change (has_overlap (set_overlap_info_field s l) i) with (has_overlap s i) in Hb.
    destruct (has_overlap s i) eqn:Hc; cbn [negb] in Hb; inversion Hb; subst;
      [congruence|].
    repeat split. exists l. auto. }
  assert (Hinit : 0 <= 0 /\ overlap_loop_inv s 0 s).
  { split; [lia|]. exists (_overlap_info s).
    rewrite set_overlap_info_field_same. repeat split; auto; intros; lia. }
  destruct (for_cameras_inv_idx
              (fun i st => 0 <= i /\ overlap_loop_inv s i st)
              (fun k r st => r = XCAM_RETURN_ERROR_UNKNOWN
                             /\ has_overlap s k = false
                             /\ overlap_loop_inv s k st)
              estimate_overlap_pair Hstep Hexit _ _ _ _ _ Hinit Hrun)
    as [[-> [_ H]]|[_ (k & Hk & -> & Hf & H)]].
  - left. split; [reflexivity|]. replace (0 + Z.of_nat (Z.to_nat (_camera_num s)))
      with (Z.of_nat (Z.to_nat (_camera_num s))) in H by lia. exact H.
  - right. split; [reflexivity|]. exists k. split; [lia|]. auto.
Qed.

(** [(int32_t) merge_width] is the distance of the two centers, wherever
    that is an [int32_t]. *)
Lemma merge_width_signed (s : Stitcher) (idx : Z) :
  -2147483648 <= center_distance s idx <= INT32_MAX ->
  int32_t (merge_width s idx) = center_distance s idx.
Proof.
  unfold merge_width, center_distance, INT32_MAX. intros H. unwrap32. lia.
Qed.

(** The test of [estimate_overlap] makes the overlap width positive. *)
Lemma overlap_width_pos (s : Stitcher) (idx : Z) :
  has_overlap s idx = true ->
  0 < overlap_width s idx
  /\ overlap_width s idx
     = int32_t (width (valid_left_img s idx)
                + width (valid_right_img s (next_index s idx)))
       - int32_t (merge_width s idx).
Proof.
  unfold has_overlap, overlap_width. intros H. apply Z.gtb_lt in H.
  set (vl := width (valid_left_img s idx)) in *.
  set (vr := width (valid_right_img s (next_index s idx))) in *.
  set (mw := merge_width s idx) in *. clearbody vl vr mw.
  unwrap32. lia.
Qed.

(** What [estimate_overlap] computes for the pair that starts at camera
    [idx], in terms of the quantities of the specification: the widths of
    the two valid bands and [merge_width] are their conversions to
    [int32_t] and [uint32_t]. *)
Lemma overlap_quantities_spec (s : Stitcher) (idx : Z) :
  0 <= idx < _camera_num s -> _camera_num s < 4294967296 ->
  has_overlap s idx
  = (int32_t (int32_t (valid_left_width_spec s idx)
              + int32_t (valid_right_width_spec s idx))
     >? int32_t (merge_width_spec s idx))
  /\ overlap_width s idx
     = uint32_t (int32_t (valid_left_width_spec s idx)
                 + int32_t (valid_right_width_spec s idx)
                 - merge_width_spec s idx).
Proof.
  intros Hidx Hn.
  assert (Hnext : next_index s idx = ring_next_spec s idx)
    by (unfold next_index, ring_next_spec; rewrite uint32_t_id by lia;
        reflexivity).
  assert (Hvl : width (valid_left_img s idx)
                = int32_t (valid_left_width_spec s idx)).
  { unfold valid_left_img, valid_left_width_spec. cbn [width].
    unwrap32. lia. }
  assert (Hvr : width (valid_right_img s (next_index s idx))
                = int32_t (valid_right_width_spec s idx))
    by (rewrite Hnext; reflexivity).
  assert (Hmw : merge_width s idx = uint32_t (merge_width_spec s idx)).
  { unfold merge_width, merge_width_spec, right_center_spec,
      out_right_center_x. rewrite Hnext. reflexivity. }
  unfold has_overlap, overlap_width. rewrite Hvl, Hvr, Hmw.
  set (vl := int32_t (valid_left_width_spec s idx)).
  set (vr := int32_t (valid_right_width_spec s idx)).
  set (mw := merge_width_spec s idx). clearbody vl vr mw.
  split.
  - f_equal. unwrap32. lia.
  - unwrap32. lia.
Qed.

(** C5.  The quantities are those of the specification, written out as
    integers: the valid width of the left camera is its slice width minus
    the right crop minus its center column, that of the right neighbour
    [(idx + 1) mod _camera_num] is its center column minus its left crop,
    and [merge_width] is the output center of the right neighbour, a
    center of 0 treated as [_output_width], minus the output center of the
    left camera.  When the stage runs (overlap not yet set, crops and
    centers set), [estimate_overlap] fails with the unknown error exactly
    when for some ring-adjacent pair the sum of the two valid widths is
    not greater than [merge_width]: in the [int32_t] comparison of the
    code always, and as integers whenever the two widths, their sum and
    [merge_width] are values of [int32_t].  It returns no other error.
    When it succeeds, for every pair the [overlap_width] of the code is
    the sum of the valid widths minus [merge_width] taken as a
    [uint32_t], it is positive, and the three stored rectangles have it as
    their width: the [int32_t] fields hold [(int32_t) overlap_width],
    which read back as [uint32_t] is [overlap_width], and is
    [overlap_width] itself up to [INT32_MAX]; for representable
    quantities it is the integer [overlap_width] of the specification. *)
Theorem estimate_overlap_correct (s : Stitcher) :
  _is_overlap_set s = false ->
  _is_crop_set s = true ->
  _is_center_marked s = true ->
  0 <= _camera_num s <= Z.of_nat (length (_overlap_info s)) ->
  _camera_num s < 4294967296 ->
  let r := estimate_overlap s in
  let vl := valid_left_width_spec s in
  let vr := valid_right_width_spec s in
  let mw := merge_width_spec s in
  (r.1 = XCAM_RETURN_ERROR_UNKNOWN <->
     exists idx, 0 <= idx < _camera_num s
                 /\ ~ (int32_t (int32_t (vl idx) + int32_t (vr idx))
                       > int32_t (mw idx)))
  /\ ((forall idx, 0 <= idx < _camera_num s -> overlap_representable s idx) ->
      (r.1 = XCAM_RETURN_ERROR_UNKNOWN <->
         exists idx, 0 <= idx < _camera_num s
                     /\ ~ (vl idx + vr idx > mw idx)))
  /\ (r.1 = XCAM_RETURN_NO_ERROR \/ r.1 = XCAM_RETURN_ERROR_UNKNOWN)
  /\ (r.1 = XCAM_RETURN_NO_ERROR ->
      _is_overlap_set r.2 = true
      /\ forall idx, 0 <= idx < _camera_num s ->
           let ov := _overlap_info r.2 !!! Z.to_nat idx in
           let ow := overlap_width s idx in
           ow = uint32_t (int32_t (vl idx) + int32_t (vr idx) - mw idx)
           /\ 0 < ow
           /\ width (ov_left ov) = int32_t ow
           /\ width (ov_right ov) = int32_t ow
           /\ width (ov_out_area ov) = int32_t ow
           /\ uint32_t (width (ov_left ov)) = ow
           /\ uint32_t (width (ov_right ov)) = ow
           /\ uint32_t (width (ov_out_area ov)) = ow
           /\ (ow <= INT32_MAX ->
               width (ov_left ov) = ow
               /\ width (ov_right ov) = ow
               /\ width (ov_out_area ov) = ow)
           /\ (overlap_representable s idx ->
               ow = overlap_width_spec s idx
               /\ 0 < overlap_width_spec s idx
               /\ (overlap_width_spec s idx <= INT32_MAX \/ 0 <= mw idx ->
                   width (ov_left ov) = overlap_width_spec s idx
                   /\ width (ov_right ov) = overlap_width_spec s idx
                   /\ width (ov_out_area ov) = overlap_width_spec s idx))).
Proof.
  intros Hov Hcrop Hcen Hfit Hnum r vl vr mw. subst vl vr mw.
  assert (Hr : r = match for_cameras estimate_overlap_pair
                           (Z.to_nat (_camera_num s)) 0 s with
                   | (XCAM_RETURN_NO_ERROR, s') =>
                       (XCAM_RETURN_NO_ERROR, set_is_overlap_set s' true)
                   | failed => failed
                   end).
  { subst r. unfold estimate_overlap. rewrite Hov, Hcrop, Hcen. reflexivity. }
  destruct (for_cameras _ _ _ _) as [r1 s1] eqn:Hrun.
  assert (Hchar :
    (exists idx, 0 <= idx < _camera_num s /\ has_overlap s idx = false)
    <-> r.1 = XCAM_RETURN_ERROR_UNKNOWN).
  { destruct (estimate_overlap_loop _ _ _ Hrun)
      as [[-> (l & -> & _ & Hchk & _)]|[-> (k & Hk & Hf & _)]]; rewrite Hr; cbn.
    - split; [|discriminate]. intros (idx & Hidx & Hf).
      rewrite Hchk in Hf by lia. discriminate.
    - split; [reflexivity|]. intros _. exists k. split; [lia|exact Hf]. }
  assert (Hcmp : forall idx, 0 <= idx < _camera_num s ->
    (has_overlap s idx = false
     <-> ~ (int32_t (int32_t (valid_left_width_spec s idx)
                     + int32_t (valid_right_width_spec s idx))
            > int32_t (merge_width_spec s idx)))).
  { intros idx Hidx.
    destruct (overlap_quantities_spec s idx Hidx Hnum) as [-> _].
    rewrite Z.gtb_ltb, Z.ltb_ge. lia. }
  assert (Hrepr : forall idx, overlap_representable s idx ->
    int32_t (int32_t (valid_left_width_spec s idx)
             + int32_t (valid_right_width_spec s idx))
    = valid_left_width_spec s idx + valid_right_width_spec s idx
    /\ int32_t (valid_left_width_spec s idx) = valid_left_width_spec s idx
    /\ int32_t (valid_right_width_spec s idx) = valid_right_width_spec s idx
    /\ int32_t (merge_width_spec s idx) = merge_width_spec s idx).
  { intros idx (H1 & H2 & H3 & H4).
    rewrite (int32_t_id _ H1), (int32_t_id _ H2), (int32_t_id _ H3),
      (int32_t_id _ H4). auto. }
  split; [|split; [|split]].
  - rewrite <- Hchar. split; intros (idx & Hidx & H); exists idx;
      (split; [exact Hidx|apply (Hcmp idx Hidx); exact H]).
  - intros Hrep. rewrite <- Hchar.
    split; intros (idx & Hidx & H); exists idx; (split; [exact Hidx|]);
      destruct (Hrepr idx (Hrep idx Hidx)) as (E & _ & _ & Em);
      pose proof (Hcmp idx Hidx) as Hc; rewrite E, Em in Hc; apply Hc; exact H.
  - destruct (estimate_overlap_loop _ _ _ Hrun) as [[-> _]|[-> _]];
      rewrite Hr; cbn; auto.
  - intros Hok.
    destruct (estimate_overlap_loop _ _ _ Hrun)
      as [[-> (l & -> & Hl & Hchk & Hset & _)]|[-> _]];
      [|rewrite Hr in Hok; discriminate Hok].
    rewrite Hr. cbn [fst snd _is_overlap_set _overlap_info set_is_overlap_set
                     set_overlap_info_field].
    split; [reflexivity|]. intros idx Hidx.
    assert (Hl' : l !! Z.to_nat idx = Some (overlap_of_pair s idx))
      by (apply Hset; lia).
    rewrite (list_lookup_total_correct _ _ _ Hl').
    assert (Hpass : has_overlap s idx = true) by (apply Hchk; lia).
    destruct (overlap_width_pos s idx Hpass) as [Hpos _].
    destruct (overlap_quantities_spec s idx Hidx Hnum) as [Htest Hform].
    cbv zeta. unfold overlap_of_pair. cbn [ov_left ov_right ov_out_area width].
    assert (Hback : uint32_t (int32_t (overlap_width s idx))
                    = overlap_width s idx).
    { rewrite Hform. unwrap32. lia. }
    split; [exact Hform|]. split; [exact Hpos|].
    do 3 (split; [reflexivity|]). do 3 (split; [exact Hback|]).
    split.
    + intros Hmax. rewrite int32_t_id by lia. auto.
    + intros Hrep. destruct (Hrepr idx Hrep) as (E & El & Er & Em).
      rewrite Htest, E, Em in Hpass. apply Z.gtb_lt in Hpass.
      destruct Hrep as (H1 & H2 & H3 & H4).
      unfold no_overflow, INT32_MAX in *.
      assert (Hspec : overlap_width s idx = overlap_width_spec s idx).
      { rewrite Hform, El, Er. unfold overlap_width_spec.
        apply uint32_t_id. lia. }
      split; [exact Hspec|]. split; [unfold overlap_width_spec; lia|].
      intros Hsmall. rewrite Hspec.
      rewrite int32_t_id
        by (unfold INT32_MAX, overlap_width_spec in *; lia).
      auto.
Qed.

Lemma estimate_overlap_correct_witness :
  (estimate_overlap four_cameras_marked).1 = XCAM_RETURN_NO_ERROR
  /\ out_center_x (_center_marks four_cameras_marked !!! 2%nat) = 0
  /\ merge_width_spec four_cameras_marked 1 = 3600 - 2700
  /\ forall idx, 0 <= idx < 4 ->
       overlap_width four_cameras_marked idx
       = overlap_width_spec four_cameras_marked idx
       /\ 0 < overlap_width_spec four_cameras_marked idx
       /\ width (ov_out_area
                   (_overlap_info (estimate_overlap four_cameras_marked).2
                    !!! Z.to_nat idx))
          = overlap_width_spec four_cameras_marked idx.
Proof.
  pose proof (estimate_overlap_correct four_cameras_marked
                ltac:(reflexivity) ltac:(reflexivity) ltac:(reflexivity)
                ltac:(vm_compute; split; discriminate)
                ltac:(reflexivity)) as H.
  cbv zeta in H. destruct H as (_ & _ & _ & H).
  split; [reflexivity|]. split; [reflexivity|]. split; [reflexivity|].
  intros idx Hidx.
  destruct (H ltac:(reflexivity)) as [_ H'].
  destruct (H' idx Hidx) as (_ & _ & _ & _ & _ & _ & _ & _ & _ & H10).
  assert (Hrep : overlap_representable four_cameras_marked idx).
  { assert (Hcases : idx = 0 \/ idx = 1 \/ idx = 2 \/ idx = 3) by lia.
    destruct Hcases as [->|[->|[->| ->]]];
      vm_compute; repeat split; discriminate. }
  destruct (H10 Hrep) as (E & Hpos & Hw).
  split; [exact E|]. split; [exact Hpos|].
  assert (Hsmall : overlap_width_spec four_cameras_marked idx <= INT32_MAX
                   \/ 0 <= merge_width_spec four_cameras_marked idx).
  { left. assert (Hcases : idx = 0 \/ idx = 1 \/ idx = 2 \/ idx = 3) by lia.
    destruct Hcases as [->|[->|[->| ->]]]; vm_compute; discriminate. }
  destruct (Hw Hsmall) as (_ & _ & H3). exact H3.
Defined.

(** ** The merge pass *)

(** The loop over indices and the recursion over the candidates agree, as
    long as the indices fit [int32_t] and the fuel covers the candidates
    that are left. *)
Lemma merge_areas_merge_list (fuel : nat) (tmp_areas : CopyAreaArray)
    (end_ i : Z) (merged : CopyArea) (copy_areas : CopyAreaArray) :
  0 <= i <= end_ + 1 ->
  end_ + 1 <= Z.of_nat (length tmp_areas) ->
  end_ + 1 <= INT32_MAX ->
  (Z.to_nat (end_ + 1 - i) <= fuel)%nat ->
  merge_areas fuel tmp_areas end_ i merged copy_areas
  = copy_areas
    ++ merge_list (drop (Z.to_nat i) (take (Z.to_nat (end_ + 1)) tmp_areas))
         merged.
Proof.
  unfold INT32_MAX. revert i merged copy_areas.
  induction fuel as [|fuel IH]; intros i merged copy_areas Hi Hlen Hmax Hfuel.
  - cbn [merge_areas]. rewrite drop_ge; [cbn; rewrite app_nil_r; reflexivity|].
    rewrite length_take. lia.
  - cbn [merge_areas]. rewrite (int32_t_id i) by (unfold INT32_MAX; lia).
    destruct (i <=? end_) eqn:Hle.
    + apply Z.leb_le in Hle.
      rewrite (uint32_t_id end_) by lia.
      assert (Hcur : take (Z.to_nat (end_ + 1)) tmp_areas !! Z.to_nat i
                     = Some (tmp_areas !!! Z.to_nat i)).
      { rewrite lookup_take_lt by lia.
        apply list_lookup_lookup_total_lt. lia. }
      rewrite (drop_S _ _ _ Hcur).
      destruct (i =? end_) eqn:Hend.
      * apply Z.eqb_eq in Hend. subst i.
        rewrite drop_ge by (rewrite length_take; lia). reflexivity.
      * apply Z.eqb_neq in Hend.
        rewrite (uint32_t_id (i + 1)) by lia.
        assert (Hnext : take (Z.to_nat (end_ + 1)) tmp_areas !! S (Z.to_nat i)
                        = Some (tmp_areas !!! Z.to_nat (i + 1))).
        { rewrite lookup_take_lt by lia.
          replace (S (Z.to_nat i)) with (Z.to_nat (i + 1)) by lia.
          apply list_lookup_lookup_total_lt. lia. }
        rewrite (drop_S _ _ _ Hnext). cbn [merge_list].
        destruct (merge_neighbor_area _ _ merged) as [[|] m].
        -- rewrite (uint32_t_id (i + 2)) by lia.
           rewrite IH by lia. rewrite <- app_assoc. cbn [app].
           replace (Z.to_nat (i + 2)) with (S (S (Z.to_nat i))) by lia.
           reflexivity.
        -- rewrite IH by lia. rewrite <- app_assoc. cbn [app].
           replace (Z.to_nat (i + 1)) with (S (Z.to_nat i)) by lia.
           rewrite (drop_S _ _ _ Hnext).
           replace (Z.to_nat (i + 1)) with (S (Z.to_nat i)) by lia.
           reflexivity.
    + apply Z.leb_gt in Hle.
      rewrite drop_ge by (rewrite length_take; lia).
      cbn. rewrite app_nil_r. reflexivity.
Qed.

(** The whole merging part of [update_copy_areas] on the candidates. *)
Lemma merge_tmp_areas_merge_list (tmp_areas : CopyAreaArray) :
  Z.of_nat (length tmp_areas) <= INT32_MAX ->
  merge_tmp_areas tmp_areas []
  = if 2 <? Z.of_nat (length tmp_areas) then
      match merge_neighbor_area
              (tmp_areas !!! (length tmp_areas - 1)%nat)
              (tmp_areas !!! 0%nat) inhabitant with
      | (true, merged) => merged :: merge_list (middle_areas tmp_areas) merged
      | (false, merged) => merge_list tmp_areas merged
      end
    else merge_list tmp_areas inhabitant.
Proof.
  unfold INT32_MAX. intros Hmax. unfold merge_tmp_areas, middle_areas.
  rewrite (int32_t_id (Z.of_nat (length tmp_areas) - 1))
    by (unfold INT32_MAX; lia).
  replace (Z.to_nat (Z.of_nat (length tmp_areas) - 1))
    with (length tmp_areas - 1)%nat by lia.
  assert (Hall : forall m,
    merge_areas (length tmp_areas) tmp_areas
      (Z.of_nat (length tmp_areas) - 1) (uint32_t 0) m []
    = merge_list tmp_areas m).
  { intros m. rewrite (uint32_t_id 0) by lia.
    rewrite merge_areas_merge_list by (unfold INT32_MAX; lia).
    cbn [app]. rewrite take_ge by lia. reflexivity. }
  destruct (2 <? Z.of_nat (length tmp_areas)) eqn:Hlen; [|apply Hall].
  apply Z.ltb_lt in Hlen.
  destruct (merge_neighbor_area _ _ _) as [[|] m]; [|apply Hall].
  rewrite (int32_t_id (0 + 1)) by (unfold INT32_MAX; lia).
  rewrite (int32_t_id (Z.of_nat (length tmp_areas) - 1 - 1))
    by (unfold INT32_MAX; lia).
  rewrite (uint32_t_id (0 + 1)) by lia.
  rewrite merge_areas_merge_list by (unfold INT32_MAX; lia).
  cbn [app].
  replace (Z.to_nat (Z.of_nat (length tmp_areas) - 1 - 1 + 1))
    with (length tmp_areas - 1)%nat by lia.
  reflexivity.
Qed.

Lemma merge_list_step (current next : CopyArea) (rest : CopyAreaArray)
    (merged : CopyArea) :
  merge_list (current :: next :: rest) merged
  = match merge_neighbor_area current next merged with
    | (true, m) => m :: merge_list rest m
    | (false, m) => current :: merge_list (next :: rest) m
    end.
Proof. reflexivity. Qed.

(** Every element that the pass emits stands for at most two candidates. *)
Lemma merge_list_length (l : CopyAreaArray) (merged : CopyArea) :
  (length l <= 2 * length (merge_list l merged))%nat.
Proof.
  remember (length l) as n eqn:Hn. revert l merged Hn.
  induction n as [n IH] using lt_wf_ind. intros l merged Hn.
  destruct l as [|current [|next rest]]; cbn [length] in Hn;
    [cbn; lia|cbn; lia|].
  rewrite merge_list_step.
  destruct (merge_neighbor_area current next merged) as [[|] m];
    cbn [length].
  - assert (Hlt : (length rest < n)%nat) by lia.
    specialize (IH (length rest) Hlt rest m eq_refl). lia.
  - assert (Hlt : (length (next :: rest) < n)%nat) by (cbn [length]; lia).
    specialize (IH (length (next :: rest)) Hlt (next :: rest) m eq_refl).
    cbn [length] in IH. lia.
Qed.

Lemma push_split_length (area : CopyArea) (round_width : Z)
    (tmp_areas : CopyAreaArray) (a b : CopyArea) :
  let tmp' := (push_split area round_width (tmp_areas, a, b)).1.1 in
  (length tmp_areas + 1 <= length tmp' <= length tmp_areas + 2)%nat.
Proof.
  unfold push_split.
  destruct (split_area_by_out area round_width a b) as [[[|] a'] b'];
    cbn [fst]; rewrite length_app; cbn [length]; lia.
Qed.

(** The first loop of [update_copy_areas] pushes two to four candidates
    per camera. *)
Lemma update_copy_areas_camera_length (s : Stitcher) (i : Z)
    (tmp_areas : CopyAreaArray) :
  let tmp' := (update_copy_areas_camera s i tmp_areas).2 in
  (length tmp_areas + 2 <= length tmp' <= length tmp_areas + 4)%nat.
Proof.
  unfold update_copy_areas_camera. cbn [snd].
  pose proof (push_split_length (left_copy_area s i) (_output_width s)
                tmp_areas inhabitant inhabitant) as H1.
  destruct (push_split (left_copy_area s i) _ _) as [[tmp1 a1] b1].
  pose proof (push_split_length (right_copy_area s i) (_output_width s)
                tmp1 a1 b1) as H2.
  cbn [fst] in *. lia.
Qed.

Lemma tmp_areas_length (s : Stitcher) (n : nat) :
  let tmp := (for_cameras (update_copy_areas_camera s) n 0 []).2 in
  (2 * n <= length tmp <= 4 * n)%nat.
Proof.
  destruct (for_cameras (update_copy_areas_camera s) n 0 []) as [r tmp] eqn:Hrun.
  cbn [snd].
  destruct (for_cameras_inv_idx
              (fun i (tmp : CopyAreaArray) =>
                 2 * i <= Z.of_nat (length tmp) <= 4 * i)
              (fun _ _ _ => False) (update_copy_areas_camera s)) with
    (n := n) (i := 0) (st := @nil CopyArea) (r := r) (st' := tmp)
    as [[_ H]|[_ (k & _ & [])]].
  - intros i st st' HP Hb.
    pose proof (update_copy_areas_camera_length s i st) as Hl.
    rewrite Hb in Hl. cbn [snd] in Hl. lia.
  - intros i st r0 st' _ Hb Hne. unfold update_copy_areas_camera in Hb.
    inversion Hb. congruence.
  - cbn. lia.
  - exact Hrun.
  - lia.
Qed.

(** ** The number of copy areas *)

(** One call of [update_copy_areas] makes at least one copy area per
    camera. *)
Lemma fresh_copy_areas_length (s : Stitcher) :
  4 * _camera_num s <= INT32_MAX ->
  _camera_num s <= Z.of_nat (length (fresh_copy_areas s)).
Proof.
  unfold INT32_MAX. intros Hmax.
  pose proof (tmp_areas_length s (Z.to_nat (_camera_num s))) as Hlen.
  cbv zeta in Hlen. unfold fresh_copy_areas. fold (tmp_areas_of s) in Hlen.
  set (tmp := tmp_areas_of s) in *.
  rewrite merge_tmp_areas_merge_list by (unfold INT32_MAX; lia).
  destruct (2 <? Z.of_nat (length tmp)) eqn:Hlen2.
  - apply Z.ltb_lt in Hlen2. destruct (merge_neighbor_area _ _ _) as [[|] m].
    + pose proof (merge_list_length (middle_areas tmp) m) as H.
      assert (Hmid : length (middle_areas tmp) = (length tmp - 2)%nat)
        by (unfold middle_areas; rewrite length_drop, length_take; lia).
      cbn [length]. lia.
    + pose proof (merge_list_length tmp m). lia.
  - pose proof (merge_list_length tmp inhabitant). lia.
Qed.

(** C2.  Whenever [update_copy_areas] returns success, which needs more
    than one camera, the copy-area list holds at least [_camera_num]
    entries.  The candidates, at most four per camera, are indexed by
    [int32_t] in the merge loop; [_camera_num] is at most
    [XCAM_STITCH_MAX_CAMERAS], far below that range. *)
Theorem copy_area_count (s s' : Stitcher) :
  update_copy_areas s = (XCAM_RETURN_NO_ERROR, s') ->
  4 * _camera_num s <= INT32_MAX ->
  1 < _camera_num s
  /\ _camera_num s <= Z.of_nat (length (_copy_areas s')).
Proof.
  intros Hrun Hmax. rewrite update_copy_areas_unfold in Hrun.
  destruct (1 <? _camera_num s) eqn:Hnum; [|discriminate Hrun].
  apply Z.ltb_lt in Hnum. split; [exact Hnum|].
  destruct (negb _); inversion Hrun; subst; clear Hrun.
  cbn [_copy_areas set_copy_areas]. rewrite length_app.
  pose proof (fresh_copy_areas_length s Hmax). lia.
Qed.

Lemma copy_area_count_witness :
  1 < _camera_num four_cameras_overlapped
  /\ _camera_num four_cameras_overlapped
     <= Z.of_nat (length (_copy_areas four_cameras_done)).
Proof.
  apply (copy_area_count four_cameras_overlapped four_cameras_done).
  - reflexivity.
  - vm_compute. discriminate.
Defined.

(** ** Center marking *)

Lemma mark_centers_loop (format_angle : spec_float -> spec_float)
    (XCAM_ALIGN_AROUND : Z -> Z -> Z) (s : Stitcher) (r : XCamReturn)
    (s' : Stitcher) :
  for_cameras (mark_centers_camera format_angle XCAM_ALIGN_AROUND)
    (Z.to_nat (_camera_num s)) 0 s = (r, s') ->
  (r = XCAM_RETURN_NO_ERROR
   /\ center_loop_inv format_angle XCAM_ALIGN_AROUND s
        (Z.of_nat (Z.to_nat (_camera_num s))) s')
  \/ (r = XCAM_RETURN_ERROR_PARAM
      /\ exists k, 0 <= k < Z.of_nat (Z.to_nat (_camera_num s))
                   /\ center_loop_inv format_angle XCAM_ALIGN_AROUND s k s').
Proof.
  intros Hrun.
  set (body := mark_centers_camera format_angle XCAM_ALIGN_AROUND) in *.
  set (inv := center_loop_inv format_angle XCAM_ALIGN_AROUND s).
  assert (Hbody : forall i l,
    body i (set_center_marks s l)
    = if negb (f32_lt (mark_center_in_slice format_angle XCAM_ALIGN_AROUND s i)
                 (hori_angle_range
                    (slice_view (_camera_info s !!! Z.to_nat i))))
      then (XCAM_RETURN_ERROR_PARAM, set_center_marks s l)
      else (XCAM_RETURN_NO_ERROR,
            set_center_marks s
              (<[Z.to_nat i :=
                   mkCenterMark
                     (mark_slice_pos format_angle XCAM_ALIGN_AROUND s i)
                     (mark_out_pos_snapped format_angle s i)]> l)))
    by reflexivity.
  assert (Hstep : forall i st st',
    0 <= i /\ inv i st -> body i st = (XCAM_RETURN_NO_ERROR, st') ->
    0 <= i + 1 /\ inv (i + 1) st').
  { intros i st st' [Hi (l & -> & Hl & Hset & Hrest)] Hb. rewrite Hbody in Hb.
    destruct (negb _); inversion Hb; subst.
    split; [lia|]. eexists. split; [reflexivity|].
    rewrite length_insert. split; [exact Hl|]. split.
    + intros k Hk Hlen. destruct (decide (k = i)) as [->|Hne].
      * apply list_lookup_insert_eq. lia.
      * rewrite list_lookup_insert_ne by lia. apply Hset; [lia|exact Hlen].
    + intros j Hj. rewrite list_lookup_insert_ne by lia. apply Hrest. lia. }
  assert (Hexit : forall i st r0 st',
    0 <= i /\ inv i st -> body i st = (r0, st') ->
    r0 <> XCAM_RETURN_NO_ERROR ->
    r0 = XCAM_RETURN_ERROR_PARAM /\ inv i st').
  { intros i st r0 st' [Hi (l & -> & Hl & Hset & Hrest)] Hb Hne.
    rewrite Hbody in Hb. destruct (negb _); inversion Hb; subst;
      [|congruence].
    split; [reflexivity|]. exists l. auto. }
  assert (Hinit : 0 <= 0 /\ inv 0 s).
  { split; [lia|]. exists (_center_marks s).
    rewrite set_center_marks_same. repeat split; auto; intros; lia. }
  destruct (for_cameras_inv_idx
              (fun i st => 0 <= i /\ inv i st)
              (fun k r st => r = XCAM_RETURN_ERROR_PARAM /\ inv k st)
              body Hstep Hexit _ _ _ _ _ Hinit Hrun)
    as [[-> [_ H]]|[_ (k & Hk & -> & H)]].
  - left. split; [reflexivity|]. replace (0 + Z.of_nat (Z.to_nat (_camera_num s)))
      with (Z.of_nat (Z.to_nat (_camera_num s))) in H by lia. exact H.
  - right. split; [reflexivity|]. exists k. split; [lia|]. exact H.
Qed.

(** ** Failing stages *)

(** The loop of [mark_centers] leaves at the first camera that fails the
    field-of-view test, with the marks of the cameras before it stored. *)
Lemma mark_centers_first_failure (format_angle : spec_float -> spec_float)
    (XCAM_ALIGN_AROUND : Z -> Z -> Z) (s : Stitcher) (r : XCamReturn)
    (s' : Stitcher) :
  for_cameras (mark_centers_camera format_angle XCAM_ALIGN_AROUND)
    (Z.to_nat (_camera_num s)) 0 s = (r, s') ->
  r <> XCAM_RETURN_NO_ERROR ->
  r = XCAM_RETURN_ERROR_PARAM
  /\ exists k, 0 <= k < _camera_num s
       /\ center_in_slice_range format_angle XCAM_ALIGN_AROUND s k = false
       /\ (forall j, 0 <= j < k ->
             center_in_slice_range format_angle XCAM_ALIGN_AROUND s j = true)
       /\ center_loop_inv format_angle XCAM_ALIGN_AROUND s k s'.
Proof.
  intros Hrun Hne.
  set (body := mark_centers_camera format_angle XCAM_ALIGN_AROUND) in *.
  set (inv := center_loop_inv format_angle XCAM_ALIGN_AROUND s).
  set (passes := fun j =>
    center_in_slice_range format_angle XCAM_ALIGN_AROUND s j = true).
  assert (Hbody : forall i l,
    body i (set_center_marks s l)
    = if negb (center_in_slice_range format_angle XCAM_ALIGN_AROUND s i)
      then (XCAM_RETURN_ERROR_PARAM, set_center_marks s l)
      else (XCAM_RETURN_NO_ERROR,
            set_center_marks s
              (<[Z.to_nat i :=
                   mkCenterMark
                     (mark_slice_pos format_angle XCAM_ALIGN_AROUND s i)
                     (mark_out_pos_snapped format_angle s i)]> l)))
    by reflexivity.
  set (P := fun i st =>
    0 <= i /\ inv i st /\ forall j, 0 <= j < i -> passes j).
  assert (Hstep : forall i st st',
    P i st -> body i st = (XCAM_RETURN_NO_ERROR, st') -> P (i + 1) st').
  { intros i st st' (Hi & (l & -> & Hl & Hset & Hrest) & Hall) Hb.
    rewrite Hbody in Hb.
    destruct (center_in_slice_range _ _ s i) eqn:Hc; cbn [negb] in Hb;
      inversion Hb; subst st'.
    split; [lia|]. split.
    - eexists. split; [reflexivity|].
      rewrite length_insert. split; [exact Hl|]. split.
      + intros k Hk Hlen. destruct (decide (k = i)) as [->|Hneq].
        * apply list_lookup_insert_eq. lia.
        * rewrite list_lookup_insert_ne by lia. apply Hset; [lia|exact Hlen].
      + intros j Hj. rewrite list_lookup_insert_ne by lia. apply Hrest. lia.
    - intros j Hj. destruct (decide (j = i)) as [->|]; [exact Hc|].
      apply Hall. lia. }
  assert (Hexit : forall i st r0 st',
    P i st -> body i st = (r0, st') -> r0 <> XCAM_RETURN_NO_ERROR ->
    r0 = XCAM_RETURN_ERROR_PARAM
    /\ center_in_slice_range format_angle XCAM_ALIGN_AROUND s i = false
    /\ (forall j, 0 <= j < i -> passes j) /\ inv i st').
  { intros i st r0 st' (Hi & (l & -> & Hl & Hset & Hrest) & Hall) Hb Hne0.
    rewrite Hbody in Hb.
    destruct (center_in_slice_range _ _ s i) eqn:Hc; cbn [negb] in Hb;
      inversion Hb; subst; [congruence|].
    split; [reflexivity|]. split; [reflexivity|]. split; [exact Hall|].
    exists l. auto. }
  assert (Hinit : P 0 s).
  { split; [lia|]. split; [|intros; lia]. exists (_center_marks s).
    rewrite set_center_marks_same. repeat split; auto; intros; lia. }
  destruct (for_cameras_inv_idx P
              (fun k r st =>
                 r = XCAM_RETURN_ERROR_PARAM
                 /\ center_in_slice_range format_angle XCAM_ALIGN_AROUND s k
                    = false
                 /\ (forall j, 0 <= j < k -> passes j) /\ inv k st)
              body Hstep Hexit _ _ _ _ _ Hinit Hrun)
    as [[-> _]|[_ (k & Hk & -> & Hfail & Hall & Hinv)]]; [congruence|].
  split; [reflexivity|]. exists k. split; [lia|]. auto.
Qed.

(** C7, as the code has it.  A stage that returns an error leaves its
    completion flag unset and writes nothing but its own output array.
    [estimate_coarse_crops] never fails; [update_copy_areas] and every
    ordering error leave the whole state as it was.  [mark_centers] and
    [estimate_overlap] leave their loop at the first camera (pair) [k]
    that fails their test: [k] is a configured camera, it fails the test
    and every camera before it passes; the entries of the output array
    from [k] on are what they were, the entries below [k] hold the values
    just computed for their cameras, and nothing else has changed. *)
Theorem failed_stage_effect (format_angle : spec_float -> spec_float)
    (XCAM_ALIGN_AROUND : Z -> Z -> Z) (s : Stitcher) (r : XCamReturn)
    (s' : Stitcher) :
  r <> XCAM_RETURN_NO_ERROR ->
  estimate_coarse_crops s <> (r, s')
  /\ (mark_centers format_angle XCAM_ALIGN_AROUND s = (r, s') ->
      _is_center_marked s' = false
      /\ (r = XCAM_RETURN_ERROR_ORDER -> s' = s)
      /\ (r = XCAM_RETURN_ERROR_ORDER
          \/ r = XCAM_RETURN_ERROR_PARAM
             /\ exists k, 0 <= k < _camera_num s
                  /\ center_in_slice_range format_angle XCAM_ALIGN_AROUND s k
                     = false
                  /\ (forall j, 0 <= j < k ->
                        center_in_slice_range format_angle XCAM_ALIGN_AROUND
                          s j = true)
                  /\ center_loop_inv format_angle XCAM_ALIGN_AROUND s k s'
                  /\ s' = set_center_marks s (_center_marks s')
                  /\ (forall j, 0 <= j < k ->
                        (Z.to_nat j < length (_center_marks s))%nat ->
                        _center_marks s' !! Z.to_nat j
                        = Some (mkCenterMark
                                  (mark_slice_pos format_angle
                                     XCAM_ALIGN_AROUND s j)
                                  (mark_out_pos_snapped format_angle s j)))
                  /\ (forall j : nat, k <= Z.of_nat j ->
                        _center_marks s' !! j = _center_marks s !! j)))
  /\ (estimate_overlap s = (r, s') ->
      _is_overlap_set s' = false
      /\ (r = XCAM_RETURN_ERROR_ORDER -> s' = s)
      /\ (r = XCAM_RETURN_ERROR_ORDER
          \/ r = XCAM_RETURN_ERROR_UNKNOWN
             /\ exists k, 0 <= k < _camera_num s
                  /\ has_overlap s k = false
                  /\ (forall j, 0 <= j < k -> has_overlap s j = true)
                  /\ overlap_loop_inv s k s'
                  /\ s' = set_overlap_info_field s (_overlap_info s')
                  /\ (forall j, 0 <= j < k ->
                        (Z.to_nat j < length (_overlap_info s))%nat ->
                        _overlap_info s' !! Z.to_nat j
                        = Some (overlap_of_pair s j))
                  /\ (forall j : nat, k <= Z.of_nat j ->
                        _overlap_info s' !! j = _overlap_info s !! j)))
  /\ (update_copy_areas s = (r, s') -> s' = s).
Proof.
  intros Hne. split; [|split; [|split]].
  - destruct (estimate_coarse_crops_frame s) as (l & -> & _). congruence.
  - unfold mark_centers. destruct (_is_center_marked s) eqn:Hflag;
      [intros H; inversion H; congruence|].
    destruct (0 <? _camera_num s); cbn [negb].
    + destruct (for_cameras _ _ _ _) as [r1 s1] eqn:Hrun.
      destruct r1; intros H; inversion H; subst; try congruence;
        destruct (mark_centers_first_failure _ _ _ _ _ Hrun Hne)
          as (Hr & k & Hk & Hfail & Hall & Hinv);
        try discriminate Hr.
      pose proof Hinv as (l & -> & Hl & Hset & Hrest).
      split; [exact Hflag|]. split; [discriminate|]. right.
      split; [reflexivity|]. exists k. split; [exact Hk|].
      split; [exact Hfail|]. split; [exact Hall|]. split; [exact Hinv|].
      cbn [_center_marks set_center_marks]. auto.
    + intros H; inversion H; subst. split; [exact Hflag|]. split; auto.
  - unfold estimate_overlap. destruct (_is_overlap_set s) eqn:Hflag;
      [intros H; inversion H; congruence|].
    destruct (_is_crop_set s && _is_center_marked s); cbn [negb].
    + destruct (for_cameras _ _ _ _) as [r1 s1] eqn:Hrun.
      destruct (estimate_overlap_loop _ _ _ Hrun)
        as [[-> _]|[-> (k & Hk & Hfail & Hinv)]];
        intros H; inversion H; subst; [congruence|].
      pose proof Hinv as (l & -> & Hl & Hchk & Hset & Hrest).
      split; [exact Hflag|]. split; [discriminate|]. right.
      split; [reflexivity|]. exists k. split; [lia|].
      split; [exact Hfail|]. split; [exact Hchk|]. split; [exact Hinv|].
      cbn [_overlap_info set_overlap_info_field]. auto.
    + intros H; inversion H; subst. split; [exact Hflag|]. split; auto.
  - rewrite update_copy_areas_unfold. destruct (negb _); intros H;
      inversion H; congruence.
Qed.

(** C7, as the specification states it, fails: [mark_centers] fails for the second
    camera of [second_camera_astray] after it has overwritten the center
    mark of the first one. *)
Lemma mark_centers_failure_keeps_first_mark :
  let r := mark_centers format_angle_spec ALIGN_AROUND_spec
             second_camera_astray in
  r.1 = XCAM_RETURN_ERROR_PARAM
  /\ _is_center_marked r.2 = false
  /\ _center_marks second_camera_astray !! 0%nat = Some (mkCenterMark 0 0)
  /\ _center_marks r.2 !! 0%nat = Some (mkCenterMark 608 1800)
  /\ _center_marks r.2 <> _center_marks second_camera_astray.
Proof.
  vm_compute. repeat split. intros H. discriminate H.
Qed.

Lemma failed_stage_effect_witness :
  let r := mark_centers format_angle_spec ALIGN_AROUND_spec
             second_camera_astray in
  r.1 = XCAM_RETURN_ERROR_PARAM
  /\ _is_center_marked r.2 = false
  /\ exists k, k = 1
       /\ center_in_slice_range format_angle_spec ALIGN_AROUND_spec
            second_camera_astray k = false
       /\ center_loop_inv format_angle_spec ALIGN_AROUND_spec
            second_camera_astray k r.2
       /\ (forall j : nat, k <= Z.of_nat j ->
             _center_marks r.2 !! j = _center_marks second_camera_astray !! j).
Proof.
  cbv zeta.
  destruct (mark_centers format_angle_spec ALIGN_AROUND_spec
              second_camera_astray) as [r s'] eqn:Hrun.
  assert (Hr : r = XCAM_RETURN_ERROR_PARAM).
  { vm_compute in Hrun. inversion Hrun. reflexivity. }
  assert (Hne : r <> XCAM_RETURN_NO_ERROR) by (rewrite Hr; discriminate).
  destruct (failed_stage_effect format_angle_spec ALIGN_AROUND_spec
              second_camera_astray r s' Hne) as (_ & H & _).
  destruct (H Hrun) as (H1 & _ & [H3|(_ & k & Hk & Hfail & Hall & Hinv & _ & _ & Hrest)]);
    [rewrite Hr in H3; discriminate H3|].
  cbn [fst snd]. split; [exact Hr|]. split; [exact H1|]. exists k.
  split; [|auto].
  change (_camera_num second_camera_astray) with 2 in Hk.
  destruct (Z.eq_dec k 0) as [->|Hk0]; [|lia].
  vm_compute in Hfail. discriminate Hfail.
Defined.

(** ** Running a stage again *)

(** The candidates, and so the fresh copy areas, do not depend on the copy
    areas that are already stored. *)
Lemma fresh_copy_areas_set_copy_areas (s : Stitcher) (l : CopyAreaArray) :
  fresh_copy_areas (set_copy_areas s l) = fresh_copy_areas s.
Proof. reflexivity. Qed.

(** C6, as the code has it.  The three stages with a completion flag are
    idempotent: called again after a success they return success and the
    state they were given.  [update_copy_areas] has no such flag and does
    not clear [_copy_areas]: called again after a success it returns
    success and appends the same, non-empty, list of copy areas a second
    time. *)
Theorem stage_rerun (format_angle : spec_float -> spec_float)
    (XCAM_ALIGN_AROUND : Z -> Z -> Z) (s s' : Stitcher) :
  (estimate_coarse_crops s = (XCAM_RETURN_NO_ERROR, s') ->
   estimate_coarse_crops s' = (XCAM_RETURN_NO_ERROR, s'))
  /\ (mark_centers format_angle XCAM_ALIGN_AROUND s
      = (XCAM_RETURN_NO_ERROR, s') ->
      mark_centers format_angle XCAM_ALIGN_AROUND s'
      = (XCAM_RETURN_NO_ERROR, s'))
  /\ (estimate_overlap s = (XCAM_RETURN_NO_ERROR, s') ->
      estimate_overlap s' = (XCAM_RETURN_NO_ERROR, s'))
  /\ (update_copy_areas s = (XCAM_RETURN_NO_ERROR, s') ->
      4 * _camera_num s <= INT32_MAX ->
      let fresh := fresh_copy_areas s in
      fresh <> []
      /\ _copy_areas s' = _copy_areas s ++ fresh
      /\ update_copy_areas s'
         = (XCAM_RETURN_NO_ERROR,
            set_copy_areas s' (_copy_areas s ++ fresh ++ fresh))
      /\ (update_copy_areas s').2 <> s').
Proof.
  split; [|split; [|split]].
  - intros Hrun. destruct (estimate_coarse_crops_frame s) as (l & Hs & _).
    rewrite Hs in Hrun. inversion Hrun; subst. reflexivity.
  - intros Hrun.
    destruct (mark_centers_frame _ _ _ _ _ Hrun)
      as (l & _ & [[_ ->]|[Hne _]]); [reflexivity|congruence].
  - intros Hrun.
    destruct (estimate_overlap_frame _ _ _ Hrun)
      as (l & _ & [[_ ->]|[Hne _]]); [reflexivity|congruence].
  - intros Hrun Hmax. cbv zeta. rewrite update_copy_areas_unfold in Hrun.
    destruct (negb ((1 <? _camera_num s) && _is_crop_set s && _is_overlap_set s))
      eqn:Hpre; [discriminate Hrun|].
    inversion Hrun; subst s'; clear Hrun.
    set (fresh := fresh_copy_areas s) in *.
    assert (Hnum : 1 < _camera_num s).
    { destruct (1 <? _camera_num s) eqn:H; [apply Z.ltb_lt, H|discriminate Hpre]. }
    pose proof (fresh_copy_areas_length s Hmax) as Hlen. fold fresh in Hlen.
    cbn [_copy_areas set_copy_areas].
    assert (Hfresh : fresh <> []).
    { intros E. rewrite E in Hlen. cbn in Hlen. lia. }
    split; [exact Hfresh|]. split; [reflexivity|].
    assert (Hagain :
      update_copy_areas (set_copy_areas s (_copy_areas s ++ fresh))
      = (XCAM_RETURN_NO_ERROR,
         set_copy_areas (set_copy_areas s (_copy_areas s ++ fresh))
           (_copy_areas s ++ fresh ++ fresh))).
    { rewrite update_copy_areas_unfold.
      cbn [_camera_num _is_crop_set _is_overlap_set set_copy_areas].
      rewrite Hpre. rewrite fresh_copy_areas_set_copy_areas.
      cbn [_copy_areas set_copy_areas]. fold fresh.
      rewrite <- app_assoc. reflexivity. }
    split; [exact Hagain|]. rewrite Hagain. cbn [snd]. intros E.
    apply (f_equal _copy_areas) in E. cbn [_copy_areas set_copy_areas] in E.
    apply (f_equal (@length CopyArea)) in E. rewrite !length_app in E.
    destruct fresh; [congruence|cbn [length] in E; lia].
Qed.

Lemma stage_rerun_witness :
  length (_copy_areas four_cameras_done) = 5%nat
  /\ (update_copy_areas four_cameras_done).1 = XCAM_RETURN_NO_ERROR
  /\ length (_copy_areas (update_copy_areas four_cameras_done).2) = 10%nat
  /\ (update_copy_areas four_cameras_done).2 <> four_cameras_done.
Proof.
  destruct (stage_rerun format_angle_spec ALIGN_AROUND_spec
              four_cameras_overlapped four_cameras_done) as (_ & _ & _ & H).
  destruct (H ltac:(reflexivity) ltac:(vm_compute; discriminate))
    as (_ & _ & Hrun & Hne).
  split; [reflexivity|]. rewrite Hrun. cbn [fst snd].
  split; [reflexivity|]. split; [reflexivity|].
  rewrite Hrun in Hne. exact Hne.
Defined.

(** ** Counting the rectangles over a column *)

Lemma cover_count_app (x : Z) (l1 l2 : list Rect) :
  cover_count x (l1 ++ l2) = cover_count x l1 + cover_count x l2.
Proof. induction l1 as [|r l1 IH]; cbn [app cover_count]; lia. Qed.

Lemma cover_count_nonneg (x : Z) (l : list Rect) : 0 <= cover_count x l.
Proof.
  induction l as [|r l IH]; cbn [cover_count]; [lia|].
  unfold covered. destruct (covers r x); lia.
Qed.

Lemma cover_count_lookup (x : Z) (l : list Rect) (i : nat) (r : Rect) :
  l !! i = Some r -> covers r x = true ->
  1 + cover_count x (take i l) + cover_count x (drop (S i) l)
  = cover_count x l.
Proof.
  intros Hi Hc. rewrite <- (take_drop_middle l i r Hi) at 3.
  rewrite cover_count_app. cbn [cover_count]. unfold covered. rewrite Hc. lia.
Qed.

(** A column with a positive count lies in some rectangle. *)
Lemma cover_count_pos (x : Z) (l : list Rect) :
  0 < cover_count x l -> exists r, r ∈ l /\ covers r x = true.
Proof.
  induction l as [|r l IH]; cbn [cover_count]; [lia|].
  unfold covered. destruct (covers r x) eqn:Hc.
  - intros _. exists r. split; [apply elem_of_cons; auto|exact Hc].
  - intros H. destruct (IH ltac:(lia)) as (r' & Hin & Hc').
    exists r'. split; [apply elem_of_cons; auto|exact Hc'].
Qed.

(** A column in some rectangle has a positive count. *)
Lemma cover_count_elem (x : Z) (l : list Rect) (r : Rect) :
  r ∈ l -> covers r x = true -> 1 <= cover_count x l.
Proof.
  intros Hin Hc. apply list_elem_of_lookup_1 in Hin as [i Hi].
  pose proof (cover_count_lookup x l i r Hi Hc).
  pose proof (cover_count_nonneg x (take i l)).
  pose proof (cover_count_nonneg x (drop (S i) l)). lia.
Qed.

(** A column in the rectangles at two positions counts twice. *)
Lemma cover_count_two (x : Z) (l : list Rect) (i j : nat) (a b : Rect) :
  i <> j -> l !! i = Some a -> l !! j = Some b ->
  covers a x = true -> covers b x = true -> 2 <= cover_count x l.
Proof.
  intros Hne Hi Hj Ha Hb.
  assert (Hgen : forall i j a b, (i < j)%nat -> l !! i = Some a ->
            l !! j = Some b -> covers a x = true -> covers b x = true ->
            2 <= cover_count x l).
  { clear. intros i j a b Hlt Hi Hj Ha Hb.
    pose proof (cover_count_lookup x l i a Hi Ha) as H1.
    assert (Hj' : drop (S i) l !! (j - S i)%nat = Some b).
    { rewrite lookup_drop. replace (S i + (j - S i))%nat with j by lia.
      exact Hj. }
    assert (Hin : b ∈ drop (S i) l) by (eapply list_elem_of_lookup_2; eauto).
    pose proof (cover_count_elem x _ b Hin Hb).
    pose proof (cover_count_nonneg x (take i l)). lia. }
  destruct (decide (i < j)%nat).
  - eapply (Hgen i j); eauto.
  - eapply (Hgen j i); eauto. lia.
Qed.

Lemma cover_count_cons (x : Z) (r : Rect) (l : list Rect) :
  cover_count x (r :: l) = covered r x + cover_count x l.
Proof. reflexivity. Qed.

(** ** Merging keeps the coverage *)

(** The destination rectangle of a merge. *)
Lemma merge_neighbor_area_true (current next merged m : CopyArea) :
  merge_neighbor_area current next merged = (true, m) ->
  int32_t (pos_x (out_area current) + width (out_area current))
  = pos_x (out_area next)
  /\ pos_x (out_area m) = pos_x (out_area current)
  /\ width (out_area m)
     = int32_t (width (out_area current) + width (out_area next)).
Proof.
  unfold merge_neighbor_area.
  destruct (in_idx current =? in_idx next); [|discriminate].
  destruct (_ =? pos_x (in_area next)); [|discriminate].
  destruct (Z.eqb_spec
              (int32_t (pos_x (out_area current) + width (out_area current)))
              (pos_x (out_area next))) as [Hout|]; [|discriminate].
  cbn [andb]. intros H. inversion H; subst m; clear H.
  cbn [set_in_area set_out_area set_width set_pos_x out_area pos_x width].
  auto.
Qed.

(** Two rectangles of the frame that [merge_neighbor_area] merges are
    replaced by one rectangle of the frame over the same columns. *)
Lemma merge_neighbor_area_covers (output_width : Z)
    (current next merged m : CopyArea) :
  output_width <= INT32_MAX ->
  in_frame output_width (out_area current) ->
  in_frame output_width (out_area next) ->
  merge_neighbor_area current next merged = (true, m) ->
  in_frame output_width (out_area m)
  /\ forall x, covered (out_area m) x
               = covered (out_area current) x + covered (out_area next) x.
Proof.
  unfold INT32_MAX, in_frame. intros HW (Hc1 & Hc2 & Hc3) (Hn1 & Hn2 & Hn3) Hm.
  destruct (merge_neighbor_area_true _ _ _ _ Hm) as (Hout & Hpos & Hw).
  rewrite int32_t_id in Hout by (unfold INT32_MAX; lia).
  rewrite int32_t_id in Hw by (unfold INT32_MAX; lia).
  split; [lia|].
  intros x. unfold covered, covers. rewrite Hpos, Hw, <- Hout.
  destruct (pos_x (out_area current) <=? x) eqn:E1;
    destruct (x <? pos_x (out_area current) + width (out_area current)) eqn:E2;
    destruct (x <? pos_x (out_area current)
                   + (width (out_area current) + width (out_area next))) eqn:E3;
    destruct (pos_x (out_area current) + width (out_area current) <=? x) eqn:E4;
    destruct (x <? pos_x (out_area current) + width (out_area current)
                   + width (out_area next)) eqn:E5;
    cbn [andb]; lia.
Qed.

Lemma merge_list_covers (output_width : Z) (l : CopyAreaArray)
    (merged : CopyArea) :
  output_width <= INT32_MAX ->
  Forall (fun a => in_frame output_width (out_area a)) l ->
  Forall (fun a => in_frame output_width (out_area a)) (merge_list l merged)
  /\ forall x, cover_count x (map out_area (merge_list l merged))
               = cover_count x (map out_area l).
Proof.
  intros HW. remember (length l) as n eqn:Hn. revert l merged Hn.
  induction n as [n IH] using lt_wf_ind. intros l merged Hn Hall.
  destruct l as [|current [|next rest]]; cbn [length] in Hn;
    [split; [constructor|reflexivity]|split; [exact Hall|reflexivity]|].
  rewrite merge_list_step.
  apply Forall_cons in Hall as [Hcur Hall].
  pose proof Hall as Hall'. apply Forall_cons in Hall' as [Hnext Hrest].
  destruct (merge_neighbor_area current next merged) as [[|] m] eqn:Hm.
  - destruct (merge_neighbor_area_covers _ _ _ _ _ HW Hcur Hnext Hm)
      as [Hframe Hcov].
    assert (Hlt : (length rest < n)%nat) by lia.
    destruct (IH (length rest) Hlt rest m eq_refl Hrest) as [IH1 IH2].
    split; [apply Forall_cons; auto|].
    intros x. cbn [map]. rewrite !cover_count_cons, IH2, Hcov. lia.
  - assert (Hlt : (length (next :: rest) < n)%nat) by (cbn [length]; lia).
    destruct (IH (length (next :: rest)) Hlt (next :: rest) m eq_refl Hall)
      as [IH1 IH2].
    split; [apply Forall_cons; auto|].
    intros x. cbn [map]. rewrite !cover_count_cons, IH2. reflexivity.
Qed.

(** A list of at least two elements is its first element, its middle and
    its last element. *)
Lemma first_middle_last (l : CopyAreaArray) :
  (2 <= length l)%nat ->
  l = l !!! 0%nat :: middle_areas l ++ [l !!! (length l - 1)%nat].
Proof.
  intros Hlen. unfold middle_areas.
  destruct l as [|a l]; [cbn in Hlen; lia|]. cbn [length] in *.
  change ((a :: l) !!! 0%nat) with a. f_equal.
  replace (S (length l) - 1)%nat with (S (length l - 1)) by lia.
  cbn [take drop]. rewrite drop_0.
  change ((a :: l) !!! S (length l - 1)) with (l !!! (length l - 1)%nat).
  assert (Hlast : l !! (length l - 1)%nat = Some (l !!! (length l - 1)%nat))
    by (apply list_lookup_lookup_total_lt; lia).
  rewrite <- (take_drop (length l - 1) l) at 1.
  f_equal. rewrite (drop_S _ _ _ Hlast).
  rewrite drop_ge by lia. reflexivity.
Qed.

(** The merging part of [update_copy_areas] keeps, for every column, the
    number of destination rectangles over it. *)
Lemma merge_tmp_areas_covers (output_width : Z) (tmp_areas : CopyAreaArray) :
  output_width <= INT32_MAX ->
  Z.of_nat (length tmp_areas) <= INT32_MAX ->
  Forall (fun a => in_frame output_width (out_area a)) tmp_areas ->
  forall x, cover_count x (map out_area (merge_tmp_areas tmp_areas []))
            = cover_count x (map out_area tmp_areas).
Proof.
  intros HW Hlen Hall x. rewrite merge_tmp_areas_merge_list by exact Hlen.
  destruct (2 <? Z.of_nat (length tmp_areas)) eqn:H2;
    [|apply (merge_list_covers output_width); assumption].
  apply Z.ltb_lt in H2.
  destruct (merge_neighbor_area _ _ _) as [[|] m] eqn:Hm;
    [|apply (merge_list_covers output_width); assumption].
  pose proof (first_middle_last tmp_areas ltac:(lia)) as Hsplit.
  set (first := tmp_areas !!! 0%nat) in *.
  set (last := tmp_areas !!! (length tmp_areas - 1)%nat) in *.
  set (middle := middle_areas tmp_areas) in *.
  rewrite Hsplit in Hall. apply Forall_cons in Hall as [Hfirst Hall].
  apply Forall_app in Hall as [Hmid Hlast].
  apply Forall_cons in Hlast as [Hlast _].
  destruct (merge_neighbor_area_covers _ _ _ _ _ HW Hlast Hfirst Hm)
    as [_ Hcov].
  destruct (merge_list_covers output_width middle m HW Hmid) as [_ Hmidc].
  rewrite Hsplit at 1. cbn [map]. rewrite map_app. cbn [map].
  rewrite !cover_count_cons, cover_count_app, Hmidc, Hcov.
  rewrite cover_count_cons. cbn [cover_count]. lia.
Qed.

(** ** Sums over the ring of cameras *)

Lemma sum_cameras_ext (f g : Z -> Z) (n : nat) :
  (forall i, 0 <= i < Z.of_nat n -> f i = g i) ->
  sum_cameras f n = sum_cameras g n.
Proof.
  induction n as [|n IH]; intros H; cbn [sum_cameras]; [reflexivity|].
  rewrite IH by (intros; apply H; lia). rewrite H by lia. reflexivity.
Qed.

Lemma sum_cameras_plus (f g : Z -> Z) (n : nat) :
  sum_cameras (fun i => f i + g i) n = sum_cameras f n + sum_cameras g n.
Proof. induction n as [|n IH]; cbn [sum_cameras]; lia. Qed.

Lemma sum_cameras_minus (f g : Z -> Z) (n : nat) :
  sum_cameras (fun i => f i - g i) n = sum_cameras f n - sum_cameras g n.
Proof. induction n as [|n IH]; cbn [sum_cameras]; lia. Qed.

Lemma sum_cameras_shift (f : Z -> Z) (n : nat) :
  sum_cameras f (S n) = f 0 + sum_cameras (fun i => f (i + 1)) n.
Proof.
  induction n as [|n IH];
    [cbn [sum_cameras]; change (Z.of_nat 0) with 0; lia|].
  change (sum_cameras f (S (S n)))
    with (sum_cameras f (S n) + f (Z.of_nat (S n))).
  rewrite IH. cbn [sum_cameras].
  replace (Z.of_nat n + 1) with (Z.of_nat (S n)) by lia. lia.
Qed.

(** Summing over the right neighbours [(i + 1) mod n] is summing over the
    ring. *)
Lemma sum_cameras_ring (f : Z -> Z) (n : nat) :
  sum_cameras (fun i => f ((i + 1) mod Z.of_nat n)) n = sum_cameras f n.
Proof.
  destruct n as [|n]; [reflexivity|].
  rewrite (sum_cameras_shift f n). cbn [sum_cameras].
  rewrite (sum_cameras_ext _ (fun i => f (i + 1)) n).
  - replace ((Z.of_nat n + 1) mod Z.of_nat (S n)) with 0; [lia|].
    replace (Z.of_nat n + 1) with (Z.of_nat (S n)) by lia.
    symmetry. apply Z_mod_same_full.
  - intros i Hi. rewrite Z.mod_small by lia. reflexivity.
Qed.

(** ** The geometry of one pair of cameras *)

Ltac bool_to_prop :=
  repeat match goal with
    | H : _ && _ = true |- _ => apply andb_prop in H; destruct H
    | H : (_ <? _) = true |- _ => apply Z.ltb_lt in H
    | H : (_ <=? _) = true |- _ => apply Z.leb_le in H
    | H : (_ >? _) = true |- _ => apply Z.gtb_lt in H
    | H : (_ =? _) = true |- _ => apply Z.eqb_eq in H
    end.

(** With the assertions of [update_copy_areas] and sizes clear of the
    32-bit range, the left candidate, the output overlap and the right
    candidate of pair [i] follow one another from the center of camera
    [i] to the center of its right neighbour. *)
Lemma pair_geometry (s : Stitcher) (i : Z) :
  _overlap_info s !!! Z.to_nat i = overlap_of_pair s i ->
  has_overlap s i = true ->
  update_copy_areas_asserts s i = true ->
  0 <= _output_width s <= 536870912 ->
  0 <= out_center_x (_center_marks s !!! Z.to_nat i) < 4294967296 ->
  0 < out_right_center_x s (next_index s i) <= _output_width s ->
  let c := out_center_x (_center_marks s !!! Z.to_nat i) in
  let l := out_area (left_copy_area s i) in
  let o := ov_out_area (overlap_of_pair s i) in
  let r := out_area (right_copy_area s i) in
  pos_x l = c /\ 0 < width l /\ pos_x o = c + width l /\ 0 < width o
  /\ pos_x r = c + width l + width o /\ 0 < width r
  /\ pos_x r + width r = out_right_center_x s (next_index s i)
  /\ c < _output_width s.
Proof.
  intros Hov Hchk Hassert HW Hc Hc'.
  unfold update_copy_areas_asserts, split_area_by_out_all_asserts,
    split_area_by_out_asserts in Hassert.
  repeat match goal with
    | H : _ && _ = true |- _ => apply andb_prop in H; destruct H
    end.
  repeat match goal with
    | H : match split_area_by_out _ _ _ _ with _ => _ end = true |- _ => clear H
    end.
  unfold left_copy_area, right_copy_area in *. rewrite Hov in *.
  unfold overlap_of_pair, has_overlap, overlap_width, merge_width,
    valid_left_img, valid_right_img in *.
  cbn [in_area out_area ov_left ov_right ov_out_area pos_x pos_y width height]
    in *.
  bool_to_prop.
  set (c' := out_right_center_x s (next_index s i)) in *.
  set (c := out_center_x (_center_marks s !!! Z.to_nat i)) in *.
  clearbody c c'.
  unwrap32. lia.
Qed.

(** The columns that the three rectangles of a pair hold between them. *)
Lemma pair_covered (c c' : Z) (l o r : Rect) (x : Z) :
  pos_x l = c -> 0 < width l -> pos_x o = c + width l -> 0 < width o ->
  pos_x r = c + width l + width o -> 0 < width r ->
  pos_x r + width r = c' ->
  covered l x + covered o x + covered r x
  = (if x <? c' then 1 else 0) - (if x <? c then 1 else 0).
Proof.
  intros Hl Hlw Ho How Hr Hrw Hc'. unfold covered, covers.
  rewrite Hl, Ho, Hr.
  repeat match goal with
    | |- context [?a <=? ?b] => destruct (Z.leb_spec a b)
    | |- context [?a <? ?b] => destruct (Z.ltb_spec a b)
    end; cbn [andb]; lia.
Qed.

(** ** The candidates of a run without wrap-around *)

(** A rectangle of the frame is not split. *)
Lemma split_area_by_out_in_frame (area : CopyArea) (round_width : Z)
    (a b : CopyArea) :
  0 <= round_width <= INT32_MAX ->
  in_frame round_width (out_area area) ->
  split_area_by_out area round_width a b = (false, a, b).
Proof.
  unfold INT32_MAX, in_frame. intros HW (H1 & H2 & H3).
  unfold split_area_by_out.
  rewrite (int32_t_id round_width) by (unfold INT32_MAX; lia).
  rewrite int32_t_id by (unfold INT32_MAX; lia).
  destruct (Z.gtb_spec (pos_x (out_area area) + width (out_area area))
              round_width); [lia|reflexivity].
Qed.

Lemma tmp_areas_framed (s : Stitcher) :
  0 <= _output_width s <= INT32_MAX ->
  (forall i, 0 <= i < _camera_num s ->
     in_frame (_output_width s) (out_area (left_copy_area s i))
     /\ in_frame (_output_width s) (out_area (right_copy_area s i))) ->
  Forall (fun a => in_frame (_output_width s) (out_area a)) (tmp_areas_of s)
  /\ length (tmp_areas_of s) = (2 * Z.to_nat (_camera_num s))%nat
  /\ forall x,
       cover_count x (map out_area (tmp_areas_of s))
       = sum_cameras
           (fun i => covered (out_area (left_copy_area s i)) x
                     + covered (out_area (right_copy_area s i)) x)
           (Z.to_nat (_camera_num s)).
Proof.
  intros HW Hframe. unfold tmp_areas_of.
  destruct (for_cameras _ _ _ _) as [r tmp] eqn:Hrun. cbn [snd].
  set (f := fun x i => covered (out_area (left_copy_area s i)) x
                       + covered (out_area (right_copy_area s i)) x).
  set (P := fun i (tmp : CopyAreaArray) =>
    0 <= i
    /\ Forall (fun a => in_frame (_output_width s) (out_area a)) tmp
    /\ length tmp = (2 * Z.to_nat i)%nat
    /\ forall x, cover_count x (map out_area tmp)
                 = sum_cameras (f x) (Z.to_nat i)).
  assert (Hstep : forall i st st',
    i < Z.of_nat (Z.to_nat (_camera_num s)) -> P i st ->
    update_copy_areas_camera s i st = (XCAM_RETURN_NO_ERROR, st') ->
    P (i + 1) st').
  { intros i st st' Hi (Hi0 & Hall & Hlen & Hcnt) Hb.
    destruct (Hframe i ltac:(lia)) as [Hl Hr].
    unfold update_copy_areas_camera, push_split in Hb.
    rewrite (split_area_by_out_in_frame _ _ _ _ HW Hl) in Hb.
    rewrite (split_area_by_out_in_frame _ _ _ _ HW Hr) in Hb.
    cbn [fst snd] in Hb. inversion Hb; subst st'; clear Hb.
    split; [lia|]. split; [|split].
    - rewrite <- app_assoc. apply Forall_app. split; [exact Hall|].
      constructor; [exact Hl|]. constructor; [exact Hr|]. constructor.
    - rewrite !length_app. cbn [length]. lia.
    - intros x. rewrite <- app_assoc, map_app, cover_count_app, Hcnt.
      replace (Z.to_nat (i + 1)) with (S (Z.to_nat i)) by lia.
      cbn [sum_cameras app map cover_count]. unfold f.
      rewrite Z2Nat.id by lia. lia. }
  assert (Hexit : forall i st r0 st',
    i < Z.of_nat (Z.to_nat (_camera_num s)) -> P i st ->
    update_copy_areas_camera s i st = (r0, st') ->
    r0 <> XCAM_RETURN_NO_ERROR -> False).
  { intros i st r0 st' _ _ Hb Hne. unfold update_copy_areas_camera in Hb.
    inversion Hb. congruence. }
  assert (Hinit : P 0 []).
  { unfold P. repeat split; [lia|constructor]. }
  assert (Hhi : 0 + Z.of_nat (Z.to_nat (_camera_num s))
                <= Z.of_nat (Z.to_nat (_camera_num s))) by lia.
  destruct (for_cameras_inv_upto P (fun _ _ _ => False)
              (update_copy_areas_camera s) _ Hstep Hexit _ _ _ _ _ Hhi
              Hinit Hrun) as [[_ H]|[_ (k & _ & [])]].
  destruct H as (_ & Hall & Hlen & Hcnt).
  replace (Z.to_nat (0 + Z.of_nat (Z.to_nat (_camera_num s))))
    with (Z.to_nat (_camera_num s)) in * by lia.
  auto.
Qed.

(** The output rectangles of the overlaps, counted pair by pair. *)
Lemma overlap_out_rects_count (s : Stitcher) (x : Z) :
  (forall k, 0 <= k < _camera_num s ->
     _overlap_info s !! Z.to_nat k = Some (overlap_of_pair s k)) ->
  cover_count x (overlap_out_rects s)
  = sum_cameras (fun i => covered (ov_out_area (overlap_of_pair s i)) x)
      (Z.to_nat (_camera_num s)).
Proof.
  intros Hov. unfold overlap_out_rects.
  assert (Hgen : forall n, (n <= Z.to_nat (_camera_num s))%nat ->
    cover_count x (map ov_out_area (take n (_overlap_info s)))
    = sum_cameras (fun i => covered (ov_out_area (overlap_of_pair s i)) x) n).
  { induction n as [|n IH]; intros Hn; [reflexivity|].
    specialize (Hov (Z.of_nat n) ltac:(lia)). rewrite Nat2Z.id in Hov.
    rewrite (take_S_r _ _ _ Hov), map_app, cover_count_app, IH by lia.
    cbn [sum_cameras map cover_count]. lia. }
  apply Hgen. lia.
Qed.

Lemma sum_cameras_zero (n : nat) : sum_cameras (fun _ => 0) n = 0.
Proof. induction n as [|n IH]; cbn [sum_cameras]; lia. Qed.

Lemma next_index_range (s : Stitcher) (k : Z) :
  0 <= k < _camera_num s -> _camera_num s < 4294967296 ->
  next_index s k = (k + 1) mod Z.of_nat (Z.to_nat (_camera_num s))
  /\ 0 <= next_index s k < _camera_num s.
Proof.
  intros Hk Hn. unfold next_index. rewrite uint32_t_id by lia.
  rewrite Z2Nat.id by lia. split; [reflexivity|].
  apply Z.mod_pos_bound. lia.
Qed.

Lemma center_in_frame (s : Stitcher) (k : Z) :
  update_copy_areas_asserts s k = true ->
  0 <= _output_width s <= 536870912 ->
  0 <= out_center_x (_center_marks s !!! Z.to_nat k) < 4294967296 ->
  out_center_x (_center_marks s !!! Z.to_nat k) < _output_width s.
Proof.
  intros Hassert HW Hc.
  unfold update_copy_areas_asserts, split_area_by_out_all_asserts,
    split_area_by_out_asserts in Hassert.
  repeat match goal with
    | H : _ && _ = true |- _ => apply andb_prop in H; destruct H
    end.
  repeat match goal with
    | H : match split_area_by_out _ _ _ _ with _ => _ end = true |- _ => clear H
    end.
  unfold left_copy_area in *. cbn [out_area pos_x width] in *.
  bool_to_prop.
  set (c := out_center_x (_center_marks s !!! Z.to_nat k)) in *. clearbody c.
  unwrap32. lia.
Qed.

(** The state before [update_copy_areas], with the overlaps of this run
    and all assertions passing: every column of the output lies in as many
    rectangles as there are cameras centered on the seam, every other
    column in none. *)
Lemma tiling_of_state (s : Stitcher) :
  1 < _camera_num s ->
  overflow_free s ->
  (forall k, 0 <= k < _camera_num s ->
     _overlap_info s !! Z.to_nat k = Some (overlap_of_pair s k)) ->
  (forall k, 0 <= k < _camera_num s -> has_overlap s k = true) ->
  (forall k, 0 <= k < _camera_num s ->
     0 <= out_center_x (_center_marks s !!! Z.to_nat k) < 4294967296) ->
  copy_areas_asserted s ->
  forall x,
    cover_count x (map out_area (fresh_copy_areas s) ++ overlap_out_rects s)
    = if (0 <=? x) && (x <? _output_width s) then seam_centers s else 0.
Proof.
  unfold overflow_free, INT32_MAX.
  intros Hnum [HW Hmax] Hov Hchk Htyped Hassert x.
  set (W := _output_width s) in *.
  set (c := fun k => out_center_x (_center_marks s !!! Z.to_nat k)).
  set (orc := fun j => out_right_center_x s j).
  assert (Hc : forall k, 0 <= k < _camera_num s -> 0 <= c k < W).
  { intros k Hk. split; [apply Htyped; exact Hk|].
    apply center_in_frame; [apply Hassert; exact Hk|exact HW|apply Htyped, Hk]. }
  assert (Horc : forall j, 0 <= j < _camera_num s ->
            orc j = if c j =? 0 then W else c j) by reflexivity.
  assert (Hnext : forall k, 0 <= k < _camera_num s ->
            next_index s k = (k + 1) mod Z.of_nat (Z.to_nat (_camera_num s))
            /\ 0 <= next_index s k < _camera_num s)
    by (intros; apply next_index_range; lia).
  assert (Hgeo : forall k, 0 <= k < _camera_num s ->
    in_frame W (out_area (left_copy_area s k))
    /\ in_frame W (out_area (right_copy_area s k))
    /\ covered (out_area (left_copy_area s k)) x
       + covered (out_area (right_copy_area s k)) x
       + covered (ov_out_area (overlap_of_pair s k)) x
       = (if x <? orc (next_index s k) then 1 else 0)
         - (if x <? c k then 1 else 0)).
  { intros k Hk. destruct (Hnext k Hk) as [_ Hn].
    pose proof (Hc k Hk) as Hck. pose proof (Hc _ Hn) as Hcn.
    assert (Hrc : 0 < orc (next_index s k) <= W).
    { rewrite Horc by exact Hn. destruct (Z.eqb_spec (c (next_index s k)) 0); lia. }
    pose proof (pair_geometry s k
                  (list_lookup_total_correct _ _ _ (Hov k Hk)) (Hchk k Hk)
                  (Hassert k Hk) HW (Htyped k Hk) Hrc) as Hg.
    cbv zeta in Hg. destruct Hg as (G1 & G2 & G3 & G4 & G5 & G6 & G7 & G8).
    fold (c k) in G1, G3, G5, G8. fold (orc (next_index s k)) in G7.
    split; [unfold in_frame; lia|]. split; [unfold in_frame; lia|].
    rewrite <- (pair_covered (c k) (orc (next_index s k)) _ _ _ x
                  G1 G2 G3 G4 G5 G6 G7). lia. }
  destruct (tmp_areas_framed s ltac:(unfold INT32_MAX; fold W; lia))
    as (Hall & Hlen & Htmp).
  { intros i Hi. destruct (Hgeo i Hi) as (H1 & H2 & _). auto. }
  rewrite cover_count_app.
  unfold fresh_copy_areas.
  rewrite (merge_tmp_areas_covers W) by
    (unfold INT32_MAX; try exact Hall; lia).
  rewrite Htmp, overlap_out_rects_count by exact Hov.
  rewrite <- sum_cameras_plus.
  rewrite (sum_cameras_ext _
             (fun k => (if x <? orc ((k + 1) mod Z.of_nat (Z.to_nat (_camera_num s)))
                        then 1 else 0)
                       - (if x <? c k then 1 else 0))).
  2:{ intros k Hk. assert (Hk' : 0 <= k < _camera_num s) by lia.
      destruct (Hgeo k Hk') as (_ & _ & Hsum).
      destruct (Hnext k Hk') as [<- _]. exact Hsum. }
  rewrite sum_cameras_minus.
  rewrite (sum_cameras_ring (fun j => if x <? orc j then 1 else 0)).
  rewrite <- sum_cameras_minus.
  destruct ((0 <=? x) && (x <? W)) eqn:Hx.
  - unfold seam_centers. apply sum_cameras_ext. intros j Hj.
    assert (Hj' : 0 <= j < _camera_num s) by lia.
    rewrite (Horc j Hj'). pose proof (Hc j Hj') as Hcj. fold (c j).
    apply andb_prop in Hx as [Hx1 Hx2].
    apply Z.leb_le in Hx1. apply Z.ltb_lt in Hx2.
    destruct (Z.eqb_spec (c j) 0) as [E|E].
    + rewrite E. destruct (Z.ltb_spec x W); destruct (Z.ltb_spec x 0); lia.
    + destruct (Z.ltb_spec x (c j)); lia.
  - assert (Hout : x < 0 \/ W <= x).
    { apply andb_false_iff in Hx as [Hx|Hx];
        [apply Z.leb_gt in Hx|apply Z.ltb_ge in Hx]; lia. }
    transitivity (sum_cameras (fun _ => 0) (Z.to_nat (_camera_num s)));
      [|apply sum_cameras_zero].
    apply sum_cameras_ext. intros j Hj.
    assert (Hj' : 0 <= j < _camera_num s) by lia.
    rewrite (Horc j Hj'). pose proof (Hc j Hj') as Hcj.
    destruct (Z.eqb_spec (c j) 0) as [E|E].
    + rewrite E. destruct (Z.ltb_spec x W); destruct (Z.ltb_spec x 0); lia.
    + destruct (Z.ltb_spec x (c j)); lia.
Qed.

(** ** What a successful stage has stored *)

Lemma uint32_of_f32_range (x : spec_float) : 0 <= uint32_of_f32 x < 4294967296.
Proof.
  unfold uint32_of_f32. destruct x; try lia. unwrap32. lia.
Qed.

Lemma mark_out_pos_snapped_range (format_angle : spec_float -> spec_float)
    (s : Stitcher) (i : Z) :
  0 <= mark_out_pos_snapped format_angle s i < 4294967296.
Proof.
  unfold mark_out_pos_snapped, mark_out_pos.
  destruct (_ || _); [lia|apply uint32_of_f32_range].
Qed.

(** A first successful [mark_centers] has stored the mark of every
    camera. *)
Lemma mark_centers_success (format_angle : spec_float -> spec_float)
    (XCAM_ALIGN_AROUND : Z -> Z -> Z) (s s' : Stitcher) :
  _is_center_marked s = false ->
  mark_centers format_angle XCAM_ALIGN_AROUND s = (XCAM_RETURN_NO_ERROR, s') ->
  0 < _camera_num s
  /\ exists l,
       s' = set_is_center_marked (set_center_marks s l) true
       /\ length l = length (_center_marks s)
       /\ forall k, 0 <= k < _camera_num s ->
            (Z.to_nat k < length (_center_marks s))%nat ->
            l !! Z.to_nat k
            = Some (mkCenterMark
                      (mark_slice_pos format_angle XCAM_ALIGN_AROUND s k)
                      (mark_out_pos_snapped format_angle s k)).
Proof.
  intros Hflag. unfold mark_centers. rewrite Hflag.
  destruct (Z.ltb_spec 0 (_camera_num s)) as [Hnum|Hnum]; cbn [negb];
    [|discriminate].
  destruct (for_cameras _ _ _ _) as [r1 s1] eqn:Hrun.
  destruct (mark_centers_loop _ _ _ _ _ Hrun)
    as [[-> (l & -> & Hl & Hset & _)]|[-> _]]; [|discriminate].
  intros H; inversion H; subst; clear H. split; [exact Hnum|].
  exists l. split; [reflexivity|]. split; [exact Hl|].
  intros k Hk Hin. apply Hset; [lia|exact Hin].
Qed.

(** A first successful [estimate_overlap] has tested every pair and stored
    its rectangles. *)
Lemma estimate_overlap_success (s s' : Stitcher) :
  _is_overlap_set s = false ->
  estimate_overlap s = (XCAM_RETURN_NO_ERROR, s') ->
  exists l,
    s' = set_is_overlap_set (set_overlap_info_field s l) true
    /\ length l = length (_overlap_info s)
    /\ (forall k, 0 <= k < _camera_num s -> has_overlap s k = true)
    /\ forall k, 0 <= k < _camera_num s ->
         (Z.to_nat k < length (_overlap_info s))%nat ->
         l !! Z.to_nat k = Some (overlap_of_pair s k).
Proof.
  intros Hflag. unfold estimate_overlap. rewrite Hflag.
  destruct (_is_crop_set s && _is_center_marked s); cbn [negb]; [|discriminate].
  destruct (for_cameras _ _ _ _) as [r1 s1] eqn:Hrun.
  destruct (estimate_overlap_loop _ _ _ Hrun)
    as [[-> (l & -> & Hl & Hchk & Hset & _)]|[-> _]]; [|discriminate].
  intros H; inversion H; subst; clear H.
  exists l. split; [reflexivity|]. split; [exact Hl|]. split.
  - intros k Hk. apply Hchk. lia.
  - intros k Hk Hin. apply Hset; [lia|exact Hin].
Qed.

(** ** The tiling of the output *)

Lemma lookup_map_Some {A B : Type} (f : A -> B) (l : list A) (i : nat) (a : A) :
  l !! i = Some a -> map f l !! i = Some (f a).
Proof.
  revert i. induction l as [|y l IH]; intros [|i] H; cbn in *;
    try discriminate.
  - inversion H. reflexivity.
  - apply IH. exact H.
Qed.

(** C1, as the code has it.  After a successful run of the four stages
    from a state with nothing computed yet, with arrays that hold the
    cameras, sizes clear of the 32-bit range, all assertions of
    [update_copy_areas] passing and exactly one camera centered on the
    seam: every column of [[0, _output_width)] lies in exactly one of the
    destination rectangles of the copy areas and output rectangles of the
    overlaps, and every other column in none.  So the rectangles cover
    [[0, _output_width)], none reaches outside it, and no two of them
    (in particular no two copy areas) share a column. *)
Theorem copy_areas_tile_output (format_angle : spec_float -> spec_float)
    (XCAM_ALIGN_AROUND : Z -> Z -> Z) (s0 s1 s2 s3 s4 : Stitcher) :
  stages_run format_angle XCAM_ALIGN_AROUND s0 s1 s2 s3 s4 ->
  arrays_fit s0 ->
  overflow_free s0 ->
  copy_areas_asserted s3 ->
  seam_centers s3 = 1 ->
  let rects := copy_dest_rects s4 ++ overlap_out_rects s4 in
  let output_width := _output_width s0 in
  (forall x, cover_count x rects
             = if (0 <=? x) && (x <? output_width) then 1 else 0)
  /\ (forall x, 0 <= x < output_width ->
        exists r, r ∈ rects /\ covers r x = true)
  /\ (forall r x, r ∈ rects -> covers r x = true -> 0 <= x < output_width)
  /\ (forall i j a b x, i <> j -> rects !! i = Some a -> rects !! j = Some b ->
        ~ (covers a x = true /\ covers b x = true))
  /\ (forall i j a b x, i <> j ->
        _copy_areas s4 !! i = Some a -> _copy_areas s4 !! j = Some b ->
        ~ (covers (out_area a) x = true /\ covers (out_area b) x = true)).
Proof.
  intros (Hcen & Hovf & Hcopy & Hrun1 & Hrun2 & Hrun3 & Hrun4)
    (Hn0 & Hfit1 & Hfit2 & Hfit3 & Hfit4) Hfree Hassert Hseam rects output_width.
  destruct (estimate_coarse_crops_frame s0) as (l1 & Hs1 & Hl1).
  rewrite Hs1 in Hrun1. inversion Hrun1; subst s1; clear Hrun1 Hs1.
  set (s1 := set_is_crop_set (set_crop_info_field s0 l1) true) in *.
  destruct (mark_centers_success _ _ s1 _ Hcen Hrun2)
    as (_ & l2 & -> & Hl2 & Hmarks).
  destruct (estimate_overlap_success
              (set_is_center_marked (set_center_marks s1 l2) true) _
              Hovf Hrun3) as (l3 & -> & Hl3 & Hchk & Hovs).
  subst s1.
  rewrite update_copy_areas_unfold in Hrun4.
  destruct (negb _) eqn:Hpre in Hrun4; [discriminate Hrun4|].
  inversion Hrun4; subst s4; clear Hrun4.
  cbn [_camera_num _center_marks _overlap_info _copy_areas _output_width
       _is_crop_set _is_overlap_set set_is_crop_set set_crop_info_field
       set_is_center_marked set_center_marks set_is_overlap_set
       set_overlap_info_field set_copy_areas] in *.
  set (s3 := set_is_overlap_set
               (set_overlap_info_field
                  (set_is_center_marked
                     (set_center_marks
                        (set_is_crop_set (set_crop_info_field s0 l1) true) l2)
                     true) l3) true) in *.
  assert (Hnum : 1 < _camera_num s0).
  { destruct (Z.ltb_spec 1 (_camera_num s0)); [assumption|discriminate Hpre]. }
  assert (Hcount : forall x,
    cover_count x rects
    = if (0 <=? x) && (x <? output_width) then 1 else 0).
  { intros x. subst rects. unfold copy_dest_rects.
    cbn [_copy_areas set_copy_areas]. rewrite Hcopy. cbn [app].
    change (overlap_out_rects (set_copy_areas s3 (fresh_copy_areas s3)))
      with (overlap_out_rects s3).
    rewrite <- Hseam. apply (tiling_of_state s3).
    - exact Hnum.
    - exact Hfree.
    - intros k Hk. change (0 <= k < _camera_num s0) in Hk.
      apply (Hovs k Hk). lia.
    - exact Hchk.
    - intros k Hk. change (0 <= k < _camera_num s0) in Hk.
      cbn [s3 _center_marks set_is_overlap_set
                        set_overlap_info_field set_is_center_marked
                        set_center_marks].
      assert (Hlt : (Z.to_nat k < length (_center_marks s0))%nat) by lia.
      pose proof (Hmarks k Hk Hlt) as Hm.
      apply list_lookup_total_correct in Hm. rewrite Hm.
      apply mark_out_pos_snapped_range.
    - exact Hassert. }
  split; [exact Hcount|]. split; [|split; [|split]].
  - intros x Hx. apply cover_count_pos. rewrite Hcount.
    destruct (Z.leb_spec 0 x); destruct (Z.ltb_spec x output_width);
      cbn [andb]; lia.
  - intros r x Hin Hc. pose proof (cover_count_elem x rects r Hin Hc) as H.
    rewrite Hcount in H.
    destruct (Z.leb_spec 0 x); destruct (Z.ltb_spec x output_width);
      cbn [andb] in H; lia.
  - intros i j a b x Hne Hi Hj [Ha Hb].
    pose proof (cover_count_two x rects i j a b Hne Hi Hj Ha Hb) as H.
    rewrite Hcount in H. revert H.
    destruct ((0 <=? x) && (x <? output_width)); lia.
  - intros i j a b x Hne Hi Hj [Ha Hb].
    assert (Hi' : rects !! i = Some (out_area a)).
    { subst rects. unfold copy_dest_rects. apply lookup_app_l_Some.
      cbn [_copy_areas set_copy_areas]. apply lookup_map_Some. exact Hi. }
    assert (Hj' : rects !! j = Some (out_area b)).
    { subst rects. unfold copy_dest_rects. apply lookup_app_l_Some.
      cbn [_copy_areas set_copy_areas]. apply lookup_map_Some. exact Hj. }
    pose proof (cover_count_two x rects i j _ _ Hne Hi' Hj' Ha Hb) as H.
    rewrite Hcount in H. revert H.
    destruct ((0 <=? x) && (x <? output_width)); lia.
Qed.

Lemma copy_areas_tile_output_witness :
  length (_copy_areas four_cameras_done) = 5%nat
  /\ forall x,
       cover_count x (copy_dest_rects four_cameras_done
                      ++ overlap_out_rects four_cameras_done)
       = if (0 <=? x) && (x <? 3600) then 1 else 0.
Proof.
  split; [reflexivity|].
  refine (proj1 (copy_areas_tile_output format_angle_spec ALIGN_AROUND_spec
                   four_cameras four_cameras_cropped four_cameras_marked
                   four_cameras_overlapped four_cameras_done _ _ _ _ _)).
  - repeat split; vm_compute; reflexivity.
  - unfold arrays_fit. cbn. lia.
  - unfold overflow_free, INT32_MAX. cbn. lia.
  - intros i Hi. change (_camera_num four_cameras_overlapped) with 4 in Hi.
    assert (Hcases : i = 0 \/ i = 1 \/ i = 2 \/ i = 3) by lia.
    destruct Hcases as [->|[->|[->| ->]]]; vm_compute; reflexivity.
  - vm_compute. reflexivity.
Defined.

(** C1, as the specification states it, fails.  On [seam_twice] the four stages
    succeed and every assertion of [mark_centers], [estimate_overlap] and
    [update_copy_areas] holds, but both cameras are centered on the seam:
    the copy areas at positions 0 and 2 both have the destination columns
    [[0, 16)], so that column 0 lies in two distinct copy areas. *)
Lemma seam_twice_covers_twice :
  stages_run format_angle_spec ALIGN_AROUND_spec seam_twice
    seam_twice_cropped seam_twice_marked seam_twice_overlapped seam_twice_done
  /\ arrays_fit seam_twice
  /\ overflow_free seam_twice
  /\ mark_centers_asserts format_angle_spec ALIGN_AROUND_spec
       seam_twice_cropped 0 = true
  /\ mark_centers_asserts format_angle_spec ALIGN_AROUND_spec
       seam_twice_cropped 1 = true
  /\ estimate_overlap_asserts seam_twice_marked 0 = true
  /\ estimate_overlap_asserts seam_twice_marked 1 = true
  /\ update_copy_areas_asserts seam_twice_overlapped 0 = true
  /\ update_copy_areas_asserts seam_twice_overlapped 1 = true
  /\ seam_centers seam_twice_overlapped = 2
  /\ map out_area (_copy_areas seam_twice_done)
     = [mkRect 0 0 16 20; mkRect 24 0 8 20; mkRect 0 0 16 20;
        mkRect 24 0 8 20]
  /\ (exists a b,
        copy_dest_rects seam_twice_done !! 0%nat = Some a
        /\ copy_dest_rects seam_twice_done !! 2%nat = Some b
        /\ covers a 0 = true /\ covers b 0 = true)
  /\ cover_count 0 (copy_dest_rects seam_twice_done
                    ++ overlap_out_rects seam_twice_done) = 2.
Proof.
  split; [repeat split; vm_compute; reflexivity|].
  split; [unfold arrays_fit; cbn; lia|].
  split; [unfold overflow_free, INT32_MAX; cbn; lia|].
  do 8 (split; [vm_compute; reflexivity|]).
  split; [|vm_compute; reflexivity].
  exists (mkRect 0 0 16 20), (mkRect 0 0 16 20). repeat split.
Qed.

(** * Further properties of the member functions *)

(** ** Setters and getters *)

(** X1.  [set_crop_info] and [get_crop_info] agree: after a successful
    [set_crop_info] for a camera, [get_crop_info] returns the stored
    margins for that camera and, for every other camera, what it returned
    before.  With an index at or beyond [_camera_num] both functions fail;
    the setter then leaves the state, and with it the crop flag, as it
    was, and the getter leaves the caller's [info] as it was. *)
Theorem crop_info_round_trip (s : Stitcher) (index : Z) (info : ImageCropInfo) :
  0 <= index < _camera_num s ->
  (Z.to_nat index < length (_crop_info s))%nat ->
  let s' := (set_crop_info s index info).2 in
  (forall old, get_crop_info s' index old = (true, info))
  /\ (forall j old, 0 <= j -> j <> index ->
        get_crop_info s' j old = get_crop_info s j old)
  /\ (forall bad info' old, _camera_num s <= bad ->
        set_crop_info s bad info' = (false, s)
        /\ get_crop_info s bad old = (false, old)
        /\ get_crop_info s' bad old = (false, old)).
Proof.
  intros Hidx Hlen. unfold set_crop_info.
  destruct (Z.ltb_spec index (_camera_num s)) as [_|]; [|lia].
  cbn [negb snd]. split; [|split].
  - intros old. unfold get_crop_info.
    cbn [_camera_num _crop_info set_is_crop_set set_crop_info_field].
    destruct (Z.ltb_spec index (_camera_num s)) as [_|]; [|lia]. cbn [negb].
    rewrite list_lookup_total_insert_eq by exact Hlen. reflexivity.
  - intros j old Hj Hne. unfold get_crop_info.
    cbn [_camera_num _crop_info set_is_crop_set set_crop_info_field].
    destruct (negb (j <? _camera_num s)); [reflexivity|].
    rewrite list_lookup_total_insert_ne by lia. reflexivity.
  - intros bad info' old Hbad. unfold get_crop_info.
    cbn [_camera_num _crop_info set_is_crop_set set_crop_info_field].
    destruct (Z.ltb_spec bad (_camera_num s)) as [|_]; [lia|]. auto.
Qed.

Lemma crop_info_round_trip_witness :
  get_crop_info (set_crop_info four_cameras 2 (mkCrop 4 5 6 7)).2 2
    (mkCrop 0 0 0 0) = (true, mkCrop 4 5 6 7)
  /\ set_crop_info four_cameras 4 (mkCrop 4 5 6 7) = (false, four_cameras).
Proof.
  destruct (crop_info_round_trip four_cameras 2 (mkCrop 4 5 6 7)
              ltac:(cbn; lia) ltac:(cbn; lia)) as (H1 & _ & H3).
  split; [apply H1|].
  apply (H3 4 (mkCrop 4 5 6 7) (mkCrop 0 0 0 0)). cbn. lia.
Defined.

(** X2.  [set_camera_info] and [get_camera_info] agree on the cameras in
    use, but test different bounds: the setter accepts an index below
    [_camera_num], the getter every index below [XCAM_STITCH_MAX_CAMERAS].
    So after a successful [set_camera_info] the getter returns the stored
    description, it returns for every other index what it returned before,
    and it also succeeds, with whatever the array holds, for an index that
    the setter turns down. *)
Theorem camera_info_round_trip (XCAM_STITCH_MAX_CAMERAS : Z) (s : Stitcher)
    (index : Z) (info : CameraInfo) :
  0 <= index < _camera_num s ->
  _camera_num s <= XCAM_STITCH_MAX_CAMERAS ->
  (Z.to_nat index < length (_camera_info s))%nat ->
  let s' := (set_camera_info s index info).2 in
  (set_camera_info s index info).1 = true
  /\ (forall old,
        get_camera_info XCAM_STITCH_MAX_CAMERAS s' index old = (true, info))
  /\ (forall j old, 0 <= j -> j <> index ->
        get_camera_info XCAM_STITCH_MAX_CAMERAS s' j old
        = get_camera_info XCAM_STITCH_MAX_CAMERAS s j old)
  /\ (forall j info' old, _camera_num s <= j < XCAM_STITCH_MAX_CAMERAS ->
        set_camera_info s j info' = (false, s)
        /\ get_camera_info XCAM_STITCH_MAX_CAMERAS s j old
           = (true, _camera_info s !!! Z.to_nat j))
  /\ (forall j old, XCAM_STITCH_MAX_CAMERAS <= j ->
        get_camera_info XCAM_STITCH_MAX_CAMERAS s j old = (false, old)).
Proof.
  intros Hidx Hmax Hlen. unfold set_camera_info.
  destruct (Z.ltb_spec index (_camera_num s)) as [_|]; [|lia].
  cbn [negb fst snd]. split; [reflexivity|]. split; [|split; [|split]].
  - intros old. unfold get_camera_info.
    destruct (Z.ltb_spec index XCAM_STITCH_MAX_CAMERAS) as [_|]; [|lia].
    cbn [negb _camera_info set_camera_info_field].
    rewrite list_lookup_total_insert_eq by exact Hlen. reflexivity.
  - intros j old Hj Hne. unfold get_camera_info.
    destruct (negb (j <? XCAM_STITCH_MAX_CAMERAS)); [reflexivity|].
    cbn [_camera_info set_camera_info_field].
    rewrite list_lookup_total_insert_ne by lia. reflexivity.
  - intros j info' old Hj. unfold get_camera_info.
    destruct (Z.ltb_spec j (_camera_num s)) as [|_]; [lia|].
    destruct (Z.ltb_spec j XCAM_STITCH_MAX_CAMERAS) as [_|]; [|lia]. auto.
  - intros j old Hj. unfold get_camera_info.
    destruct (Z.ltb_spec j XCAM_STITCH_MAX_CAMERAS) as [|_]; [lia|]. reflexivity.
Qed.

Lemma camera_info_round_trip_witness :
  get_camera_info MAX_CAMERAS_spec
    (set_camera_info four_cameras 1 (example_slice 30 120 800 600)).2 1
    inhabitant = (true, example_slice 30 120 800 600)
  /\ set_camera_info four_cameras 5 (example_slice 30 120 800 600)
     = (false, four_cameras)
  /\ (get_camera_info MAX_CAMERAS_spec four_cameras 5
        (example_slice 30 120 800 600)).1 = true.
Proof.
  destruct (camera_info_round_trip MAX_CAMERAS_spec four_cameras 1
              (example_slice 30 120 800 600)
              ltac:(cbn; lia) ltac:(cbn; unfold MAX_CAMERAS_spec; lia)
              ltac:(cbn; lia)) as (_ & H1 & _ & H3 & _).
  split; [apply H1|].
  destruct (H3 5 (example_slice 30 120 800 600) (example_slice 30 120 800 600)
              ltac:(cbn; unfold MAX_CAMERAS_spec; lia)) as [Hs Hg].
  split; [exact Hs|]. rewrite Hg. reflexivity.
Defined.

(** ** What every state of a stitcher satisfies *)

(** One call keeps the sizes of the arrays and the bound on the count. *)
Lemma within_capacity_call (MAX : Z) (format_angle : spec_float -> spec_float)
    (XCAM_ALIGN_AROUND : Z -> Z -> Z) (s s' : Stitcher) :
  stitcher_call MAX format_angle XCAM_ALIGN_AROUND s s' ->
  within_capacity MAX s -> within_capacity MAX s'.
Proof.
  unfold within_capacity. intros Hcall.
  inversion Hcall as [s0 num|s0 index info|s0 index info|s0 st]; subst;
    clear Hcall; intros (Hn & H1 & H2 & H3 & H4).
  - unfold set_camera_num. destruct (Z.leb_spec num MAX); cbn; auto.
  - unfold set_camera_info. destruct (negb _); cbn; auto.
    rewrite length_insert. auto.
  - unfold set_crop_info. destruct (negb _); cbn; auto.
    rewrite length_insert. auto.
  - destruct st; cbn [run_stage].
    + destruct (estimate_coarse_crops_frame s) as (l & -> & Hl). cbn.
      rewrite Hl. auto.
    + destruct (mark_centers format_angle XCAM_ALIGN_AROUND s) as [r s1] eqn:Hrun.
      destruct (mark_centers_frame _ _ _ _ _ Hrun)
        as (l & Hl & [[_ ->]|(_ & _ & ->)]); cbn; rewrite Hl; auto.
    + destruct (estimate_overlap s) as [r s1] eqn:Hrun.
      destruct (estimate_overlap_frame _ _ _ Hrun)
        as (l & Hl & [[_ ->]|(_ & _ & ->)]); cbn; rewrite Hl; auto.
    + rewrite update_copy_areas_unfold. destruct (negb _); cbn; auto.
Qed.

(** X3.  In every state that calls of member functions reach from a newly
    constructed stitcher whose arrays have [XCAM_STITCH_MAX_CAMERAS]
    elements, the arrays still have that size and [_camera_num] is at
    most [XCAM_STITCH_MAX_CAMERAS]: every index below [_camera_num], the
    only ones that the setters and the stages use, is an index of the
    arrays. *)
Theorem reachable_within_capacity (MAX : Z)
    (format_angle : spec_float -> spec_float)
    (XCAM_ALIGN_AROUND : Z -> Z -> Z) (align_x align_y : Z)
    (ci : list CameraInfo) (cr : list ImageCropInfo)
    (ov : list ImageOverlapInfo) (cm : list CenterMark) (s : Stitcher) :
  Z.of_nat (length ci) = MAX -> Z.of_nat (length cr) = MAX ->
  Z.of_nat (length ov) = MAX -> Z.of_nat (length cm) = MAX ->
  stitcher_calls MAX format_angle XCAM_ALIGN_AROUND
    (Stitcher_new align_x align_y ci cr ov cm) s ->
  within_capacity MAX s
  /\ forall i, 0 <= i < _camera_num s ->
       (Z.to_nat i < length (_camera_info s))%nat
       /\ (Z.to_nat i < length (_crop_info s))%nat
       /\ (Z.to_nat i < length (_center_marks s))%nat
       /\ (Z.to_nat i < length (_overlap_info s))%nat.
Proof.
  intros H1 H2 H3 H4 Hcalls.
  assert (Hcap : within_capacity MAX s).
  { remember (Stitcher_new align_x align_y ci cr ov cm) as s0 eqn:Hs0.
    induction Hcalls as [s|s s' s'' _ IH Hcall].
    - subst s. unfold within_capacity. cbn. repeat split; auto. lia.
    - eapply within_capacity_call; [exact Hcall|]. apply IH. exact Hs0. }
  split; [exact Hcap|]. destruct Hcap as (Hn & L1 & L2 & L3 & L4).
  intros i Hi. lia.
Qed.

Lemma reachable_within_capacity_witness :
  within_capacity 8
    (set_camera_num 8
       (Stitcher_new 16 16 (replicate 8 inhabitant) (replicate 8 inhabitant)
          (replicate 8 inhabitant) (replicate 8 inhabitant)) 4).2.
Proof.
  refine (proj1 (reachable_within_capacity 8 format_angle_spec
                   ALIGN_AROUND_spec 16 16 (replicate 8 inhabitant)
                   (replicate 8 inhabitant) (replicate 8 inhabitant)
                   (replicate 8 inhabitant) _ _ _ _ _ _));
    try reflexivity.
  eapply calls_more; [apply calls_none|].
  apply (call_set_camera_num 8 format_angle_spec ALIGN_AROUND_spec _ 4).
Defined.

(** One call never clears a completion flag. *)
Lemma flags_kept_call (MAX : Z) (format_angle : spec_float -> spec_float)
    (XCAM_ALIGN_AROUND : Z -> Z -> Z) (s s' : Stitcher) :
  stitcher_call MAX format_angle XCAM_ALIGN_AROUND s s' ->
  (_is_crop_set s = true -> _is_crop_set s' = true)
  /\ (_is_center_marked s = true -> _is_center_marked s' = true)
  /\ (_is_overlap_set s = true -> _is_overlap_set s' = true).
Proof.
  intros Hcall.
  inversion Hcall as [s0 num|s0 index info|s0 index info|s0 st]; subst;
    clear Hcall.
  - unfold set_camera_num. destruct (negb _); cbn; auto.
  - unfold set_camera_info. destruct (negb _); cbn; auto.
  - unfold set_crop_info. destruct (negb _); cbn; auto.
  - destruct st; cbn [run_stage].
    + destruct (estimate_coarse_crops_frame s) as (l & -> & _). cbn. auto.
    + destruct (mark_centers format_angle XCAM_ALIGN_AROUND s) as [r s1] eqn:Hrun.
      destruct (mark_centers_frame _ _ _ _ _ Hrun)
        as (l & _ & [[_ ->]|(_ & Hoff & ->)]); cbn; auto.
    + destruct (estimate_overlap s) as [r s1] eqn:Hrun.
      destruct (estimate_overlap_frame _ _ _ Hrun)
        as (l & _ & [[_ ->]|(_ & Hoff & ->)]); cbn; auto.
    + rewrite update_copy_areas_unfold. destruct (negb _); cbn; auto.
Qed.

(** X4.  No member function clears a completion flag, whatever it is
    called with: once a stage has completed, no later [set_camera_num],
    [set_camera_info], [set_crop_info] or stage makes it run again.  After
    any such calls [estimate_coarse_crops], [mark_centers] and
    [estimate_overlap] return success and leave the state, with the values
    computed for the earlier configuration, as it is. *)
Theorem completed_stage_stays_completed (MAX : Z)
    (format_angle : spec_float -> spec_float)
    (XCAM_ALIGN_AROUND : Z -> Z -> Z) (s s' : Stitcher) :
  stitcher_calls MAX format_angle XCAM_ALIGN_AROUND s s' ->
  (_is_crop_set s = true ->
   _is_crop_set s' = true
   /\ estimate_coarse_crops s' = (XCAM_RETURN_NO_ERROR, s'))
  /\ (_is_center_marked s = true ->
      _is_center_marked s' = true
      /\ mark_centers format_angle XCAM_ALIGN_AROUND s'
         = (XCAM_RETURN_NO_ERROR, s'))
  /\ (_is_overlap_set s = true ->
      _is_overlap_set s' = true
      /\ estimate_overlap s' = (XCAM_RETURN_NO_ERROR, s')).
Proof.
  intros Hcalls.
  assert (Hflags :
    (_is_crop_set s = true -> _is_crop_set s' = true)
    /\ (_is_center_marked s = true -> _is_center_marked s' = true)
    /\ (_is_overlap_set s = true -> _is_overlap_set s' = true)).
  { induction Hcalls as [s|s s' s'' _ IH Hcall]; [auto|].
    destruct IH as (I1 & I2 & I3).
    destruct (flags_kept_call _ _ _ _ _ Hcall) as (K1 & K2 & K3). auto. }
  destruct Hflags as (F1 & F2 & F3). split; [|split]; intros H.
  - split; [auto|]. unfold estimate_coarse_crops. rewrite (F1 H). reflexivity.
  - split; [auto|]. unfold mark_centers. rewrite (F2 H). reflexivity.
  - split; [auto|]. unfold estimate_overlap. rewrite (F3 H). reflexivity.
Qed.

Lemma completed_stage_stays_completed_witness :
  let s' := (set_camera_info four_cameras_done 0
               (example_slice 100 100 1200 1000)).2 in
  slice_view (_camera_info s' !!! 0%nat)
  <> slice_view (_camera_info four_cameras_done !!! 0%nat)
  /\ mark_centers format_angle_spec ALIGN_AROUND_spec s'
     = (XCAM_RETURN_NO_ERROR, s')
  /\ estimate_overlap s' = (XCAM_RETURN_NO_ERROR, s').
Proof.
  cbv zeta. split; [vm_compute; discriminate|].
  destruct (completed_stage_stays_completed 8 format_angle_spec
              ALIGN_AROUND_spec four_cameras_done
              (set_camera_info four_cameras_done 0
                 (example_slice 100 100 1200 1000)).2) as (_ & H2 & H3).
  { eapply calls_more; [apply calls_none|].
    apply (call_set_camera_info 8 format_angle_spec ALIGN_AROUND_spec). }
  split; [apply H2|apply H3]; reflexivity.
Defined.

(** ** Crop resolution *)

(** X5.  [estimate_coarse_crops] never fails.  When the crop flag is not
    yet set it zeroes the four margins of exactly the cameras below
    [_camera_num], leaves the array entries beyond them and every other
    member as it was, and sets the crop flag; with no camera configured it
    only sets the flag. *)
Theorem estimate_coarse_crops_effect (s : Stitcher) :
  _is_crop_set s = false ->
  exists l,
    estimate_coarse_crops s
    = (XCAM_RETURN_NO_ERROR, set_is_crop_set (set_crop_info_field s l) true)
    /\ length l = length (_crop_info s)
    /\ (forall k, 0 <= k < _camera_num s ->
          (Z.to_nat k < length (_crop_info s))%nat ->
          l !! Z.to_nat k = Some (mkCrop 0 0 0 0))
    /\ (forall j : nat, _camera_num s <= Z.of_nat j ->
          l !! j = _crop_info s !! j)
    /\ (_camera_num s <= 0 -> l = _crop_info s).
Proof.
  intros Hflag. unfold estimate_coarse_crops. rewrite Hflag.
  pose proof (for_cameras_no_error estimate_coarse_crops_camera
                (fun _ _ => eq_refl) (Z.to_nat (_camera_num s)) 0 s) as Hok.
  destruct (for_cameras _ _ _ _) as [r s1] eqn:Hrun. cbn in Hok. subst r.
  set (P := fun i st =>
    0 <= i /\ exists l,
      st = set_crop_info_field s l
      /\ length l = length (_crop_info s)
      /\ (forall k, 0 <= k < i ->
            (Z.to_nat k < length (_crop_info s))%nat ->
            l !! Z.to_nat k = Some (mkCrop 0 0 0 0))
      /\ (forall j : nat, i <= Z.of_nat j -> l !! j = _crop_info s !! j)).
  assert (Hstep : forall i st st',
    P i st -> estimate_coarse_crops_camera i st = (XCAM_RETURN_NO_ERROR, st') ->
    P (i + 1) st').
  { intros i st st' [Hi (l & -> & Hl & Hset & Hrest)] Hb.
    unfold estimate_coarse_crops_camera in Hb. inversion Hb; subst st'; clear Hb.
    split; [lia|]. eexists. split; [reflexivity|].
    cbn [_crop_info set_crop_info_field]. rewrite length_insert.
    split; [exact Hl|]. split.
    - intros k Hk Hlen. destruct (decide (k = i)) as [->|Hne].
      + apply list_lookup_insert_eq. lia.
      + rewrite list_lookup_insert_ne by lia. apply Hset; [lia|exact Hlen].
    - intros j Hj. rewrite list_lookup_insert_ne by lia. apply Hrest. lia. }
  assert (Hinit : P 0 s).
  { split; [lia|]. exists (_crop_info s). rewrite set_crop_info_field_same.
    repeat split; auto; intros; lia. }
  destruct (for_cameras_inv_idx P (fun _ _ _ => False)
              estimate_coarse_crops_camera Hstep
              ltac:(intros i st r st' _ Hb Hne;
                    unfold estimate_coarse_crops_camera in Hb;
                    inversion Hb; congruence)
              _ _ _ _ _ Hinit Hrun) as [[_ [_ H]]|[_ (k & _ & [])]].
  destruct H as (l & -> & Hl & Hset & Hrest). exists l.
  split; [reflexivity|]. split; [exact Hl|]. split; [|split].
  - intros k Hk. apply Hset. lia.
  - intros j Hj. apply Hrest. lia.
  - intros Hzero. apply list_eq. intros j. apply Hrest. lia.
Qed.

Lemma estimate_coarse_crops_effect_witness :
  exists l,
    estimate_coarse_crops four_cameras
    = (XCAM_RETURN_NO_ERROR,
       set_is_crop_set (set_crop_info_field four_cameras l) true)
    /\ l !! 3%nat = Some (mkCrop 0 0 0 0).
Proof.
  destruct (estimate_coarse_crops_effect four_cameras ltac:(reflexivity))
    as (l & Hrun & _ & Hset & _).
  exists l. split; [exact Hrun|].
  apply (Hset 3); [cbn; lia|cbn; lia].
Defined.

(** ** Center marking *)

(** X6.  The result of a first [mark_centers] is decided by the camera
    count and by the field-of-view test alone: it is the ordering error
    exactly when no camera is configured, the parameter error exactly when
    there are cameras and the center of one of them falls outside the
    horizontal range of its slice, and success exactly when there are
    cameras and all of them pass the test.  It never returns the unknown
    error. *)
Theorem mark_centers_result (format_angle : spec_float -> spec_float)
    (XCAM_ALIGN_AROUND : Z -> Z -> Z) (s : Stitcher) :
  _is_center_marked s = false ->
  let r := (mark_centers format_angle XCAM_ALIGN_AROUND s).1 in
  let passes k :=
    center_in_slice_range format_angle XCAM_ALIGN_AROUND s k = true in
  (r = XCAM_RETURN_ERROR_ORDER <-> _camera_num s <= 0)
  /\ (r = XCAM_RETURN_ERROR_PARAM <->
        0 < _camera_num s
        /\ exists k, 0 <= k < _camera_num s /\ ~ passes k)
  /\ (r = XCAM_RETURN_NO_ERROR <->
        0 < _camera_num s /\ forall k, 0 <= k < _camera_num s -> passes k)
  /\ r <> XCAM_RETURN_ERROR_UNKNOWN.
Proof.
  intros Hflag r passes. subst r. unfold mark_centers. rewrite Hflag.
  destruct (Z.ltb_spec 0 (_camera_num s)) as [Hnum|Hnum]; cbn [negb fst].
  2:{ repeat split; intros; try lia; try discriminate; tauto. }
  destruct (for_cameras _ _ _ _) as [r1 s1] eqn:Hrun.
  set (body := mark_centers_camera format_angle XCAM_ALIGN_AROUND) in *.
  assert (Hbody : forall i l,
    body i (set_center_marks s l)
    = if negb (center_in_slice_range format_angle XCAM_ALIGN_AROUND s i)
      then (XCAM_RETURN_ERROR_PARAM, set_center_marks s l)
      else (XCAM_RETURN_NO_ERROR,
            set_center_marks s
              (<[Z.to_nat i :=
                   mkCenterMark
                     (mark_slice_pos format_angle XCAM_ALIGN_AROUND s i)
                     (mark_out_pos_snapped format_angle s i)]> l)))
    by reflexivity.
  set (P := fun i st =>
    0 <= i /\ (exists l, st = set_center_marks s l)
    /\ forall k, 0 <= k < i -> passes k).
  assert (Hstep : forall i st st',
    P i st -> body i st = (XCAM_RETURN_NO_ERROR, st') -> P (i + 1) st').
  { intros i st st' (Hi & (l & ->) & Hall) Hb. rewrite Hbody in Hb.
    destruct (center_in_slice_range _ _ s i) eqn:Hc; cbn [negb] in Hb;
      inversion Hb; subst st'.
    split; [lia|]. split; [eexists; reflexivity|].
    intros k Hk. destruct (decide (k = i)) as [->|]; [exact Hc|].
    apply Hall. lia. }
  assert (Hexit : forall i st r0 st',
    P i st -> body i st = (r0, st') -> r0 <> XCAM_RETURN_NO_ERROR ->
    r0 = XCAM_RETURN_ERROR_PARAM /\ ~ passes i).
  { intros i st r0 st' (Hi & (l & ->) & Hall) Hb Hne. rewrite Hbody in Hb.
    unfold passes.
    destruct (center_in_slice_range _ _ s i) eqn:Hc; cbn [negb] in Hb;
      inversion Hb; subst; [congruence|]. split; [reflexivity|discriminate]. }
  assert (Hinit : P 0 s).
  { split; [lia|]. split; [exists (_center_marks s);
      symmetry; apply set_center_marks_same|]. intros; lia. }
  destruct (for_cameras_inv_idx P
              (fun k r _ => r = XCAM_RETURN_ERROR_PARAM /\ ~ passes k)
              body Hstep Hexit _ _ _ _ _ Hinit Hrun)
    as [[-> (_ & _ & Hall)]|[_ (k & Hk & -> & Hfail)]]; cbn [fst].
  - assert (Hall' : forall k, 0 <= k < _camera_num s -> passes k)
      by (intros; apply Hall; lia).
    repeat split; intros; try discriminate; try lia; auto.
    destruct H as (_ & k & Hk & Hno). exfalso. apply Hno. apply Hall'. exact Hk.
  - repeat split; intros; try discriminate; try lia.
    + exists k. split; [lia|exact Hfail].
    + destruct H as [_ Hall]. exfalso. apply Hfail. apply Hall. lia.
Qed.

Lemma mark_centers_result_witness :
  (mark_centers format_angle_spec ALIGN_AROUND_spec second_camera_astray).1
  = XCAM_RETURN_ERROR_PARAM
  /\ exists k, 0 <= k < 2
               /\ center_in_slice_range format_angle_spec ALIGN_AROUND_spec
                    second_camera_astray k <> true.
Proof.
  destruct (mark_centers_result format_angle_spec ALIGN_AROUND_spec
              second_camera_astray ltac:(reflexivity)) as (_ & H & _).
  cbv zeta in H. split; [reflexivity|].
  destruct (proj1 H ltac:(reflexivity)) as (_ & k & Hk & Hno).
  exists k. split; [exact Hk|exact Hno].
Defined.

(** X7.  Every output center that a successful [mark_centers] stores is a
    [uint32_t] that is either 0, the seam, or at least [2 * _alignment_x]
    columns away from both ends of the output (the distances as the code
    computes them, in [uint32_t]): no center is left close to the seam
    without being on it. *)
Theorem marked_centers_snapped (format_angle : spec_float -> spec_float)
    (XCAM_ALIGN_AROUND : Z -> Z -> Z) (s s' : Stitcher) :
  _is_center_marked s = false ->
  mark_centers format_angle XCAM_ALIGN_AROUND s = (XCAM_RETURN_NO_ERROR, s') ->
  forall k, 0 <= k < _camera_num s ->
    (Z.to_nat k < length (_center_marks s))%nat ->
    let c := out_center_x (_center_marks s' !!! Z.to_nat k) in
    let constraint_margin := uint32_t (2 * _alignment_x s) in
    0 <= c < 4294967296
    /\ (c = 0
        \/ (constraint_margin <= c
            /\ constraint_margin <= uint32_t (_output_width s - c))).
Proof.
  intros Hflag Hrun k Hk Hlen.
  destruct (mark_centers_success _ _ _ _ Hflag Hrun) as (_ & l & -> & _ & Hset).
  cbn [_center_marks set_is_center_marked set_center_marks].
  rewrite (list_lookup_total_correct _ _ _ (Hset k Hk Hlen)).
  cbn [out_center_x]. cbv zeta.
  split; [apply mark_out_pos_snapped_range|].
  unfold mark_out_pos_snapped.
  destruct (Z.ltb_spec
              (uint32_t (_output_width s - mark_out_pos format_angle s k))
              (uint32_t (2 * _alignment_x s)));
    destruct (Z.ltb_spec (mark_out_pos format_angle s k)
                (uint32_t (2 * _alignment_x s)));
    cbn [orb]; auto.
Qed.

Lemma marked_centers_snapped_witness :
  out_center_x (_center_marks four_cameras_marked !!! 2%nat) = 0
  \/ (uint32_t (2 * 16)
      <= out_center_x (_center_marks four_cameras_marked !!! 2%nat)
      /\ uint32_t (2 * 16)
         <= uint32_t (3600 - out_center_x
                               (_center_marks four_cameras_marked !!! 2%nat))).
Proof.
  exact (proj2 (marked_centers_snapped format_angle_spec ALIGN_AROUND_spec
                  four_cameras_cropped four_cameras_marked
                  ltac:(reflexivity) ltac:(vm_compute; reflexivity) 2
                  ltac:(cbn; lia) ltac:(cbn; lia))).
Defined.

(** ** Overlap estimation *)

(** X9.  The overlap bands that a successful [estimate_overlap] stores are
    flush with the crop margins, in the [int32_t] arithmetic of the code:
    the band in the left image ends at the right crop margin of the left
    camera ([width - crop.right]), the band in the right image starts at
    the left crop margin of the right camera, and the band in the output
    ends as far right of the left output center as the left valid band is
    wide.  The left and the output band take their rows from the left
    camera's crop, the right band from the right camera's. *)
Theorem stored_overlap_bands (s s' : Stitcher) :
  _is_overlap_set s = false ->
  estimate_overlap s = (XCAM_RETURN_NO_ERROR, s') ->
  forall idx, 0 <= idx < _camera_num s ->
    (Z.to_nat idx < length (_overlap_info s))%nat ->
    let ov := _overlap_info s' !!! Z.to_nat idx in
    let next_idx := next_index s idx in
    let left := slice_view (_camera_info s !!! Z.to_nat idx) in
    let right := slice_view (_camera_info s !!! Z.to_nat next_idx) in
    let left_center := _center_marks s !!! Z.to_nat idx in
    let left_img_crop := _crop_info s !!! Z.to_nat idx in
    let right_img_crop := _crop_info s !!! Z.to_nat next_idx in
    int32_t (pos_x (ov_left ov) + width (ov_left ov))
    = int32_t (slice_width left - crop_right left_img_crop)
    /\ pos_x (ov_right ov) = int32_t (crop_left right_img_crop)
    /\ int32_t (pos_x (ov_out_area ov) + width (ov_out_area ov))
       = int32_t (out_center_x left_center
                  + (slice_width left - crop_right left_img_crop
                     - slice_center_x left_center))
    /\ pos_y (ov_left ov) = int32_t (crop_top left_img_crop)
    /\ height (ov_left ov)
       = int32_t (slice_height left - crop_top left_img_crop
                  - crop_bottom left_img_crop)
    /\ pos_y (ov_out_area ov) = pos_y (ov_left ov)
    /\ height (ov_out_area ov) = height (ov_left ov)
    /\ pos_y (ov_right ov) = int32_t (crop_top right_img_crop)
    /\ height (ov_right ov)
       = int32_t (slice_height right - crop_top right_img_crop
                  - crop_bottom right_img_crop).
Proof.
  intros Hflag Hrun idx Hidx Hlen.
  destruct (estimate_overlap_success _ _ Hflag Hrun)
    as (l & -> & _ & _ & Hset).
  cbn [_overlap_info set_is_overlap_set set_overlap_info_field].
  rewrite (list_lookup_total_correct _ _ _ (Hset idx Hidx Hlen)).
  unfold overlap_of_pair, overlap_width, merge_width, valid_left_img,
    valid_right_img.
  cbn [ov_left ov_right ov_out_area pos_x pos_y width height].
  repeat split; unwrap32; lia.
Qed.

Lemma stored_overlap_bands_witness :
  let ov := _overlap_info four_cameras_overlapped !!! 0%nat in
  int32_t (pos_x (ov_left ov) + width (ov_left ov)) = int32_t (1200 - 0)
  /\ pos_x (ov_right ov) = int32_t 0.
Proof.
  pose proof (stored_overlap_bands four_cameras_marked four_cameras_overlapped
                ltac:(reflexivity) ltac:(vm_compute; reflexivity) 0
                ltac:(cbn; lia) ltac:(cbn; lia)) as H.
  cbv zeta in H. destruct H as (H1 & H2 & _). cbv zeta. split.
  - exact H1.
  - exact H2.
Defined.

(** ** Copy-area synthesis *)

(** A property of copy areas that merging keeps holds for everything the
    greedy pass emits. *)
Lemma merge_list_Forall (P : CopyArea -> Prop) (l : CopyAreaArray)
    (merged : CopyArea) :
  (forall c n m0 m, P c -> P n -> merge_neighbor_area c n m0 = (true, m) ->
                    P m) ->
  Forall P l -> Forall P (merge_list l merged).
Proof.
  intros Hmerge. remember (length l) as n eqn:Hn. revert l merged Hn.
  induction n as [n IH] using lt_wf_ind. intros l merged Hn Hall.
  destruct l as [|current [|next rest]]; cbn [length] in Hn;
    [constructor|exact Hall|].
  rewrite merge_list_step.
  apply Forall_cons in Hall as [Hcur Hall].
  pose proof Hall as Hall'. apply Forall_cons in Hall' as [Hnext Hrest].
  destruct (merge_neighbor_area current next merged) as [[|] m] eqn:Hm.
  - assert (Hlt : (length rest < n)%nat) by lia.
    constructor; [exact (Hmerge _ _ _ _ Hcur Hnext Hm)|].
    apply (IH (length rest) Hlt rest m eq_refl Hrest).
  - assert (Hlt : (length (next :: rest) < n)%nat) by (cbn [length]; lia).
    constructor; [exact Hcur|].
    apply (IH (length (next :: rest)) Hlt (next :: rest) m eq_refl Hall).
Qed.

(** The pass emits at most as many areas as it visits. *)
Lemma merge_list_length_le (l : CopyAreaArray) (merged : CopyArea) :
  (length (merge_list l merged) <= length l)%nat.
Proof.
  remember (length l) as n eqn:Hn. revert l merged Hn.
  induction n as [n IH] using lt_wf_ind. intros l merged Hn.
  destruct l as [|current [|next rest]]; cbn [length] in Hn;
    [cbn; lia|cbn; lia|].
  rewrite merge_list_step.
  destruct (merge_neighbor_area current next merged) as [[|] m];
    cbn [length].
  - assert (Hlt : (length rest < n)%nat) by lia.
    specialize (IH (length rest) Hlt rest m eq_refl). lia.
  - assert (Hlt : (length (next :: rest) < n)%nat) by (cbn [length]; lia).
    specialize (IH (length (next :: rest)) Hlt (next :: rest) m eq_refl).
    cbn [length] in IH. lia.
Qed.

(** A property of copy areas that the candidates have and that splitting
    keeps holds for all of [tmp_areas]. *)
Lemma tmp_areas_Forall (P : CopyArea -> Prop) (s : Stitcher) :
  (forall i, 0 <= i < _camera_num s ->
     P (left_copy_area s i) /\ P (right_copy_area s i)) ->
  (forall area rw a b a' b', P area ->
     split_area_by_out area rw a b = (true, a', b') -> P a' /\ P b') ->
  Forall P (tmp_areas_of s).
Proof.
  intros Hcand Hsplit. unfold tmp_areas_of.
  destruct (for_cameras _ _ _ _) as [r tmp] eqn:Hrun. cbn [snd].
  assert (Hpush : forall area st,
    P area -> Forall P st.1.1 ->
    Forall P (push_split area (_output_width s) st).1.1).
  { intros area [[tmp0 a] b] Harea Hall. unfold push_split. cbn [fst] in Hall.
    destruct (split_area_by_out area (_output_width s) a b)
      as [[[|] a'] b'] eqn:Hs; cbn [fst].
    - destruct (Hsplit _ _ _ _ _ _ Harea Hs) as [Ha Hb].
      apply Forall_app. split; [exact Hall|].
      constructor; [exact Ha|]. constructor; [exact Hb|]. constructor.
    - apply Forall_app. split; [exact Hall|].
      constructor; [exact Harea|]. constructor. }
  assert (Hstep : forall i st st',
    i < Z.of_nat (Z.to_nat (_camera_num s)) ->
    0 <= i /\ Forall P st ->
    update_copy_areas_camera s i st = (XCAM_RETURN_NO_ERROR, st') ->
    0 <= i + 1 /\ Forall P st').
  { intros i st st' Hi [Hi0 Hall] Hb.
    destruct (Hcand i ltac:(lia)) as [Hl Hr].
    assert (Hst : st' = (push_split (right_copy_area s i) (_output_width s)
                           (push_split (left_copy_area s i) (_output_width s)
                              (st, inhabitant, inhabitant))).1.1)
      by (unfold update_copy_areas_camera in Hb; cbv zeta in Hb;
          exact (eq_sym (f_equal snd Hb))).
    rewrite Hst. split; [lia|]. apply Hpush; [exact Hr|].
    apply Hpush; [exact Hl|]. exact Hall. }
  assert (Hhi : 0 + Z.of_nat (Z.to_nat (_camera_num s))
                <= Z.of_nat (Z.to_nat (_camera_num s))) by lia.
  destruct (for_cameras_inv_upto (fun i st => 0 <= i /\ Forall P st)
              (fun _ _ _ => False) (update_copy_areas_camera s) _ Hstep
              ltac:(intros i st r0 st' _ _ Hb Hne;
                    unfold update_copy_areas_camera in Hb;
                    inversion Hb; congruence)
              _ _ _ _ _ Hhi (conj (Z.le_refl 0) (Forall_nil_2 P)) Hrun)
    as [[_ [_ H]]|[_ (k & _ & [])]].
  exact H.
Qed.

(** Such a property holds for every copy area that one call of
    [update_copy_areas] appends. *)
Lemma fresh_copy_areas_Forall (P : CopyArea -> Prop) (s : Stitcher) :
  4 * _camera_num s <= INT32_MAX ->
  (forall i, 0 <= i < _camera_num s ->
     P (left_copy_area s i) /\ P (right_copy_area s i)) ->
  (forall area rw a b a' b', P area ->
     split_area_by_out area rw a b = (true, a', b') -> P a' /\ P b') ->
  (forall c n m0 m, P c -> P n -> merge_neighbor_area c n m0 = (true, m) ->
                    P m) ->
  Forall P (fresh_copy_areas s).
Proof.
  unfold INT32_MAX. intros Hmax Hcand Hsplit Hmerge.
  pose proof (tmp_areas_Forall P s Hcand Hsplit) as Hall.
  pose proof (tmp_areas_length s (Z.to_nat (_camera_num s))) as Hlen.
  cbv zeta in Hlen. fold (tmp_areas_of s) in Hlen. unfold fresh_copy_areas.
  set (tmp := tmp_areas_of s) in *.
  rewrite merge_tmp_areas_merge_list by (unfold INT32_MAX; lia).
  destruct (2 <? Z.of_nat (length tmp)) eqn:H2;
    [|apply merge_list_Forall; assumption].
  apply Z.ltb_lt in H2.
  destruct (merge_neighbor_area _ _ _) as [[|] m] eqn:Hm;
    [|apply merge_list_Forall; assumption].
  pose proof (first_middle_last tmp ltac:(lia)) as Hparts.
  rewrite Hparts in Hall. apply Forall_cons in Hall as [Hfirst Hall].
  apply Forall_app in Hall as [Hmid Hlast].
  apply Forall_cons in Hlast as [Hlast _].
  constructor; [eapply Hmerge; [exact Hlast|exact Hfirst|exact Hm]|].
  apply merge_list_Forall; assumption.
Qed.

(** X10.  Every copy area that [update_copy_areas] produces reads from a
    configured camera: if the source indices of the copy areas stored
    before a successful call are below [_camera_num], so are those of all
    copy areas stored after it. *)
Theorem copy_areas_source_index (s s' : Stitcher) :
  update_copy_areas s = (XCAM_RETURN_NO_ERROR, s') ->
  4 * _camera_num s <= INT32_MAX ->
  Forall (fun a => 0 <= in_idx a < _camera_num s) (_copy_areas s) ->
  Forall (fun a => 0 <= in_idx a < _camera_num s) (_copy_areas s').
Proof.
  intros Hrun Hmax Hold. rewrite update_copy_areas_unfold in Hrun.
  destruct (negb _); inversion Hrun; subst s'; clear Hrun.
  cbn [_copy_areas set_copy_areas]. apply Forall_app. split; [exact Hold|].
  apply fresh_copy_areas_Forall; [exact Hmax| | |].
  - intros i Hi. unfold left_copy_area, right_copy_area. cbn [in_idx].
    split; [lia|].
    apply next_index_range; [exact Hi|unfold INT32_MAX in Hmax; lia].
  - intros area rw a b a' b' Harea Hs. unfold split_area_by_out in Hs.
    destruct (_ >? _); inversion Hs; subst. cbn [in_idx set_in_area set_out_area].
    auto.
  - intros c n m0 m Hc Hn Hm. unfold merge_neighbor_area in Hm.
    destruct (_ && _); inversion Hm; subst.
    cbn [in_idx set_in_area set_out_area]. exact Hc.
Qed.

Lemma copy_areas_source_index_witness :
  Forall (fun a => 0 <= in_idx a < 4) (_copy_areas four_cameras_done).
Proof.
  apply (copy_areas_source_index four_cameras_overlapped four_cameras_done).
  - reflexivity.
  - vm_compute. discriminate.
  - constructor.
Defined.

(** X11.  Copy areas copy pixel for pixel: every copy area that
    [update_copy_areas] produces has a destination rectangle of the width
    and height of its source rectangle, starting at row 0; splitting at
    the seam and merging keep that. *)
Theorem copy_areas_same_size (s s' : Stitcher) :
  update_copy_areas s = (XCAM_RETURN_NO_ERROR, s') ->
  4 * _camera_num s <= INT32_MAX ->
  Forall same_size (_copy_areas s) ->
  Forall same_size (_copy_areas s').
Proof.
  intros Hrun Hmax Hold. rewrite update_copy_areas_unfold in Hrun.
  destruct (negb _); inversion Hrun; subst s'; clear Hrun.
  cbn [_copy_areas set_copy_areas]. apply Forall_app. split; [exact Hold|].
  apply fresh_copy_areas_Forall; [exact Hmax| | |].
  - intros i Hi. unfold same_size, left_copy_area, right_copy_area.
    cbn [in_area out_area width height pos_y]. auto.
  - intros area rw a b a' b' (H1 & H2 & H3) Hs. unfold split_area_by_out in Hs.
    destruct (_ >? _); inversion Hs; subst. unfold same_size.
    cbn [in_area out_area set_in_area set_out_area set_width set_pos_x
         width height pos_y]. auto.
  - intros c n m0 m (C1 & C2 & C3) (N1 & N2 & N3) Hm.
    unfold merge_neighbor_area in Hm.
    destruct (_ && _); inversion Hm; subst. unfold same_size.
    cbn [in_area out_area set_in_area set_out_area set_width set_pos_x
         width height pos_y]. rewrite C1, N1. auto.
Qed.

Lemma copy_areas_same_size_witness :
  Forall same_size (_copy_areas four_cameras_done).
Proof.
  apply (copy_areas_same_size four_cameras_overlapped four_cameras_done).
  - reflexivity.
  - vm_compute. discriminate.
  - constructor.
Defined.

(** X12.  One successful call of [update_copy_areas] appends at most four
    copy areas per camera to [_copy_areas] (two candidates, each split at
    most once) and removes none. *)
Theorem copy_area_count_upper (s s' : Stitcher) :
  update_copy_areas s = (XCAM_RETURN_NO_ERROR, s') ->
  0 <= 4 * _camera_num s <= INT32_MAX ->
  exists fresh,
    _copy_areas s' = _copy_areas s ++ fresh
    /\ Z.of_nat (length fresh) <= 4 * _camera_num s.
Proof.
  unfold INT32_MAX. intros Hrun Hmax. rewrite update_copy_areas_unfold in Hrun.
  destruct (negb _); inversion Hrun; subst s'; clear Hrun.
  exists (fresh_copy_areas s). split; [reflexivity|].
  pose proof (tmp_areas_length s (Z.to_nat (_camera_num s))) as Hlen.
  cbv zeta in Hlen. fold (tmp_areas_of s) in Hlen. unfold fresh_copy_areas.
  set (tmp := tmp_areas_of s) in *.
  rewrite merge_tmp_areas_merge_list by (unfold INT32_MAX; lia).
  destruct (2 <? Z.of_nat (length tmp)) eqn:H2.
  - apply Z.ltb_lt in H2. destruct (merge_neighbor_area _ _ _) as [[|] m].
    + pose proof (merge_list_length_le (middle_areas tmp) m) as H.
      assert (Hmid : length (middle_areas tmp) = (length tmp - 2)%nat)
        by (unfold middle_areas; rewrite length_drop, length_take; lia).
      cbn [length]. lia.
    + pose proof (merge_list_length_le tmp m). lia.
  - pose proof (merge_list_length_le tmp inhabitant). lia.
Qed.

Lemma copy_area_count_upper_witness :
  exists fresh,
    _copy_areas four_cameras_done
    = _copy_areas four_cameras_overlapped ++ fresh
    /\ Z.of_nat (length fresh) <= 4 * 4.
Proof.
  apply (copy_area_count_upper four_cameras_overlapped four_cameras_done).
  - reflexivity.
  - vm_compute. split; discriminate.
Defined.

(** X13.  The two pieces of a split are final.  For an area that
    satisfies the range assertions of [split_area_by_out], has equal
    source and destination widths and reaches beyond [round_width]: the
    first piece ends exactly at column [round_width], both pieces lie
    inside the output, [split_area_by_out] leaves each of them unsplit,
    and [merge_neighbor_area] never joins them again, although they are
    contiguous in the source. *)
Theorem split_pieces_settled (area : CopyArea) (round_width : Z)
    (a0 b0 : CopyArea) :
  0 <= round_width < 4294967296 ->
  0 <= pos_x (out_area area) < int32_t round_width ->
  0 < width (out_area area) < int32_t round_width ->
  width (in_area area) = width (out_area area) ->
  no_overflow (pos_x (out_area area)) (width (out_area area)) ->
  round_width < pos_x (out_area area) + width (out_area area) ->
  let r := split_area_by_out area round_width a0 b0 in
  let split_a := r.1.2 in
  let split_b := r.2 in
  in_frame round_width (out_area split_a)
  /\ pos_x (out_area split_a) + width (out_area split_a) = round_width
  /\ in_frame round_width (out_area split_b)
  /\ (forall x y, split_area_by_out split_a round_width x y = (false, x, y))
  /\ (forall x y, split_area_by_out split_b round_width x y = (false, x, y))
  /\ (forall m, merge_neighbor_area split_a split_b m = (false, m)).
Proof.
  intros Hrw Hp Hw Heq Hno Hbeyond. unfold no_overflow, INT32_MAX in *.
  assert (Hr : int32_t round_width = round_width).
  { destruct (int32_t_spec round_width) as (k & E & B). lia. }
  rewrite Hr in *.
  assert (HW : 0 <= round_width <= INT32_MAX) by (unfold INT32_MAX; lia).
  set (cut := round_width - pos_x (out_area area)).
  assert (Hsplit : split_area_by_out area round_width a0 b0
    = (true,
       mkCopyArea (in_idx area) (set_width (in_area area) cut)
         (set_width (out_area area) cut),
       mkCopyArea (in_idx area)
         (mkRect (int32_t (pos_x (in_area area) + cut)) (pos_y (in_area area))
            (width (in_area area) - cut) (height (in_area area)))
         (mkRect 0 (pos_y (out_area area)) (width (in_area area) - cut)
            (height (out_area area))))).
  { unfold split_area_by_out. rewrite Hr.
    rewrite (int32_t_id (pos_x (out_area area) + width (out_area area)))
      by (unfold INT32_MAX; lia).
    destruct (Z.gtb_spec (pos_x (out_area area) + width (out_area area))
                round_width) as [_|Hle]; [|lia].
    cbn [fst snd set_in_area set_out_area set_width set_pos_x
         in_idx in_area out_area pos_x pos_y width height].
    fold cut. rewrite (int32_t_id cut) by (unfold INT32_MAX, cut; lia).
    rewrite (int32_t_id (width (in_area area) - cut))
      by (unfold INT32_MAX, cut; lia).
    reflexivity. }
  cbv zeta. rewrite Hsplit.
  cbn [fst snd]. clear Hsplit.
  set (split_a := mkCopyArea _ (set_width (in_area area) cut) _).
  set (split_b := mkCopyArea _ (mkRect _ _ _ _) _).
  assert (Ha : in_frame round_width (out_area split_a))
    by (unfold in_frame, split_a, cut;
        cbn [set_width out_area pos_x width]; lia).
  assert (Hb : in_frame round_width (out_area split_b))
    by (unfold in_frame, split_b, cut; cbn [out_area pos_x width]; lia).
  split; [exact Ha|]. split.
  { unfold split_a, cut. cbn [set_width out_area pos_x width]. lia. }
  split; [exact Hb|]. split; [|split].
  - intros x y. apply split_area_by_out_in_frame; assumption.
  - intros x y. apply split_area_by_out_in_frame; assumption.
  - intros m. unfold merge_neighbor_area, split_a, split_b.
    cbn [set_width in_idx in_area out_area pos_x width].
    rewrite (int32_t_id (pos_x (out_area area) + cut))
      by (unfold INT32_MAX, cut; lia).
    destruct (Z.eqb_spec (pos_x (out_area area) + cut) 0) as [E|_];
      [unfold cut in E; lia|].
    rewrite andb_false_r. reflexivity.
Qed.

Lemma split_pieces_settled_witness :
  let area := mkCopyArea 1 (mkRect 3 0 10 4) (mkRect 25 0 10 4) in
  let r := split_area_by_out area 32 inhabitant inhabitant in
  in_frame 32 (out_area r.1.2)
  /\ pos_x (out_area r.1.2) + width (out_area r.1.2) = 32
  /\ in_frame 32 (out_area r.2)
  /\ (forall x y, split_area_by_out r.1.2 32 x y = (false, x, y))
  /\ (forall x y, split_area_by_out r.2 32 x y = (false, x, y))
  /\ (forall m, merge_neighbor_area r.1.2 r.2 m = (false, m)).
Proof.
  intros area.
  apply (split_pieces_settled area 32 inhabitant inhabitant);
    vm_compute; try split; congruence || reflexivity.
Defined.



(** ** The run of the four stages *)

Lemma sum_cameras_scale (a : Z) (f : Z -> Z) (n : nat) :
  sum_cameras (fun i => a * f i) n = a * sum_cameras f n.
Proof. induction n as [|n IH]; cbn [sum_cameras]; lia. Qed.

Lemma sum_cameras_pos (f : Z -> Z) (n : nat) :
  (forall i, 0 <= i < Z.of_nat n -> 0 < f i) -> (0 < n)%nat ->
  0 < sum_cameras f n.
Proof.
  induction n as [|n IH]; intros H Hn; [lia|]. cbn [sum_cameras].
  assert (Hlast : 0 < f (Z.of_nat n)) by (apply H; lia).
  destruct n as [|n]; [cbn [sum_cameras]; lia|].
  assert (Hrest : 0 < sum_cameras f (S n)) by (apply IH; [intros; apply H|]; lia).
  lia.
Qed.

(** The state that a successful run hands to [update_copy_areas], and what
    that stage adds to it. *)
Lemma stages_run_state (format_angle : spec_float -> spec_float)
    (XCAM_ALIGN_AROUND : Z -> Z -> Z) (s0 s1 s2 s3 s4 : Stitcher) :
  stages_run format_angle XCAM_ALIGN_AROUND s0 s1 s2 s3 s4 ->
  arrays_fit s0 ->
  overflow_free s0 ->
  1 < _camera_num s3
  /\ overflow_free s3
  /\ _output_width s3 = _output_width s0
  /\ (forall k, 0 <= k < _camera_num s3 ->
        _overlap_info s3 !! Z.to_nat k = Some (overlap_of_pair s3 k))
  /\ (forall k, 0 <= k < _camera_num s3 -> has_overlap s3 k = true)
  /\ (forall k, 0 <= k < _camera_num s3 ->
        0 <= out_center_x (_center_marks s3 !!! Z.to_nat k) < 4294967296)
  /\ copy_dest_rects s4 = map out_area (fresh_copy_areas s3)
  /\ overlap_out_rects s4 = overlap_out_rects s3.
Proof.
  intros (Hcen & Hovf & Hcopy & Hrun1 & Hrun2 & Hrun3 & Hrun4)
    (Hn0 & Hfit1 & Hfit2 & Hfit3 & Hfit4) Hfree.
  destruct (estimate_coarse_crops_frame s0) as (l1 & Hs1 & Hl1).
  rewrite Hs1 in Hrun1. inversion Hrun1; subst s1; clear Hrun1 Hs1.
  set (s1 := set_is_crop_set (set_crop_info_field s0 l1) true) in *.
  destruct (mark_centers_success _ _ s1 _ Hcen Hrun2)
    as (_ & l2 & -> & Hl2 & Hmarks).
  destruct (estimate_overlap_success
              (set_is_center_marked (set_center_marks s1 l2) true) _
              Hovf Hrun3) as (l3 & -> & Hl3 & Hchk & Hovs).
  subst s1.
  rewrite update_copy_areas_unfold in Hrun4.
  destruct (negb _) eqn:Hpre in Hrun4; [discriminate Hrun4|].
  inversion Hrun4; subst s4; clear Hrun4.
  cbn [_camera_num _center_marks _overlap_info _copy_areas _output_width
       _is_crop_set _is_overlap_set set_is_crop_set set_crop_info_field
       set_is_center_marked set_center_marks set_is_overlap_set
       set_overlap_info_field set_copy_areas] in *.
  set (s3 := set_is_overlap_set
               (set_overlap_info_field
                  (set_is_center_marked
                     (set_center_marks
                        (set_is_crop_set (set_crop_info_field s0 l1) true) l2)
                     true) l3) true) in *.
  assert (Hnum : 1 < _camera_num s0).
  { destruct (Z.ltb_spec 1 (_camera_num s0)); [assumption|discriminate Hpre]. }
  split; [exact Hnum|]. split; [exact Hfree|]. split; [reflexivity|].
  split; [|split; [|split; [|split]]].
  - intros k Hk. apply (Hovs k Hk). lia.
  - exact Hchk.
  - intros k Hk.
    assert (Hlt : (Z.to_nat k < length (_center_marks s0))%nat) by lia.
    pose proof (Hmarks k Hk Hlt) as Hm.
    apply list_lookup_total_correct in Hm. rewrite Hm.
    apply mark_out_pos_snapped_range.
  - unfold copy_dest_rects. cbn [_copy_areas set_copy_areas].
    rewrite Hcopy. reflexivity.
  - reflexivity.
Qed.

(** From one center to the next, and once around the ring: with the
    assertions of [update_copy_areas] passing, the center of every right
    neighbour lies to the right of the camera's own, and the distances add
    up to as many output widths as there are cameras on the seam. *)
Lemma center_distances_of_state (s : Stitcher) :
  1 < _camera_num s ->
  overflow_free s ->
  (forall k, 0 <= k < _camera_num s ->
     _overlap_info s !! Z.to_nat k = Some (overlap_of_pair s k)) ->
  (forall k, 0 <= k < _camera_num s -> has_overlap s k = true) ->
  (forall k, 0 <= k < _camera_num s ->
     0 <= out_center_x (_center_marks s !!! Z.to_nat k) < 4294967296) ->
  copy_areas_asserted s ->
  (forall k, 0 <= k < _camera_num s -> 0 < center_distance s k)
  /\ sum_cameras (center_distance s) (Z.to_nat (_camera_num s))
     = _output_width s * seam_centers s.
Proof.
  unfold overflow_free, INT32_MAX.
  intros Hnum [HW Hmax] Hov Hchk Htyped Hassert.
  set (W := _output_width s) in *.
  set (c := fun k => out_center_x (_center_marks s !!! Z.to_nat k)).
  set (orc := fun j => out_right_center_x s j).
  assert (Hc : forall k, 0 <= k < _camera_num s -> 0 <= c k < W).
  { intros k Hk. split; [apply Htyped; exact Hk|].
    apply center_in_frame; [apply Hassert; exact Hk|exact HW|apply Htyped, Hk]. }
  assert (Horc : forall j, 0 <= j < _camera_num s ->
            orc j = if c j =? 0 then W else c j) by reflexivity.
  assert (Hnext : forall k, 0 <= k < _camera_num s ->
            next_index s k = (k + 1) mod Z.of_nat (Z.to_nat (_camera_num s))
            /\ 0 <= next_index s k < _camera_num s)
    by (intros; apply next_index_range; lia).
  assert (Hdist : forall k, 0 <= k < _camera_num s ->
            center_distance s k = orc (next_index s k) - c k) by reflexivity.
  split.
  - intros k Hk. destruct (Hnext k Hk) as [_ Hn].
    pose proof (Hc k Hk) as Hck. pose proof (Hc _ Hn) as Hcn.
    assert (Hrc : 0 < orc (next_index s k) <= W).
    { rewrite Horc by exact Hn. destruct (Z.eqb_spec (c (next_index s k)) 0); lia. }
    pose proof (pair_geometry s k
                  (list_lookup_total_correct _ _ _ (Hov k Hk)) (Hchk k Hk)
                  (Hassert k Hk) HW (Htyped k Hk) Hrc) as Hg.
    cbv zeta in Hg. destruct Hg as (G1 & G2 & G3 & G4 & G5 & G6 & G7 & G8).
    fold (c k) in G1, G3, G5, G8. fold (orc (next_index s k)) in G7.
    rewrite (Hdist k Hk). lia.
  - rewrite (sum_cameras_ext _
               (fun k => orc ((k + 1) mod Z.of_nat (Z.to_nat (_camera_num s)))
                         - c k)).
    2:{ intros k Hk. assert (Hk' : 0 <= k < _camera_num s) by lia.
        rewrite (Hdist k Hk'). destruct (Hnext k Hk') as [<- _]. reflexivity. }
    rewrite sum_cameras_minus, (sum_cameras_ring orc), <- sum_cameras_minus.
    unfold seam_centers. rewrite <- sum_cameras_scale.
    apply sum_cameras_ext. intros j Hj.
    assert (Hj' : 0 <= j < _camera_num s) by lia.
    rewrite (Horc j Hj'). fold (c j).
    destruct (Z.eqb_spec (c j) 0); lia.
Qed.

(** X15.  After a successful run of the four stages with all assertions
    of [update_copy_areas] passing and sizes clear of the 32-bit range,
    every column of [[0, _output_width)] lies in exactly as many of the
    destination rectangles of the copy areas and output rectangles of the
    overlaps as there are cameras whose output center is column 0, and
    every other column in none. *)
Theorem output_cover_multiplicity (format_angle : spec_float -> spec_float)
    (XCAM_ALIGN_AROUND : Z -> Z -> Z) (s0 s1 s2 s3 s4 : Stitcher) :
  stages_run format_angle XCAM_ALIGN_AROUND s0 s1 s2 s3 s4 ->
  arrays_fit s0 ->
  overflow_free s0 ->
  copy_areas_asserted s3 ->
  forall x,
    cover_count x (copy_dest_rects s4 ++ overlap_out_rects s4)
    = if (0 <=? x) && (x <? _output_width s0) then seam_centers s3 else 0.
Proof.
  intros Hrun Hfit Hfree Hassert x.
  destruct (stages_run_state _ _ _ _ _ _ _ Hrun Hfit Hfree)
    as (Hnum & Hfree3 & HW & Hov & Hchk & Htyped & -> & ->).
  rewrite <- HW. apply tiling_of_state; assumption.
Qed.

Lemma output_cover_multiplicity_witness :
  seam_centers seam_twice_overlapped = 2
  /\ forall x,
       cover_count x (copy_dest_rects seam_twice_done
                      ++ overlap_out_rects seam_twice_done)
       = if (0 <=? x) && (x <? _output_width seam_twice)
         then seam_centers seam_twice_overlapped else 0.
Proof.
  split; [reflexivity|].
  refine (output_cover_multiplicity format_angle_spec ALIGN_AROUND_spec
            seam_twice seam_twice_cropped seam_twice_marked
            seam_twice_overlapped seam_twice_done _ _ _ _).
  - repeat split; vm_compute; reflexivity.
  - unfold arrays_fit. cbn. lia.
  - unfold overflow_free, INT32_MAX. cbn. lia.
  - intros i Hi. change (_camera_num seam_twice_overlapped) with 2 in Hi.
    assert (Hcases : i = 0 \/ i = 1) by lia.
    destruct Hcases as [->| ->]; vm_compute; reflexivity.
Defined.

(** X16.  In such a run the centers go once or more around the output:
    the output center of every right neighbour, column 0 read as
    [_output_width], lies to the right of the camera's own center, these
    distances add up to [_output_width] times the number of cameras
    centered on column 0, and at least one camera is centered there. *)
Theorem centers_wrap_output (format_angle : spec_float -> spec_float)
    (XCAM_ALIGN_AROUND : Z -> Z -> Z) (s0 s1 s2 s3 s4 : Stitcher) :
  stages_run format_angle XCAM_ALIGN_AROUND s0 s1 s2 s3 s4 ->
  arrays_fit s0 ->
  overflow_free s0 ->
  copy_areas_asserted s3 ->
  (forall k, 0 <= k < _camera_num s3 -> 0 < center_distance s3 k)
  /\ sum_cameras (center_distance s3) (Z.to_nat (_camera_num s3))
     = _output_width s3 * seam_centers s3
  /\ 1 <= seam_centers s3.
Proof.
  intros Hrun Hfit Hfree Hassert.
  destruct (stages_run_state _ _ _ _ _ _ _ Hrun Hfit Hfree)
    as (Hnum & Hfree3 & HW & Hov & Hchk & Htyped & _ & _).
  destruct (center_distances_of_state s3 Hnum Hfree3 Hov Hchk Htyped Hassert)
    as [Hpos Hsum].
  split; [exact Hpos|]. split; [exact Hsum|].
  assert (Hgt : 0 < sum_cameras (center_distance s3)
                      (Z.to_nat (_camera_num s3))).
  { apply sum_cameras_pos; [intros i Hi; apply Hpos|]; lia. }
  destruct Hfree3 as [[HW0 _] _]. rewrite Hsum in Hgt. nia.
Qed.

Lemma centers_wrap_output_witness :
  (forall k, 0 <= k < _camera_num four_cameras_overlapped ->
     0 < center_distance four_cameras_overlapped k)
  /\ sum_cameras (center_distance four_cameras_overlapped)
       (Z.to_nat (_camera_num four_cameras_overlapped))
     = _output_width four_cameras_overlapped
       * seam_centers four_cameras_overlapped
  /\ 1 <= seam_centers four_cameras_overlapped.
Proof.
  refine (centers_wrap_output format_angle_spec ALIGN_AROUND_spec
            four_cameras four_cameras_cropped four_cameras_marked
            four_cameras_overlapped four_cameras_done _ _ _ _).
  - repeat split; vm_compute; reflexivity.
  - unfold arrays_fit. cbn. lia.
  - unfold overflow_free, INT32_MAX. cbn. lia.
  - intros i Hi. change (_camera_num four_cameras_overlapped) with 4 in Hi.
    assert (Hcases : i = 0 \/ i = 1 \/ i = 2 \/ i = 3) by lia.
    destruct Hcases as [->|[->|[->| ->]]]; vm_compute; reflexivity.
Defined.
